(** * glin-client: gradient utilities and compression codec

    A shallow embedding of [src/python/utils/gradient.py],
    [src/python/utils/compression.py] and [save_results] of
    [src/python/train.py], the properties of the specification checked
    against it, and further properties read off the code.

    Numbers.  Python floats and the elements of float32 tensors are
    embedded as real numbers ([R]): arithmetic is exact, there is no NaN,
    no infinity and no rounding.  Python integers are [Z] or [nat].  The
    one-byte storage of [torch.uint8] is written out as reduction modulo
    [2^8].  What rounding or overflow decides is embedded a second time
    with the arithmetic of the machine: clipping and the quantizer over
    binary32 tensors and binary64 Python floats ([Binary32]), and the
    number of elements the sparsifier keeps over binary64 ([Binary64]).

    Objects.  A Python [dict] keeps insertion order and has unique keys: it
    is an association list updated through [dict_set].  The envelopes
    passed between [compress_gradients] and [decompress_gradients] are
    untyped dictionaries in the source, and are embedded as values of the
    dynamic type [pyval].

    Failure.  A raised exception is the [Raise] result of the error monad
    [result]; the exception classes are those Python and torch raise.

    Randomness and files.  The generator behind [torch.randn_like] is the
    sequence of the numbers it yields, with the count of those already
    drawn as state.  Of [save_results] the object handed to [torch.save]
    and the printed ratio are embedded, not the file system. *)

From Stdlib Require Import Reals Lra Lia String ZArith Bool SpecFloat.
From Stdlib Require Import List Permutation Sorted.
Import ListNotations.

Local Open Scope string_scope.
Local Open Scope list_scope.
Local Open Scope Z_scope.
Local Open Scope R_scope.

(* ================================================================== *)
(** * Exceptions and the error monad *)
(* ================================================================== *)

(** The exception classes that the embedded code can raise. *)
Inductive exn : Type :=
| ValueError
| KeyError (key : string)
| IndexError
| TypeError
| AttributeError
| RuntimeError
| ZeroDivisionError
| OverflowError.

Inductive result (A : Type) : Type :=
| Ok (a : A)
| Raise (e : exn).

Arguments Ok {A} a.
Arguments Raise {A} e.

Definition bind {A B : Type} (m : result A) (k : A -> result B) : result B :=
  match m with
  | Ok a => k a
  | Raise e => Raise e
  end.

Notation "x <- m ;; k" := (bind m (fun x => k))
  (at level 61, m at next level, right associativity).

(** A [for] loop whose body may raise: the accumulator is threaded through
    the items from left to right and the first exception ends the loop. *)
Fixpoint for_each {A S : Type} (items : list A) (body : S -> A -> result S)
  (acc : S) : result S :=
  match items with
  | [] => Ok acc
  | x :: rest => acc' <- body acc x ;; for_each rest body acc'
  end.

(** A generator expression consumed in order: the first exception
    propagates. *)
Fixpoint map_each {A B : Type} (f : A -> result B) (items : list A)
  : result (list B) :=
  match items with
  | [] => Ok []
  | x :: rest => y <- f x ;; ys <- map_each f rest ;; Ok (y :: ys)
  end.

Definition fails {A : Type} (r : result A) : Prop := exists e, r = Raise e.

(* ================================================================== *)
(** * Python dictionaries *)
(* ================================================================== *)

Definition dict (V : Type) : Type := list (string * V).

Fixpoint dict_get {V : Type} (d : dict V) (k : string) : option V :=
  match d with
  | [] => None
  | (k', v) :: rest => if String.eqb k' k then Some v else dict_get rest k
  end.

(** [d[k] = v]: an existing key keeps its position, a new key is appended. *)
Fixpoint dict_set {V : Type} (d : dict V) (k : string) (v : V) : dict V :=
  match d with
  | [] => [(k, v)]
  | (k', v') :: rest =>
      if String.eqb k' k then (k', v) :: rest else (k', v') :: dict_set rest k v
  end.

Definition dict_keys {V : Type} (d : dict V) : list string := map fst d.
Definition dict_values {V : Type} (d : dict V) : list V := map snd d.

Definition dict_mem {V : Type} (d : dict V) (k : string) : bool :=
  match dict_get d k with Some _ => true | None => false end.

(* ================================================================== *)
(** * Numbers *)
(* ================================================================== *)

(** Largest integer below or equal to [x]. *)
Definition Rfloor (x : R) : Z := (up x - 1)%Z.

(** Python's [int(x)] on a float: truncation toward zero. *)
Definition py_int (x : R) : Z :=
  if Rle_dec 0 x then Rfloor x else (- Rfloor (- x))%Z.

(** [torch.round] and Python's [round]: to the nearest integer, a tie
    going to the even neighbour. *)
Definition round_half_even (x : R) : Z :=
  let f := Rfloor x in
  let d := x - IZR f in
  if Rlt_dec d (1 / 2) then f
  else if Rlt_dec (1 / 2) d then (f + 1)%Z
  else if Z.even f then f else (f + 1)%Z.

(** Python's [/] on floats. *)
Definition py_div (a b : R) : result R :=
  if Req_dec_T b 0 then Raise ZeroDivisionError else Ok (a / b).

(** [torch.sign]. *)
Definition sign (x : R) : R :=
  if Rlt_dec 0 x then 1 else if Rlt_dec x 0 then -1 else 0.

(** [x.clamp(lo, hi)] on one element: [min(max(x, lo), hi)]. *)
Definition clamp (lo hi x : R) : R := Rmin (Rmax x lo) hi.

Definition Rsum (l : list R) : R := fold_left Rplus l 0.

(* ================================================================== *)
(** * Tensors *)
(* ================================================================== *)

(** A float32 tensor: its shape and its elements in row-major order. *)
Record Tensor : Type := mkTensor { shape : list nat; data : list R }.

(** A [torch.uint8] tensor: every element is kept modulo [2^8]. *)
Record ByteTensor : Type := mkByteTensor { bshape : list nat; bdata : list Z }.

Definition shape_numel (s : list nat) : nat := fold_right Nat.mul 1%nat s.

Definition numel (t : Tensor) : nat := length (data t).

(** The tensors of the data model: at least one dimension, every dimension
    positive, and as many elements as the shape announces. *)
Definition wf_tensor (t : Tensor) : Prop :=
  shape t <> [] /\ Forall (fun d => (0 < d)%nat) (shape t) /\
  length (data t) = shape_numel (shape t).

(** A GradientSet: a dictionary from parameter names to tensors. *)
Definition GradientSet : Type := dict Tensor.

Definition wf_gradients (g : GradientSet) : Prop :=
  NoDup (dict_keys g) /\ Forall wf_tensor (dict_values g).

Definition tensor_map (f : R -> R) (t : Tensor) : Tensor :=
  mkTensor (shape t) (map f (data t)).

(** [torch.zeros_like(t)]. *)
Definition zeros_like (t : Tensor) : Tensor := tensor_map (fun _ => 0) t.

(** [t.min().item()] and [t.max().item()]: torch refuses an empty tensor. *)
Definition tensor_min (t : Tensor) : result R :=
  match data t with
  | [] => Raise RuntimeError
  | x :: xs => Ok (fold_left Rmin xs x)
  end.

Definition tensor_max (t : Tensor) : result R :=
  match data t with
  | [] => Raise RuntimeError
  | x :: xs => Ok (fold_left Rmax xs x)
  end.

(** [t.mean().item()].  On an empty tensor torch answers NaN without
    raising; every caller below has already failed on such a tensor. *)
Definition tensor_mean (t : Tensor) : R := Rsum (data t) / INR (numel t).

(** [t.norm(2).item()]. *)
Definition tensor_norm2 (t : Tensor) : R :=
  sqrt (Rsum (map (fun x => x * x) (data t))).

Fixpoint zip_with {A B C : Type} (f : A -> B -> C) (l : list A) (l' : list B)
  : list C :=
  match l, l' with
  | x :: xs, y :: ys => f x y :: zip_with f xs ys
  | _, _ => []
  end.

Fixpoint list_update {A : Type} (l : list A) (i : nat) (v : A) : list A :=
  match l, i with
  | [] , _ => []
  | _ :: xs, O => v :: xs
  | x :: xs, S j => x :: list_update xs j v
  end.

(** ** Broadcasting *)

Definition shape_eqb (s s' : list nat) : bool :=
  if list_eq_dec Nat.eq_dec s s' then true else false.

(** Row-major multi-index of the flat offset [i] in a tensor of shape [s],
    and back. *)
Fixpoint unravel (s : list nat) (i : nat) : list nat :=
  match s with
  | [] => []
  | _ :: rest =>
      let m := shape_numel rest in (i / m)%nat :: unravel rest (i mod m)%nat
  end.

Fixpoint ravel (s idx : list nat) : nat :=
  match s, idx with
  | _ :: rest, j :: js => (j * shape_numel rest + ravel rest js)%nat
  | _, _ => 0%nat
  end.

Fixpoint broadcast_dims (sa sb : list nat) : option (list nat) :=
  match sa, sb with
  | [], [] => Some []
  | a :: sa', b :: sb' =>
      match broadcast_dims sa' sb' with
      | None => None
      | Some s =>
          if (a =? b)%nat then Some (a :: s)
          else if (a =? 1)%nat then Some (b :: s)
          else if (b =? 1)%nat then Some (a :: s)
          else None
      end
  | _, _ => None
  end.

Definition pad_shape (n : nat) (s : list nat) : list nat :=
  repeat 1%nat (n - length s) ++ s.

(** The shape two operands broadcast to: shapes are aligned on their last
    dimension and a dimension of size one stretches. *)
Definition broadcast_shapes (sa sb : list nat) : option (list nat) :=
  let n := Nat.max (length sa) (length sb) in
  broadcast_dims (pad_shape n sa) (pad_shape n sb).

(** The elements of [t] seen through the broadcast shape [s]. *)
Definition expand (t : Tensor) (s : list nat) : list R :=
  map (fun i =>
         let idx := skipn (length s - length (shape t)) (unravel s i) in
         let src := zip_with (fun d j => if (d =? 1)%nat then 0%nat else j)
                             (shape t) idx in
         nth (ravel (shape t) src) (data t) 0)
      (seq 0 (shape_numel s)).

(** [a op b] on two tensors: element by element when the shapes agree,
    through broadcasting otherwise. *)
Definition tensor_binop (f : R -> R -> R) (a b : Tensor) : result Tensor :=
  if shape_eqb (shape a) (shape b)
  then Ok (mkTensor (shape a) (zip_with f (data a) (data b)))
  else match broadcast_shapes (shape a) (shape b) with
       | Some s => Ok (mkTensor s (zip_with f (expand a s) (expand b s)))
       | None => Raise RuntimeError
       end.

(** [a += b]: in place, so the broadcast shape has to be the shape of [a]. *)
Definition tensor_iadd (a b : Tensor) : result Tensor :=
  if shape_eqb (shape a) (shape b)
  then Ok (mkTensor (shape a) (zip_with Rplus (data a) (data b)))
  else match broadcast_shapes (shape a) (shape b) with
       | Some s =>
           if shape_eqb s (shape a)
           then Ok (mkTensor s (zip_with Rplus (data a) (expand b s)))
           else Raise RuntimeError
       | None => Raise RuntimeError
       end.

(* ================================================================== *)
(** * Dynamically typed values *)
(* ================================================================== *)

(** The Python objects that travel inside an envelope. *)
#[warnings="-register-all"]
Inductive pyval : Type :=
| PyFloat (x : R)
| PyStr (s : string)
| PyTensor (t : Tensor)
| PyByteTensor (t : ByteTensor)
| PyIndexTensor (idx : list nat)
| PySize (s : list nat)
| PyDict (d : list (string * pyval)).

(** A GradientSet as a Python object. *)
Definition py_gradients (g : GradientSet) : pyval :=
  PyDict (map (fun kv => (fst kv, PyTensor (snd kv))) g).

(** [v[k]] with a string key. *)
Definition py_getitem (v : pyval) (k : string) : result pyval :=
  match v with
  | PyDict d =>
      match dict_get d k with
      | Some x => Ok x
      | None => Raise (KeyError k)
      end
  | PyTensor _ | PyByteTensor _ | PyIndexTensor _ => Raise IndexError
  | _ => Raise TypeError
  end.

(** [v.get(k, default)]. *)
Definition py_get (v : pyval) (k : string) (default : pyval) : result pyval :=
  match v with
  | PyDict d =>
      match dict_get d k with
      | Some x => Ok x
      | None => Ok default
      end
  | _ => Raise AttributeError
  end.

(** [v.items()] and [v.values()]. *)
Definition py_items (v : pyval) : result (list (string * pyval)) :=
  match v with
  | PyDict d => Ok d
  | _ => Raise AttributeError
  end.

Definition py_values (v : pyval) : result (list pyval) :=
  match v with
  | PyDict d => Ok (dict_values d)
  | _ => Raise AttributeError
  end.

(** [k in v] for a string [k]. *)
Definition py_contains (k : string) (v : pyval) : result bool :=
  match v with
  | PyDict d => Ok (dict_mem d k)
  | PyStr s => Ok (match index 0 k s with Some _ => true | None => false end)
  | PySize _ => Ok false
  | PyTensor _ | PyByteTensor _ | PyIndexTensor _ => Raise RuntimeError
  | PyFloat _ => Raise TypeError
  end.

(** [v == s] for a string [s], as the condition of an [if]. *)
Definition py_eq_str (v : pyval) (s : string) : bool :=
  match v with
  | PyStr s' => String.eqb s' s
  | _ => false
  end.

(** [v.numel()]. *)
Definition py_numel (v : pyval) : result nat :=
  match v with
  | PyTensor t => Ok (numel t)
  | PyByteTensor t => Ok (length (bdata t))
  | PyIndexTensor idx => Ok (length idx)
  | _ => Raise AttributeError
  end.

(** [len(v)]. *)
Definition py_len (v : pyval) : result nat :=
  match v with
  | PyDict d => Ok (length d)
  | PyStr s => Ok (String.length s)
  | PySize s => Ok (length s)
  | PyTensor t =>
      match shape t with [] => Raise TypeError | d :: _ => Ok d end
  | PyByteTensor t =>
      match bshape t with [] => Raise TypeError | d :: _ => Ok d end
  | PyIndexTensor idx => Ok (length idx)
  | PyFloat _ => Raise TypeError
  end.

(** [v.float()]. *)
Definition py_float (v : pyval) : result Tensor :=
  match v with
  | PyTensor t => Ok t
  | PyByteTensor t => Ok (mkTensor (bshape t) (map IZR (bdata t)))
  | PyIndexTensor idx => Ok (mkTensor [length idx] (map INR idx))
  | _ => Raise AttributeError
  end.

(** [t op v] for a float tensor [t]: a Python float applies to every
    element, a tensor broadcasts. *)
Definition py_tensor_op (f : R -> R -> R) (t : Tensor) (v : pyval)
  : result Tensor :=
  match v with
  | PyFloat x => Ok (tensor_map (fun y => f y x) t)
  | PyTensor _ | PyByteTensor _ | PyIndexTensor _ =>
      u <- py_float v ;; tensor_binop f t u
  | _ => Raise TypeError
  end.

(** [torch.prod(torch.tensor(shape)).item()] passed to [torch.zeros]: the
    element count of a [torch.Size].  An empty [torch.Size] makes
    [torch.tensor] build an empty float tensor, whose product is the float
    [1.0], and [torch.zeros] refuses a float size. *)
Definition py_zeros_size (shape : pyval) : result nat :=
  match shape with
  | PySize [] => Raise TypeError
  | PySize s => Ok (shape_numel s)
  | _ => Raise TypeError
  end.

(** [dense.reshape(shape)] for a buffer of [shape_numel shape] elements. *)
Definition py_reshape (dense : list R) (shape : pyval) : result Tensor :=
  match shape with
  | PySize s =>
      if (length dense =? shape_numel s)%nat then Ok (mkTensor s dense)
      else Raise RuntimeError
  | _ => Raise TypeError
  end.

(** [dense[indices] = values]: the values are written in order at the
    given flat offsets. *)
Definition py_index_put (dense : list R) (indices values : pyval)
  : result (list R) :=
  match indices with
  | PyIndexTensor idx =>
      vals <- match values with
              | PyFloat x => Ok (repeat x (length idx))
              | PyTensor v =>
                  if shape_eqb (shape v) [length idx] then Ok (data v)
                  else match broadcast_shapes [length idx] (shape v) with
                       | Some s =>
                           if shape_eqb s [length idx]
                           then Ok (expand v [length idx])
                           else Raise RuntimeError
                       | None => Raise RuntimeError
                       end
              | _ => Raise TypeError
              end ;;
      if forallb (fun i => (i <? length dense)%nat) idx
      then Ok (fold_left (fun d iv => list_update d (fst iv) (snd iv))
                         (combine idx vals) dense)
      else Raise IndexError
  | _ => Raise IndexError
  end.

(* ================================================================== *)
(** * gradient.py *)
(* ================================================================== *)

(** [compute_gradient_norm]: the squared per-tensor norms are summed and
    the root of the total is returned. *)
Definition compute_gradient_norm (gradients : GradientSet) : R :=
  let total_norm :=
    fold_left (fun total grad => total + tensor_norm2 grad ^ 2)
              (dict_values gradients) 0 in
  sqrt total_norm.

(** [clip_gradients]. *)
Definition clip_gradients (gradients : GradientSet) (max_norm : R)
  : GradientSet :=
  let current_norm := compute_gradient_norm gradients in
  if Rlt_dec max_norm current_norm then
    let clip_coef := max_norm / (current_norm + / 1000000) in
    fold_left (fun clipped item =>
                 dict_set clipped (fst item)
                          (tensor_map (fun x => x * clip_coef) (snd item)))
              gradients []
  else gradients.

(** [aggregated[name] += grad]. *)
Definition accumulate (aggregated : GradientSet) (item : string * Tensor)
  : result GradientSet :=
  match dict_get aggregated (fst item) with
  | None => Raise (KeyError (fst item))
  | Some cur =>
      new <- tensor_iadd cur (snd item) ;;
      Ok (dict_set aggregated (fst item) new)
  end.

(** [aggregated[name] /= num_gradients]. *)
Definition average (num_gradients : nat) (aggregated : GradientSet)
  (name : string) : result GradientSet :=
  match dict_get aggregated name with
  | None => Raise (KeyError name)
  | Some cur =>
      Ok (dict_set aggregated name
                   (tensor_map (fun x => x / INR num_gradients) cur))
  end.

(** [aggregate_gradients]. *)
Definition aggregate_gradients (gradient_list : list GradientSet)
  : result GradientSet :=
  match gradient_list with
  | [] => Ok []
  | first :: _ =>
      let zeros :=
        fold_left (fun acc item => dict_set acc (fst item) (zeros_like (snd item)))
                  first [] in
      summed <- for_each gradient_list
                  (fun acc gradients => for_each gradients accumulate acc)
                  zeros ;;
      for_each (dict_keys summed) (average (length gradient_list)) summed
  end.

(** Python's [max] and [min] over a sequence of floats. *)
Definition py_max (l : list R) : result R :=
  match l with
  | [] => Raise ValueError
  | x :: xs => Ok (fold_left Rmax xs x)
  end.

Definition py_min (l : list R) : result R :=
  match l with
  | [] => Raise ValueError
  | x :: xs => Ok (fold_left Rmin xs x)
  end.

Record Stats : Type := mkStats {
  num_parameters : nat;
  total_elements : nat;
  l2_norm : R;
  max_value : R;
  min_value : R;
  mean_value : R
}.

(** [gradient_statistics]: the entries of the dictionary display are
    evaluated from top to bottom. *)
Definition gradient_statistics (gradients : GradientSet) : result Stats :=
  let num := length gradients in
  let total := fold_left Nat.add (map numel (dict_values gradients)) 0%nat in
  let norm := compute_gradient_norm gradients in
  maxs <- map_each (fun grad => tensor_max (tensor_map Rabs grad))
                   (dict_values gradients) ;;
  max_v <- py_max maxs ;;
  mins <- map_each (fun grad => tensor_min (tensor_map Rabs grad))
                   (dict_values gradients) ;;
  min_v <- py_min mins ;;
  mean_v <- py_div (Rsum (map tensor_mean (dict_values gradients)))
                   (INR (length gradients)) ;;
  Ok (mkStats num total norm max_v min_v mean_v).

(* ================================================================== *)
(** * compression.py *)
(* ================================================================== *)

(** [.to(torch.uint8)] on one element: the fraction is dropped and the
    integer is kept modulo [2^8]. *)
Definition to_uint8 (x : R) : Z := (py_int x mod 256)%Z.

(** The quantized elements of one tensor, before the cast to one byte:
    [((grad - zero_point) / scale).round().clamp(0, 2 ** num_bits - 1)]. *)
Definition quantize_levels (num_bits : Z) (scale zero_point : R)
  (grad : Tensor) : list R :=
  map (fun x =>
         clamp 0 (powerRZ 2 num_bits - 1)
               (IZR (round_half_even ((x - zero_point) / scale))))
      (data grad).

(** The body of the loop of [quantize_gradients]; the accumulator is the
    pair of dictionaries [quantized] and [quantization_params].  Numbers
    are exact and unbounded here: the OverflowError that Python raises on
    [2 ** num_bits - 1] from 1024 bits on, and the rounding of the levels
    in binary32, which cannot hold [2 ** num_bits - 1] from 24 bits on, are
    in [Binary32.quantize_step]. *)
Definition quantize_step (num_bits : Z)
  (acc : dict pyval * dict pyval) (item : string * Tensor)
  : result (dict pyval * dict pyval) :=
  let name := fst item in
  let grad := snd item in
  min_val <- tensor_min grad ;;
  max_val <- tensor_max grad ;;
  scale <- py_div (max_val - min_val) (powerRZ 2 num_bits - 1) ;;
  let zero_point := min_val in
  if Rlt_dec 0 scale then
    let stored := map to_uint8 (quantize_levels num_bits scale zero_point grad) in
    Ok (dict_set (fst acc) name (PyByteTensor (mkByteTensor (shape grad) stored)),
        dict_set (snd acc) name
                 (PyDict [("scale", PyFloat scale);
                          ("zero_point", PyFloat zero_point)]))
  else
    Ok (dict_set (fst acc) name
                 (PyByteTensor (mkByteTensor (shape grad)
                                             (map (fun _ => 0%Z) (data grad)))),
        dict_set (snd acc) name
                 (PyDict [("scale", PyFloat 0);
                          ("zero_point", PyFloat min_val)])).

(** [quantize_gradients]. *)
Definition quantize_gradients (gradients : GradientSet) (num_bits : Z)
  : result pyval :=
  acc <- for_each gradients (quantize_step num_bits) ([], []) ;;
  Ok (PyDict [("gradients", PyDict (fst acc)); ("params", PyDict (snd acc))]).

(** The body of the loop of [dequantize_gradients]. *)
Definition dequantize_step (params : pyval) (dequantized : GradientSet)
  (item : string * pyval) : result GradientSet :=
  let name := fst item in
  let quantized_grad := snd item in
  p <- py_getitem params name ;;
  scale <- py_getitem p "scale" ;;
  p' <- py_getitem params name ;;
  zero_point <- py_getitem p' "zero_point" ;;
  as_float <- py_float quantized_grad ;;
  scaled <- py_tensor_op Rmult as_float scale ;;
  dequantized_grad <- py_tensor_op Rplus scaled zero_point ;;
  Ok (dict_set dequantized name dequantized_grad).

(** [dequantize_gradients]. *)
Definition dequantize_gradients (quantized_data : pyval)
  : result GradientSet :=
  quantized <- py_getitem quantized_data "gradients" ;;
  params <- py_getitem quantized_data "params" ;;
  items <- py_items quantized ;;
  for_each items (dequantize_step params) [].

(** Insertion into a list ordered by decreasing first component; among
    equal magnitudes the element inserted last comes first. *)
Fixpoint insert_desc (p : R * nat) (l : list (R * nat)) : list (R * nat) :=
  match l with
  | [] => [p]
  | q :: rest =>
      if Rle_dec (fst q) (fst p) then p :: l else q :: insert_desc p rest
  end.

Definition sort_desc (l : list (R * nat)) : list (R * nat) :=
  fold_right insert_desc [] l.

(** [torch.topk(l, k)] on a 1-D tensor: the [k] largest elements in
    decreasing order, with their offsets.  Elements of equal magnitude are
    taken by increasing offset.  torch refuses a [k] outside [0, len(l)]. *)
Definition topk (l : list R) (k : Z) : result (list R * list nat) :=
  if ((k <? 0) || (Z.of_nat (length l) <? k))%Z then Raise RuntimeError
  else
    let top := firstn (Z.to_nat k) (sort_desc (combine l (seq 0 (length l)))) in
    Ok (map fst top, map snd top).

(** [flat[indices]] for a tensor of offsets. *)
Definition index_select (flat : list R) (indices : list nat)
  : result (list R) :=
  map_each (fun i => match nth_error flat i with
                     | Some x => Ok x
                     | None => Raise IndexError
                     end) indices.

(** The number of elements [sparsify_gradients] keeps of [n]:
    [k = int(n * (1 - sparsity))], and [1] when that is [0].  Here the
    difference and the product are exact; Python rounds both to binary64,
    which can change [k] by one ([int(10 * (1 - 0.1))] is [9]).  The count
    of the machine is [Binary64.sparsify_k], and what is stated about the
    value of [k] is stated there. *)
Definition sparsify_k (n : nat) (sparsity : R) : Z :=
  let k := py_int (INR n * (1 - sparsity)) in
  if (k =? 0)%Z then 1%Z else k.

(** The body of the loop of [sparsify_gradients]. *)
Definition sparsify_step (sparsity : R) (sparse_gradients : dict pyval)
  (item : string * Tensor) : result (dict pyval) :=
  let name := fst item in
  let grad := snd item in
  let flat_grad := data grad in
  let k := sparsify_k (numel grad) sparsity in
  top <- topk (map Rabs flat_grad) k ;;
  picked <- index_select flat_grad (snd top) ;;
  let topk_signs := map sign picked in
  let topk_values := zip_with Rmult (fst top) topk_signs in
  Ok (dict_set sparse_gradients name
        (PyDict [("values", PyTensor (mkTensor [length topk_values] topk_values));
                 ("indices", PyIndexTensor (snd top));
                 ("shape", PySize (shape grad))])).

(** [sparsify_gradients]. *)
Definition sparsify_gradients (gradients : GradientSet) (sparsity : R)
  : result pyval :=
  sparse_gradients <- for_each gradients (sparsify_step sparsity) [] ;;
  Ok (PyDict sparse_gradients).

(** The body of the loop of [densify_gradients]. *)
Definition densify_step (dense_gradients : GradientSet)
  (item : string * pyval) : result GradientSet :=
  let name := fst item in
  let sparse_data := snd item in
  shape <- py_getitem sparse_data "shape" ;;
  values <- py_getitem sparse_data "values" ;;
  indices <- py_getitem sparse_data "indices" ;;
  n <- py_zeros_size shape ;;
  dense_grad <- py_index_put (repeat 0 n) indices values ;;
  dense_grad <- py_reshape dense_grad shape ;;
  Ok (dict_set dense_gradients name dense_grad).

(** [densify_gradients]. *)
Definition densify_gradients (sparse_gradients : pyval) : result GradientSet :=
  items <- py_items sparse_gradients ;;
  for_each items densify_step [].

(** The compression methods of the facade. *)
Definition m_quantize : string := "quantize".
Definition m_sparsify : string := "sparsify".
Definition m_none : string := "none".

(** The keyword arguments of [compress_gradients]. *)
Record kwargs : Type := mkKwargs {
  kw_num_bits : option Z;
  kw_sparsity : option R
}.

Definition no_kwargs : kwargs := mkKwargs None None.

(** [compress_gradients]. *)
Definition compress_gradients (gradients : GradientSet) (method : string)
  (kw : kwargs) : result pyval :=
  if String.eqb method m_quantize then
    let num_bits := match kw_num_bits kw with Some b => b | None => 8%Z end in
    quantize_gradients gradients num_bits
  else if String.eqb method m_sparsify then
    let sparsity := match kw_sparsity kw with Some s => s | None => 9 / 10 end in
    sparsify_gradients gradients sparsity
  else if String.eqb method m_none then
    Ok (PyDict [("gradients", py_gradients gradients);
                ("method", PyStr m_none)])
  else Raise ValueError.

(** [decompress_gradients]. *)
Definition decompress_gradients (compressed_data : pyval) : result pyval :=
  method <- py_get compressed_data "method" (PyStr m_quantize) ;;
  if py_eq_str method m_quantize then
    g <- dequantize_gradients compressed_data ;; Ok (py_gradients g)
  else if py_eq_str method m_sparsify then
    sparse <- py_getitem compressed_data "gradients" ;;
    g <- densify_gradients sparse ;; Ok (py_gradients g)
  else if py_eq_str method m_none then
    py_getitem compressed_data "gradients"
  else Raise ValueError.

(** [sum(grad.numel() * 4 for grad in original.values())]. *)
Definition original_size (original : GradientSet) : nat :=
  fold_left Nat.add (map (fun grad => (numel grad * 4)%nat)
                         (dict_values original)) 0%nat.

(** [estimate_compression_ratio]. *)
Definition estimate_compression_ratio (original : GradientSet)
  (compressed : pyval) : result R :=
  let original_size := original_size original in
  quantized <- py_contains "params" compressed ;;
  compressed_size <-
    (if quantized : bool then
       grads <- py_getitem compressed "gradients" ;;
       vals <- py_values grads ;;
       sizes <- map_each py_numel vals ;;
       params <- py_getitem compressed "params" ;;
       n_params <- py_len params ;;
       Ok (fold_left Nat.add sizes 0 + n_params * 16)%nat
     else
       vals <- py_values compressed ;;
       first <- match vals with
                | [] => Raise IndexError
                | v :: _ => Ok v
                end ;;
       sparse <- py_contains "values" first ;;
       if sparse : bool then
         sizes <- map_each
                    (fun data =>
                       values <- py_getitem data "values" ;;
                       nv <- py_numel values ;;
                       indices <- py_getitem data "indices" ;;
                       ni <- py_numel indices ;;
                       Ok (nv * 4 + ni * 4)%nat)
                    vals ;;
         Ok (fold_left Nat.add sizes 0%nat)
       else Ok original_size) ;;
  if (0 <? compressed_size)%nat
  then Ok (INR original_size / INR compressed_size)
  else Ok 1.

(* ================================================================== *)
(** * gradient.py: models and noise *)
(* ================================================================== *)

(** A parameter of a model: its value and, once a backward pass has run,
    its gradient. *)
Record Param : Type := mkParam {
  param_value : Tensor;
  param_grad : option Tensor
}.

(** [extract_gradients]; the model is given by [named_parameters()]. *)
Definition extract_gradients (model : list (string * Param))
  : GradientSet :=
  fold_left (fun gradients item =>
               match param_grad (snd item) with
               | Some gr => dict_set gradients (fst item) gr
               | None =>
                   dict_set gradients (fst item)
                            (zeros_like (param_value (snd item)))
               end)
            model [].

(** [torch.randn_like(t)]: the generator is the sequence [samples] of the
    numbers it yields, of which [drawn] are already consumed; one sample is
    taken for each element. *)
Definition randn_like (samples : nat -> R) (drawn : nat) (t : Tensor)
  : Tensor * nat :=
  (mkTensor (shape t)
            (map (fun i => samples (drawn + i)%nat) (seq 0 (numel t))),
   (drawn + numel t)%nat).

(** The body of the loop of [add_noise_to_gradients]; the accumulator is
    [noisy_gradients] with the state of the generator. *)
Definition add_noise_step (noise_scale : R) (samples : nat -> R)
  (acc : GradientSet * nat) (item : string * Tensor)
  : result (GradientSet * nat) :=
  let name := fst item in
  let grad := snd item in
  let drawn := randn_like samples (snd acc) grad in
  let noise := tensor_map (fun x => x * noise_scale) (fst drawn) in
  noisy <- tensor_binop Rplus grad noise ;;
  Ok (dict_set (fst acc) name noisy, snd drawn).

(** [add_noise_to_gradients]. *)
Definition add_noise_to_gradients (gradients : GradientSet) (noise_scale : R)
  (samples : nat -> R) (drawn : nat) : result (GradientSet * nat) :=
  for_each gradients (add_noise_step noise_scale samples) ([], drawn).

(* ================================================================== *)
(** * train.py *)
(* ================================================================== *)

(** [save_results], with the utilities imported: the object written to
    [gradients.pt] and the ratio that is printed, if any. *)
Definition save_results (gradients : GradientSet) (compression_method : string)
  (clip_norm : option R) : result (pyval * option R) :=
  let gradients :=
    match clip_norm with
    | Some max_norm => clip_gradients gradients max_norm
    | None => gradients
    end in
  if negb (String.eqb compression_method "none") then
    compressed <-
      (if String.eqb compression_method "quantize" then
         compress_gradients gradients m_quantize (mkKwargs (Some 8%Z) None)
       else if String.eqb compression_method "sparsify" then
         compress_gradients gradients m_sparsify (mkKwargs None (Some (9 / 10)))
       else Ok (PyDict [("gradients", py_gradients gradients);
                        ("method", PyStr "none")])) ;;
    ratio <- estimate_compression_ratio gradients compressed ;;
    Ok (compressed, Some ratio)
  else Ok (py_gradients gradients, None).

(* ================================================================== *)
(** * The arithmetic of the machine *)
(* ================================================================== *)

(** [clip_gradients] and [quantize_gradients] once more, with the
    arithmetic of the machine: the elements of a tensor are binary32
    numbers, Python floats are binary64 numbers, every operation rounds to
    nearest, ties to even, and an integer too large for a float raises
    OverflowError.  The statements that rounding or overflow decide are
    settled on this embedding. *)
Module Binary32.

(** A float32 tensor. *)
Record Tensor : Type := mkTensor { shape : list nat; data : list spec_float }.

(** A binary32 number as a Python float ([.item()]): exact. *)
Definition widen (x : spec_float) : spec_float :=
  match x with
  | S754_finite s m e => binary_normalize 53 1024 (cond_Zopp s (Zpos m)) e s
  | _ => x
  end.

(** A binary64 number stored in a float32 tensor: rounded. *)
Definition narrow (x : spec_float) : spec_float :=
  match x with
  | S754_finite s m e => binary_normalize 24 128 (cond_Zopp s (Zpos m)) e s
  | _ => x
  end.

Definition float32_of_Z (z : Z) : spec_float := binary_normalize 24 128 z 0 false.
Definition float64_of_Z (z : Z) : spec_float := binary_normalize 53 1024 z 0 false.

(** The Python literal [1e-6]: the binary64 number nearest to [10^-6]. *)
Definition micro : spec_float :=
  SFdiv 53 1024 (float64_of_Z 1) (float64_of_Z 1000000).

(** [t.norm(2).item()]: the squares are summed and the root is taken in
    binary64, and the result is a binary32 number.  The source does not
    fix the order and the precision in which torch accumulates; for a
    tensor with one element [x] every choice gives [|x|]. *)
Definition tensor_norm2 (t : Tensor) : spec_float :=
  widen (narrow (SFsqrt 53 1024
    (fold_left (fun acc x => SFadd 53 1024 acc
                               (SFmul 53 1024 (widen x) (widen x)))
               (data t) (S754_zero false)))).

(** [compute_gradient_norm]. *)
Definition compute_gradient_norm (gradients : dict Tensor) : spec_float :=
  let total_norm :=
    fold_left (fun total grad =>
                 let n := tensor_norm2 grad in
                 SFadd 53 1024 total (SFmul 53 1024 n n))
              (dict_values gradients) (S754_zero false) in
  SFsqrt 53 1024 total_norm.

(** [grad * clip_coef] on one element, the Python float being converted
    to binary32 before the product ... *)
Definition scale_converted (clip_coef x : spec_float) : spec_float :=
  SFmul 24 128 x (narrow clip_coef).

(** ... or the product being taken in binary64 and rounded once. *)
Definition scale_rounded_once (clip_coef x : spec_float) : spec_float :=
  narrow (SFmul 53 1024 (widen x) clip_coef).

(** [clip_gradients], for either way of scaling an element. *)
Definition clip_gradients (scale : spec_float -> spec_float -> spec_float)
  (gradients : dict Tensor) (max_norm : spec_float) : dict Tensor :=
  let current_norm := compute_gradient_norm gradients in
  if SFltb max_norm current_norm then
    let clip_coef :=
      SFdiv 53 1024 max_norm (SFadd 53 1024 current_norm micro) in
    fold_left (fun clipped item =>
                 dict_set clipped (fst item)
                   (mkTensor (shape (snd item))
                             (map (scale clip_coef) (data (snd item)))))
              gradients []
  else gradients.

(** The set with the single element [100.0], and the bound [0.1]. *)
Definition hundred : dict Tensor :=
  [("w", mkTensor [1%nat] [float32_of_Z 100])].

Definition tenth : spec_float :=
  SFdiv 53 1024 (float64_of_Z 1) (float64_of_Z 10).

Definition is_nan (x : spec_float) : bool :=
  match x with S754_nan => true | _ => false end.

(** [t.min().item()] and [t.max().item()]: torch refuses an empty tensor
    and lets a NaN through. *)
Definition tensor_min (t : Tensor) : result spec_float :=
  match data t with
  | [] => Raise RuntimeError
  | x :: xs =>
      Ok (widen (fold_left (fun acc y =>
                              if is_nan acc then acc
                              else if is_nan y then y
                              else if SFltb y acc then y else acc)
                           xs x))
  end.

Definition tensor_max (t : Tensor) : result spec_float :=
  match data t with
  | [] => Raise RuntimeError
  | x :: xs =>
      Ok (widen (fold_left (fun acc y =>
                              if is_nan acc then acc
                              else if is_nan y then y
                              else if SFltb acc y then y else acc)
                           xs x))
  end.

(** The conversion of a Python [int] to a [float] that [float / int] and
    [int * float] perform: to the nearest binary64 number, and
    OverflowError when there is none. *)
Definition float_of_int (z : Z) : result spec_float :=
  match float64_of_Z z with
  | S754_infinity _ => Raise OverflowError
  | f => Ok f
  end.

(** [(max_val - min_val) / (2 ** num_bits - 1)].  [2 ** num_bits] is an
    [int] for a non-negative [num_bits], so that the divisor is converted
    and may be too large, and a [float] otherwise. *)
Definition quantize_scale (min_val max_val : spec_float) (num_bits : Z)
  : result spec_float :=
  let span := SFsub 53 1024 max_val min_val in
  divisor <-
    (if (0 <=? num_bits)%Z then float_of_int (2 ^ num_bits - 1)
     else Ok (SFsub 53 1024 (binary_normalize 53 1024 1 num_bits false)
                    (float64_of_Z 1))) ;;
  if SFeqb divisor (S754_zero false) then Raise ZeroDivisionError
  else Ok (SFdiv 53 1024 span divisor).

(** [torch.round] on one element: to the nearest integer, a tie going to
    the even neighbour. *)
Definition nearest_integer (x : spec_float) : spec_float :=
  match x with
  | S754_finite s m e =>
      if (0 <=? e)%Z then x
      else
        let d := (2 ^ (- e))%Z in
        let q := (Zpos m / d)%Z in
        let r := (Zpos m mod d)%Z in
        let n := if (2 * r <? d)%Z then q
                 else if (d <? 2 * r)%Z then (q + 1)%Z
                 else if Z.even q then q else (q + 1)%Z in
        if (n =? 0)%Z then S754_zero s else float32_of_Z (cond_Zopp s n)
  | _ => x
  end.

(** [x.clamp(lo, hi)] on one element. *)
Definition clamp (lo hi x : spec_float) : spec_float :=
  if is_nan x then x
  else
    let y := if SFltb x lo then lo else x in
    if SFltb hi y then hi else y.

(** The integer a number holds, the fraction dropped; [0] for what is not
    a number. *)
Definition truncation (x : spec_float) : Z :=
  match x with
  | S754_finite s m e =>
      cond_Zopp s (if (0 <=? e)%Z then Zpos m * 2 ^ e
                   else Zpos m / 2 ^ (- e))%Z
  | _ => 0%Z
  end.

(** [.to(torch.uint8)] on one element: the integer it holds is kept
    modulo [2^8].  torch leaves the cast of a number outside [[0, 255]]
    to the platform; the wrap is what the common ones do. *)
Definition to_uint8 (x : spec_float) : Z := (truncation x mod 256)%Z.

(** [2 ** num_bits - 1] as the upper bound of [clamp], in binary32.  It is
    an [int] for a non-negative [num_bits], and torch takes an [int] that
    fits in 64 bits (its older versions: in 63) and raises otherwise; it is
    a [float] for a negative one. *)
Definition clamp_bound (num_bits : Z) : result spec_float :=
  if (0 <=? num_bits)%Z then
    if (2 ^ num_bits - 1 <? 2 ^ 64)%Z
    then Ok (float32_of_Z (2 ^ num_bits - 1))
    else Raise OverflowError
  else
    Ok (narrow (SFsub 53 1024 (binary_normalize 53 1024 1 num_bits false)
                      (float64_of_Z 1))).

(** [((grad - zero_point) / scale).round().clamp(0, 2 ** num_bits - 1)] on
    one element, the Python floats being converted to binary32 before each
    operation ... *)
Definition level_converted (bound scale zero_point x : spec_float)
  : spec_float :=
  clamp (float32_of_Z 0) bound
    (nearest_integer
       (SFdiv 24 128 (SFsub 24 128 x (narrow zero_point)) (narrow scale))).

(** ... or each operation being done in binary64 and rounded once. *)
Definition level_rounded_once (bound scale zero_point x : spec_float)
  : spec_float :=
  clamp (float32_of_Z 0) bound
    (nearest_integer
       (narrow (SFdiv 53 1024
                  (widen (narrow (SFsub 53 1024 (widen x) zero_point)))
                  scale))).

(** The byte stored for one element, for either way of computing its
    level. *)
Definition stored_as
  (level : spec_float -> spec_float -> spec_float -> spec_float -> spec_float)
  (bound scale zero_point x : spec_float) : Z :=
  to_uint8 (level bound scale zero_point x).

Definition store_converted := stored_as level_converted.
Definition store_rounded_once := stored_as level_rounded_once.

(** What [quantize_gradients] returns: the stored bytes, and the scale and
    the zero point of every tensor. *)
Definition Quantized : Type :=
  (dict ByteTensor * dict (spec_float * spec_float))%type.

(** The body of the loop of [quantize_gradients], for either way of
    storing an element. *)
Definition quantize_step
  (store : spec_float -> spec_float -> spec_float -> spec_float -> Z)
  (num_bits : Z)
  (acc : Quantized) (item : string * Tensor) : result Quantized :=
  let name := fst item in
  let grad := snd item in
  min_val <- tensor_min grad ;;
  max_val <- tensor_max grad ;;
  scale <- quantize_scale min_val max_val num_bits ;;
  let zero_point := min_val in
  if SFltb (S754_zero false) scale then
    bound <- clamp_bound num_bits ;;
    Ok (dict_set (fst acc) name
                 (mkByteTensor (shape grad)
                               (map (store bound scale zero_point) (data grad))),
        dict_set (snd acc) name (scale, zero_point))
  else
    Ok (dict_set (fst acc) name
                 (mkByteTensor (shape grad) (map (fun _ => 0%Z) (data grad))),
        dict_set (snd acc) name (S754_zero false, min_val)).

(** [quantize_gradients]. *)
Definition quantize_gradients
  (store : spec_float -> spec_float -> spec_float -> spec_float -> Z)
  (gradients : dict Tensor) (num_bits : Z) : result Quantized :=
  for_each gradients (quantize_step store num_bits) ([], []).

(** The set whose only tensor has the two elements [0.0] and [1.0]. *)
Definition unit_ramp : dict Tensor :=
  [("w", mkTensor [2%nat] [float32_of_Z 0; float32_of_Z 1])].

End Binary32.

(** [sparsify_gradients] once more, with the number of kept elements
    computed as Python computes it: the sparsity is a binary64 number, the
    difference [1 - sparsity] and the product with the element count are
    rounded to nearest, and [int] drops the fraction.  The elements stay
    real numbers: the sparsifier only compares, negates and copies them,
    and that is exact. *)
Module Binary64.

(** The Python literal [p / 10^q], as in [0.1] or [0.9]: the binary64
    number nearest to the fraction. *)
Definition literal (num den : Z) : spec_float :=
  SFdiv 53 1024 (Binary32.float64_of_Z num) (Binary32.float64_of_Z den).

(** Python's [int(x)] on a float: truncation toward zero; NaN and the
    infinities are refused. *)
Definition py_int (x : spec_float) : result Z :=
  match x with
  | S754_zero _ => Ok 0%Z
  | S754_finite s m e =>
      Ok (cond_Zopp s (if (0 <=? e)%Z then Zpos m * 2 ^ e
                       else Zpos m / 2 ^ (- e)))%Z
  | S754_infinity _ => Raise OverflowError
  | S754_nan => Raise ValueError
  end.

(** [k = int(flat_grad.numel() * (1 - sparsity))], and [1] when that is
    [0]. *)
Definition sparsify_k (n : nat) (sparsity : spec_float) : result Z :=
  let kept_share := SFsub 53 1024 (Binary32.float64_of_Z 1) sparsity in
  numel <- Binary32.float_of_int (Z.of_nat n) ;;
  k <- py_int (SFmul 53 1024 numel kept_share) ;;
  Ok (if (k =? 0)%Z then 1%Z else k).

(** The body of the loop of [sparsify_gradients]. *)
Definition sparsify_step (sparsity : spec_float)
  (sparse_gradients : dict pyval) (item : string * Tensor)
  : result (dict pyval) :=
  let name := fst item in
  let grad := snd item in
  let flat_grad := data grad in
  k <- sparsify_k (numel grad) sparsity ;;
  top <- topk (map Rabs flat_grad) k ;;
  picked <- index_select flat_grad (snd top) ;;
  let topk_signs := map sign picked in
  let topk_values := zip_with Rmult (fst top) topk_signs in
  Ok (dict_set sparse_gradients name
        (PyDict [("values", PyTensor (mkTensor [length topk_values] topk_values));
                 ("indices", PyIndexTensor (snd top));
                 ("shape", PySize (shape grad))])).

(** [sparsify_gradients]. *)
Definition sparsify_gradients (gradients : GradientSet)
  (sparsity : spec_float) : result pyval :=
  sparse_gradients <- for_each gradients (sparsify_step sparsity) [] ;;
  Ok (PyDict sparse_gradients).

End Binary64.

(* ================================================================== *)
(** * Notions used in the statements *)
(* ================================================================== *)

(** The step of the quantizer for one tensor:
    [scale = (max - min) / (2 ** num_bits - 1)]. *)
Definition tensor_scale (num_bits : Z) (t : Tensor) : R :=
  match tensor_min t, tensor_max t with
  | Ok lo, Ok hi => (hi - lo) / (powerRZ 2 num_bits - 1)
  | _, _ => 0
  end.

(** What [dequantize_gradients] rebuilds from the stored bytes [q] of a
    tensor of shape [s]: [q.float() * scale + zero_point]. *)
Definition dequantized (s : list nat) (q : list Z) (scale zero_point : R)
  : Tensor :=
  tensor_map (fun y => y + zero_point)
    (tensor_map (fun y => y * scale) (mkTensor s (map IZR q))).

(** The three things [quantize_gradients] stores for one tensor. *)
Definition stored_zero_point (t : Tensor) : R :=
  match tensor_min t with Ok lo => lo | Raise _ => 0 end.

Definition stored_scale (num_bits : Z) (t : Tensor) : R :=
  if Rlt_dec 0 (tensor_scale num_bits t) then tensor_scale num_bits t else 0.

Definition stored_bytes (num_bits : Z) (t : Tensor) : list Z :=
  if Rlt_dec 0 (tensor_scale num_bits t)
  then map to_uint8
           (quantize_levels num_bits (tensor_scale num_bits t)
                            (stored_zero_point t) t)
  else map (fun _ => 0%Z) (data t).

Definition stored_tensor (num_bits : Z) (t : Tensor) : pyval :=
  PyByteTensor (mkByteTensor (shape t) (stored_bytes num_bits t)).

Definition stored_params (num_bits : Z) (t : Tensor) : pyval :=
  PyDict [("scale", PyFloat (stored_scale num_bits t));
          ("zero_point", PyFloat (stored_zero_point t))].

Definition restored (num_bits : Z) (t : Tensor) : Tensor :=
  dequantized (shape t) (stored_bytes num_bits t)
              (stored_scale num_bits t) (stored_zero_point t).

(** A tensor with the two elements [0] and [1]. *)
Definition unit_ramp : Tensor := mkTensor [2%nat] [0; 1].

(** The number of elements of all the tensors of a set. *)
Definition total_numel (g : GradientSet) : nat :=
  fold_left Nat.add (map numel (dict_values g)) 0%nat.

(** A tensor with two different elements. *)
Definition non_constant (t : Tensor) : Prop :=
  exists x y, In x (data t) /\ In y (data t) /\ x <> y.

(** Quantizing [g] with eight bits is estimated to shrink it. *)
Definition ratio_above_one (g : GradientSet) : Prop :=
  exists payload r,
    quantize_gradients g 8 = Ok payload /\
    estimate_compression_ratio g payload = Ok r /\ 1 < r.

(** The pairs [(magnitude, offset)] that [sparsify_gradients] selects in
    the tensor [t]. *)
Definition kept (sparsity : R) (t : Tensor) : list (R * nat) :=
  firstn (Z.to_nat (sparsify_k (numel t) sparsity))
         (sort_desc (combine (map Rabs (data t)) (seq 0 (numel t)))).

(** The record [sparsify_gradients] stores for the tensor [t]: the signed
    values at the selected offsets, the offsets, and the shape. *)
Definition sparse_record (sparsity : R) (t : Tensor) : pyval :=
  PyDict [("values",
           PyTensor (mkTensor [length (kept sparsity t)]
                              (map (fun p => nth (snd p) (data t) 0)
                                   (kept sparsity t))));
          ("indices", PyIndexTensor (map snd (kept sparsity t)));
          ("shape", PySize (shape t))].

(** [sparsify_gradients] succeeds on [g] and keeps [count n sparsity]
    values and as many offsets for each tensor of [n] elements. *)
Definition keeps_per_tensor (count : nat -> R -> nat) (g : GradientSet)
  (sparsity : R) : Prop :=
  exists sp,
    sparsify_gradients g sparsity = Ok (PyDict sp) /\
    forall name t, In (name, t) g ->
      exists vals idxs,
        dict_get sp name =
          Some (PyDict [("values", PyTensor (mkTensor [length vals] vals));
                        ("indices", PyIndexTensor idxs);
                        ("shape", PySize (shape t))]) /\
        length vals = count (numel t) sparsity /\
        length idxs = count (numel t) sparsity.

(** In the words of the specification:
    [k = max(1, round(n * (1 - sparsity)))]. *)
Definition k_rounded (n : nat) (sparsity : R) : nat :=
  Z.to_nat (Z.max 1 (round_half_even (INR n * (1 - sparsity)))).

(** The count over exact real numbers:
    [k = max(1, floor(n * (1 - sparsity)))]. *)
Definition k_truncated (n : nat) (sparsity : R) : nat :=
  Z.to_nat (Z.max 1 (Rfloor (INR n * (1 - sparsity)))).

(** A tensor with the three elements [3], [1] and [2]. *)
Definition three_values : Tensor := mkTensor [3%nat] [3; 1; 2].

(** In the words of the specification: the envelope that
    [compress_gradients] returns carries the method tag, and
    [decompress_gradients] gives [expected] back from it. *)
Definition self_describing (g : GradientSet) (method : string) (kw : kwargs)
  (expected : pyval) : Prop :=
  exists envelope,
    compress_gradients g method kw = Ok envelope /\
    py_getitem envelope "method" = Ok (PyStr method) /\
    decompress_gradients envelope = Ok expected.

(** The bit width [compress_gradients] passes to the quantizer. *)
Definition requested_bits (kw : kwargs) : Z :=
  match kw_num_bits kw with Some b => b | None => 8%Z end.





(** A tensor with the single element [1]. *)
Definition one_value : Tensor := mkTensor [1%nat] [1].

(** The tensors of the scenarios of the specification. *)
Definition ramp4 : Tensor := mkTensor [4%nat] [-1; 0; 1; 2].
Definition mixed5 : Tensor := mkTensor [5%nat] [5; -3; 1; 0; 2].
Definition six_eight : Tensor := mkTensor [2%nat] [6; 8].

(** Every element of every tensor of a set, in order. *)
Definition all_elements (g : GradientSet) : list R :=
  concat (map data (dict_values g)).

(** Every tensor of [g] with all its elements multiplied by [c]. *)
Definition scaled (c : R) (g : GradientSet) : GradientSet :=
  map (fun it => (fst it, tensor_map (fun x => x * c) (snd it))) g.

(** The names of a set, in order, each with the shape and the element
    count of its tensor. *)
Definition layout (g : GradientSet) : list (string * (list nat * nat)) :=
  map (fun it => (fst it, (shape (snd it), length (data (snd it))))) g.

(** The element at offset [j] of the tensor called [name]; [0] when there
    is no such tensor or no such offset. *)
Definition element (g : GradientSet) (name : string) (j : nat) : R :=
  match dict_get g name with
  | Some t => nth j (data t) 0
  | None => 0
  end.

(** Two sets added tensor by tensor, element by element. *)
Definition add_sets (acc g : GradientSet) : GradientSet :=
  zip_with (fun a b =>
              (fst a, mkTensor (shape (snd a))
                               (zip_with Rplus (data (snd a)) (data (snd b)))))
           acc g.


(** Magnitudes in non-increasing order. *)
Definition magnitudes_descend (l : list R) : Prop :=
  StronglySorted (fun x y => Rabs y <= Rabs x) l.

(** The number of elements [sparsify_gradients] keeps over a whole set,
    over exact real numbers. *)
Definition total_kept (g : GradientSet) (sparsity : R) : nat :=
  fold_left Nat.add
            (map (fun t => k_truncated (numel t) sparsity) (dict_values g)) 0%nat.

(** What [extract_gradients] stores for one parameter: its gradient, or
    zeros of the shape of its value when it has none. *)
Definition extracted (p : Param) : Tensor :=
  match param_grad p with
  | Some gr => gr
  | None => zeros_like (param_value p)
  end.

Definition has_grad (item : string * Param) : bool :=
  match param_grad (snd item) with Some _ => true | None => false end.

(** The tensor [t] with the samples number [first], [first + 1], ... of
    the generator, multiplied by [noise_scale], added to its elements. *)
Definition noisy_tensor (noise_scale : R) (samples : nat -> R) (first : nat)
  (t : Tensor) : Tensor :=
  mkTensor (shape t)
           (zip_with Rplus (data t)
                     (map (fun x => x * noise_scale)
                          (map (fun i => samples (first + i)%nat)
                               (seq 0 (numel t))))).

(** The tensors of a set, each with its own stretch of samples. *)
Fixpoint noisy_items (noise_scale : R) (samples : nat -> R) (first : nat)
  (g : GradientSet) : GradientSet :=
  match g with
  | [] => []
  | (name, t) :: rest =>
      (name, noisy_tensor noise_scale samples first t)
      :: noisy_items noise_scale samples (first + numel t) rest
  end.

(** The [k] pairs [(magnitude, offset)] of largest magnitude in the
    tensor [t]. *)
Definition top_pairs (k : Z) (t : Tensor) : list (R * nat) :=
  firstn (Z.to_nat k)
         (sort_desc (combine (map Rabs (data t)) (seq 0 (numel t)))).

(** The record stored for the tensor [t] when [k] elements are kept. *)
Definition top_record (k : Z) (t : Tensor) : pyval :=
  PyDict [("values",
           PyTensor (mkTensor [length (top_pairs k t)]
                              (map (fun p => nth (snd p) (data t) 0)
                                   (top_pairs k t))));
          ("indices", PyIndexTensor (map snd (top_pairs k t)));
          ("shape", PySize (shape t))].

(** The count that Python computes for [n] elements exists and
    [torch.topk] accepts it: it lies between [0] and [n]. *)
Definition count_fits (n : nat) (sparsity : spec_float) : bool :=
  match Binary64.sparsify_k n sparsity with
  | Ok k => (0 <=? k)%Z && (k <=? Z.of_nat n)%Z
  | Raise _ => false
  end.

Definition counts_fit (g : GradientSet) (sparsity : spec_float) : bool :=
  forallb (fun it => count_fits (numel (snd it)) sparsity) g.

(** A tensor with the ten elements [1] to [10]. *)
Definition ten_values : Tensor :=
  mkTensor [10%nat] [1; 2; 3; 4; 5; 6; 7; 8; 9; 10].

(** The number of values a sparse payload holds, over all its records. *)
Definition stored_values (payload : pyval) : nat :=
  match payload with
  | PyDict sp =>
      fold_left Nat.add
                (map (fun record =>
                        match py_getitem record "values" with
                        | Ok (PyTensor v) => numel v
                        | _ => 0%nat
                        end)
                     (dict_values sp)) 0%nat
  | _ => 0%nat
  end.

(** A tensor without dimensions: the scalar [x]. *)
Definition scalar_tensor (x : R) : Tensor := mkTensor [] [x].

(** The bytes that the machine stores for the tensor with the elements
    [0.0] and [1.0]. *)
Definition machine_bytes
  (store : spec_float -> spec_float -> spec_float -> spec_float -> Z)
  (num_bits : Z)
  : list (list Z) :=
  match Binary32.quantize_gradients store Binary32.unit_ramp num_bits with
  | Ok (quantized, _) => map bdata (dict_values quantized)
  | Raise _ => []
  end.






(** The number [m * 2^e]. *)
Definition F2R (m e : Z) : R := IZR m * powerRZ 2 e.

(** What a rounded result may be when the number rounded is positive and
    at most the integer [N]: [+0], or a positive number that is at most
    [N]. *)
Definition at_most (x : spec_float) (N : Z) : Prop :=
  match x with
  | S754_zero false => True
  | S754_finite false m e => F2R (Zpos m) e <= IZR N
  | _ => False
  end.

(** A binary64 sparsity in [[0, 1)]: a zero, or a positive number
    [m * 2^e] with a negative [e] and [m < 2^-e]. *)
Definition below_one (sparsity : spec_float) : bool :=
  match sparsity with
  | S754_zero _ => true
  | S754_finite false m e => (e <? 0)%Z && (Zpos m <? 2 ^ (- e))%Z
  | _ => false
  end.

(** Decision procedure for the data-model invariants. *)
Definition wf_tensorb (t : Tensor) : bool :=
  match shape t with [] => false | _ :: _ => true end &&
  forallb (fun d => (0 <? d)%nat) (shape t) &&
  (length (data t) =? shape_numel (shape t))%nat.

Fixpoint nodupb (l : list string) : bool :=
  match l with
  | [] => true
  | k :: rest => negb (existsb (String.eqb k) rest) && nodupb rest
  end.

Definition wf_gradientsb (g : GradientSet) : bool :=
  nodupb (dict_keys g) && forallb wf_tensorb (dict_values g).

(* ================================================================== *)
(** * Lemmas on numbers *)
(* ================================================================== *)

Lemma Rfloor_spec (x : R) : IZR (Rfloor x) <= x < IZR (Rfloor x) + 1.
Proof.
  unfold Rfloor. rewrite minus_IZR.
  destruct (archimed x) as [Hgt Hle]. lra.
Qed.

Lemma Rfloor_unique (x : R) (z : Z) : IZR z <= x < IZR z + 1 -> Rfloor x = z.
Proof.
  intros [Hlo Hhi].
  destruct (Rfloor_spec x) as [Flo Fhi].
  assert (H1 : (Rfloor x < z + 1)%Z).
  { apply lt_IZR. rewrite plus_IZR. lra. }
  assert (H2 : (z < Rfloor x + 1)%Z).
  { apply lt_IZR. rewrite plus_IZR. lra. }
  lia.
Qed.

Lemma Rfloor_IZR (z : Z) : Rfloor (IZR z) = z.
Proof. apply Rfloor_unique. lra. Qed.

Lemma py_int_IZR (z : Z) : py_int (IZR z) = z.
Proof.
  unfold py_int. destruct (Rle_dec 0 (IZR z)).
  - apply Rfloor_IZR.
  - rewrite <- opp_IZR, Rfloor_IZR. lia.
Qed.

Lemma py_int_floor (x : R) : 0 <= x -> py_int x = Rfloor x.
Proof.
  intros Hx. unfold py_int. destruct (Rle_dec 0 x); [reflexivity | contradiction].
Qed.

Lemma round_half_even_error (x : R) : Rabs (IZR (round_half_even x) - x) <= 1 / 2.
Proof.
  unfold round_half_even.
  destruct (Rfloor_spec x) as [Flo Fhi].
  destruct (Rlt_dec (x - IZR (Rfloor x)) (1 / 2)) as [Hd | Hd].
  - apply Rabs_le. lra.
  - assert (Hup : Rabs (IZR (Rfloor x + 1) - x) <= 1 / 2).
    { rewrite plus_IZR. apply Rabs_le. lra. }
    destruct (Rlt_dec (1 / 2) (x - IZR (Rfloor x))) as [Hd' | Hd'].
    + exact Hup.
    + destruct (Z.even (Rfloor x)); [apply Rabs_le; lra | exact Hup].
Qed.

Lemma round_half_even_range (x : R) (m : Z) :
  0 <= x <= IZR m -> (0 <= round_half_even x <= m)%Z.
Proof.
  intros [Hlo Hhi].
  destruct (Rfloor_spec x) as [Flo Fhi].
  assert (F0 : (0 <= Rfloor x)%Z).
  { assert (H : (-1 < Rfloor x)%Z) by (apply lt_IZR; lra). lia. }
  assert (Fm : (Rfloor x <= m)%Z) by (apply le_IZR; lra).
  assert (Fstep : 1 / 2 <= x - IZR (Rfloor x) -> (Rfloor x + 1 <= m)%Z).
  { intros Hd.
    assert (H : (Rfloor x < m)%Z) by (apply lt_IZR; lra). lia. }
  unfold round_half_even.
  destruct (Rlt_dec (x - IZR (Rfloor x)) (1 / 2)) as [Hd | Hd]; [lia |].
  assert (Hge : 1 / 2 <= x - IZR (Rfloor x)) by lra.
  specialize (Fstep Hge).
  destruct (Rlt_dec (1 / 2) (x - IZR (Rfloor x))); [lia |].
  destruct (Z.even (Rfloor x)); lia.
Qed.

Lemma sign_abs (x : R) : Rabs x * sign x = x.
Proof.
  unfold sign.
  destruct (Rlt_dec 0 x) as [Hp | Hp].
  - rewrite Rabs_right by lra. lra.
  - destruct (Rlt_dec x 0) as [Hn | Hn].
    + rewrite Rabs_left by lra. lra.
    + assert (x = 0) by lra. subst x. rewrite Rabs_R0. lra.
Qed.

Lemma fold_Rmin_le (l : list R) (a : R) :
  fold_left Rmin l a <= a /\ Forall (fun x => fold_left Rmin l a <= x) l.
Proof.
  revert a. induction l as [| y l IH]; intros a; simpl.
  - split; [lra | constructor].
  - destruct (IH (Rmin a y)) as [H1 H2]. split.
    + pose proof (Rmin_l a y). lra.
    + constructor; [pose proof (Rmin_r a y); lra | exact H2].
Qed.

Lemma fold_Rmax_ge (l : list R) (a : R) :
  a <= fold_left Rmax l a /\ Forall (fun x => x <= fold_left Rmax l a) l.
Proof.
  revert a. induction l as [| y l IH]; intros a; simpl.
  - split; [lra | constructor].
  - destruct (IH (Rmax a y)) as [H1 H2]. split.
    + pose proof (Rmax_l a y). lra.
    + constructor; [pose proof (Rmax_r a y); lra | exact H2].
Qed.

(* ================================================================== *)
(** * Lemmas on dictionaries and loops *)
(* ================================================================== *)

Lemma dict_set_fresh {V : Type} (d : dict V) (k : string) (v : V) :
  ~ In k (dict_keys d) -> dict_set d k v = d ++ [(k, v)].
Proof.
  induction d as [| [k' v'] d IH]; simpl; intros Hk; [reflexivity |].
  destruct (String.eqb_spec k' k) as [E | E].
  - exfalso. apply Hk. now left.
  - rewrite IH; [reflexivity | tauto].
Qed.

Lemma dict_get_in {V : Type} (d : dict V) (k : string) (v : V) :
  NoDup (dict_keys d) -> In (k, v) d -> dict_get d k = Some v.
Proof.
  induction d as [| [k' v'] d IH]; simpl; intros Hnd Hin; [contradiction |].
  inversion Hnd as [| ? ? Hk' Hnd']; subst.
  destruct Hin as [Heq | Hin].
  - inversion Heq; subst. now rewrite String.eqb_refl.
  - destruct (String.eqb_spec k' k) as [E | E].
    + subst k'. exfalso. apply Hk'.
      change (In (fst (k, v)) (map fst d)). now apply in_map.
    + now apply IH.
Qed.

Lemma dict_get_some_in {V : Type} (d : dict V) (k : string) (v : V) :
  dict_get d k = Some v -> In (k, v) d.
Proof.
  induction d as [| [k' v'] d IH]; simpl; intros H; [discriminate |].
  destruct (String.eqb_spec k' k) as [E | E].
  - inversion H; subst. now left.
  - right. now apply IH.
Qed.





Lemma dict_get_some_keys {V : Type} (d : dict V) (k : string) (v : V) :
  dict_get d k = Some v -> In k (dict_keys d).
Proof.
  intros H. apply dict_get_some_in in H.
  change k with (fst (k, v)). now apply in_map.
Qed.

Lemma dict_get_map {A B : Type} (f : A -> B) (d : dict A) (k : string) :
  dict_get (map (fun it => (fst it, f (snd it))) d) k =
  option_map f (dict_get d k).
Proof.
  induction d as [| [k' v'] d IH]; simpl; [reflexivity |].
  destruct (String.eqb k' k); [reflexivity | exact IH].
Qed.

(** A loop that stores one entry per item, under the item's own key,
    builds the list of its entries when the keys are pairwise distinct. *)
Lemma for_each_dict_set {A V : Type}
  (body : dict V -> string * A -> result (dict V))
  (items : list (string * A)) (out : list (string * V)) (acc : dict V) :
  Forall2 (fun it o => fst o = fst it /\
             forall acc, body acc it = Ok (dict_set acc (fst it) (snd o)))
          items out ->
  NoDup (map fst items) ->
  (forall k, In k (map fst items) -> ~ In k (dict_keys acc)) ->
  for_each items body acc = Ok (acc ++ out).
Proof.
  intros HF. revert acc.
  induction HF as [| it o items out [Hk Hb] HF IH]; intros acc Hnd Hdis; simpl.
  - now rewrite app_nil_r.
  - inversion Hnd as [| ? ? Hnotin Hnd']; subst.
    rewrite Hb. simpl.
    rewrite dict_set_fresh by (apply Hdis; now left).
    rewrite IH; trivial.
    + rewrite <- app_assoc. simpl. destruct o; simpl in *; now subst.
    + intros k Hin. unfold dict_keys. rewrite map_app, in_app_iff. simpl.
      intros [H | [H | []]].
      * apply (Hdis k); [now right | exact H].
      * subst k. contradiction.
Qed.

(** The same for a loop that fills two dictionaries at once. *)
Lemma for_each_dict_set2 {A V W : Type}
  (body : dict V * dict W -> string * A -> result (dict V * dict W))
  (items : list (string * A)) (out : list (string * (V * W)))
  (acc : dict V * dict W) :
  Forall2 (fun it o => fst o = fst it /\
             forall acc, body acc it =
                         Ok (dict_set (fst acc) (fst it) (fst (snd o)),
                             dict_set (snd acc) (fst it) (snd (snd o))))
          items out ->
  NoDup (map fst items) ->
  (forall k, In k (map fst items) ->
             ~ In k (dict_keys (fst acc)) /\ ~ In k (dict_keys (snd acc))) ->
  for_each items body acc =
  Ok (fst acc ++ map (fun o => (fst o, fst (snd o))) out,
      snd acc ++ map (fun o => (fst o, snd (snd o))) out).
Proof.
  intros HF. revert acc.
  induction HF as [| it o items out [Hk Hb] HF IH]; intros acc Hnd Hdis; simpl.
  - rewrite !app_nil_r. now destruct acc.
  - inversion Hnd as [| ? ? Hnotin Hnd']; subst.
    rewrite Hb. simpl.
    destruct (Hdis (fst it)) as [D1 D2]; [now left |].
    rewrite !dict_set_fresh by assumption.
    rewrite IH; trivial.
    + simpl. rewrite <- !app_assoc. simpl. now rewrite Hk.
    + intros k Hin. simpl. unfold dict_keys. rewrite !map_app, !in_app_iff. simpl.
      destruct (Hdis k) as [E1 E2]; [now right |].
      split; intros [H | [H | []]]; try contradiction; subst k; contradiction.
Qed.

(** A pure loop of the same kind. *)
Lemma fold_left_dict_set {A V : Type} (f : string * A -> V)
  (items : list (string * A)) (acc : dict V) :
  NoDup (map fst items) ->
  (forall k, In k (map fst items) -> ~ In k (dict_keys acc)) ->
  fold_left (fun acc it => dict_set acc (fst it) (f it)) items acc =
  acc ++ map (fun it => (fst it, f it)) items.
Proof.
  revert acc. induction items as [| it items IH]; intros acc Hnd Hdis; simpl.
  - now rewrite app_nil_r.
  - inversion Hnd as [| ? ? Hnotin Hnd']; subst.
    rewrite dict_set_fresh by (apply Hdis; now left).
    rewrite IH; trivial.
    + now rewrite <- app_assoc.
    + intros k Hin. unfold dict_keys. rewrite map_app, in_app_iff. simpl.
      intros [H | [H | []]].
      * apply (Hdis k); [now right | exact H].
      * subst k. contradiction.
Qed.

(* ================================================================== *)
(** * The quantizer *)
(* ================================================================== *)

Lemma nodupb_sound (l : list string) : nodupb l = true -> NoDup l.
Proof.
  induction l as [| k l IH]; simpl; intros H; constructor.
  - apply andb_prop in H. destruct H as [H _].
    intros Hin. apply negb_true_iff in H.
    assert (E : existsb (String.eqb k) l = true).
    { apply existsb_exists. exists k. split; [exact Hin | apply String.eqb_refl]. }
    congruence.
  - apply IH. apply andb_prop in H. tauto.
Qed.

Lemma wf_tensorb_sound (t : Tensor) : wf_tensorb t = true -> wf_tensor t.
Proof.
  unfold wf_tensorb, wf_tensor. intros H.
  apply andb_prop in H. destruct H as [H H3].
  apply andb_prop in H. destruct H as [H1 H2].
  repeat split.
  - destruct (shape t); [discriminate | discriminate].
  - apply Forall_forall. intros d Hd.
    rewrite forallb_forall in H2. specialize (H2 d Hd).
    now apply Nat.ltb_lt in H2.
  - now apply Nat.eqb_eq.
Qed.

Lemma wf_gradientsb_sound (g : GradientSet) :
  wf_gradientsb g = true -> wf_gradients g.
Proof.
  unfold wf_gradientsb, wf_gradients. intros H.
  apply andb_prop in H. destruct H as [H1 H2]. split.
  - now apply nodupb_sound.
  - apply Forall_forall. intros t Ht.
    rewrite forallb_forall in H2. now apply wf_tensorb_sound, H2.
Qed.

Lemma powerRZ_2_nonneg (b : Z) : (0 <= b)%Z -> powerRZ 2 b = IZR (2 ^ b).
Proof.
  intros Hb. destruct b as [| p | p]; simpl.
  - reflexivity.
  - rewrite pow_IZR. now rewrite positive_nat_Z.
  - lia.
Qed.

Lemma levels_bound (b : Z) : (1 <= b <= 8)%Z -> (1 <= 2 ^ b - 1 <= 255)%Z.
Proof.
  intros [H1 H8].
  assert (H : (2 ^ 1 <= 2 ^ b <= 2 ^ 8)%Z)
    by (split; apply Z.pow_le_mono_r; lia).
  change (2 ^ 1)%Z with 2%Z in H. change (2 ^ 8)%Z with 256%Z in H. lia.
Qed.

Lemma wf_tensor_data (t : Tensor) : wf_tensor t -> data t <> [].
Proof.
  intros (Hs & Hpos & Hlen) Hd. rewrite Hd in Hlen. simpl in Hlen.
  assert (Hn : (0 < shape_numel (shape t))%nat).
  { clear Hs Hlen. induction Hpos as [| d s Hd0 _ IH]; simpl; [lia | nia]. }
  lia.
Qed.

Lemma tensor_min_max (t : Tensor) :
  data t <> [] ->
  exists lo hi, tensor_min t = Ok lo /\ tensor_max t = Ok hi /\ lo <= hi /\
                Forall (fun x => lo <= x <= hi) (data t).
Proof.
  unfold tensor_min, tensor_max. destruct (data t) as [| x xs]; [congruence |].
  intros _. exists (fold_left Rmin xs x), (fold_left Rmax xs x).
  destruct (fold_Rmin_le xs x) as [L1 L2], (fold_Rmax_ge xs x) as [U1 U2].
  repeat split; trivial; [lra |].
  constructor; [lra |].
  rewrite Forall_forall in *. intros y Hy. split; [now apply L2 | now apply U2].
Qed.

(** One element through the quantizer and back, for a positive scale and
    at most eight bits. *)
Lemma quantize_element (m : Z) (lo hi x : R) :
  (1 <= m <= 255)%Z -> lo <= x <= hi -> 0 < (hi - lo) / IZR m ->
  let scale := (hi - lo) / IZR m in
  let level := clamp 0 (IZR m) (IZR (round_half_even ((x - lo) / scale))) in
  level = IZR (round_half_even ((x - lo) / scale)) /\
  to_uint8 level = round_half_even ((x - lo) / scale) /\
  Rabs (IZR (to_uint8 level) * scale + lo - x) <= scale / 2.
Proof.
  intros Hm Hx Hs scale level.
  assert (Hm' : 1 <= IZR m) by (apply IZR_le; lia).
  assert (Hsm : scale * IZR m = hi - lo) by (unfold scale; field; lra).
  change (0 < scale) in Hs. clearbody scale.
  set (y := (x - lo) / scale).
  assert (Hy : y * scale = x - lo) by (unfold y; field; lra).
  assert (Hy0 : 0 <= y).
  { unfold y. apply Rmult_le_pos; [lra |].
    apply Rlt_le, Rinv_0_lt_compat. exact Hs. }
  assert (HyM : y <= IZR m) by nra.
  destruct (round_half_even_range y m (conj Hy0 HyM)) as [R0 RM].
  assert (R0' : 0 <= IZR (round_half_even y)) by (apply IZR_le; lia).
  assert (RM' : IZR (round_half_even y) <= IZR m) by (apply IZR_le; lia).
  assert (Hlevel : level = IZR (round_half_even y)).
  { unfold level, clamp. fold y. rewrite Rmax_left by lra. now rewrite Rmin_left by lra. }
  assert (Hbyte : to_uint8 level = round_half_even y).
  { rewrite Hlevel. unfold to_uint8. rewrite py_int_IZR.
    apply Z.mod_small. lia. }
  repeat split; trivial.
  rewrite Hbyte.
  pose proof (round_half_even_error y) as He.
  replace (IZR (round_half_even y) * scale + lo - x)
    with (scale * (IZR (round_half_even y) - y)) by nra.
  rewrite Rabs_mult, (Rabs_right scale) by lra.
  nra.
Qed.

Lemma Forall2_map_same {A B C : Type} (P : B -> C -> Prop)
  (f : A -> B) (h : A -> C) (l : list A) :
  (forall a, In a l -> P (f a) (h a)) -> Forall2 P (map f l) (map h l).
Proof.
  induction l as [| a l IH]; simpl; intros H; constructor.
  - apply H. now left.
  - apply IH. intros a' Ha'. apply H. now right.
Qed.

Lemma map_fst_pair {A B : Type} (f : string * A -> B) (l : list (string * A)) :
  map fst (map (fun it => (fst it, f it)) l) = map fst l.
Proof. rewrite map_map. now apply map_ext. Qed.

Lemma map_snd_pair {A B : Type} (f : string * A -> B) (l : list (string * A)) :
  map snd (map (fun it => (fst it, f it)) l) = map f l.
Proof. rewrite map_map. now apply map_ext. Qed.

Lemma quantize_step_eq (num_bits : Z) (acc : dict pyval * dict pyval)
  (name : string) (t : Tensor) :
  data t <> [] -> powerRZ 2 num_bits - 1 <> 0 ->
  quantize_step num_bits acc (name, t) =
  Ok (dict_set (fst acc) name (stored_tensor num_bits t),
      dict_set (snd acc) name (stored_params num_bits t)).
Proof.
  intros Hd Hden.
  destruct (tensor_min_max t Hd) as (lo & hi & Hmin & Hmax & _ & _).
  unfold quantize_step, stored_tensor, stored_params, stored_bytes,
    stored_scale, stored_zero_point, tensor_scale.
  simpl fst. simpl snd. rewrite Hmin, Hmax. simpl.
  unfold py_div. destruct (Req_dec_T (powerRZ 2 num_bits - 1) 0); [contradiction |].
  simpl. destruct (Rlt_dec 0 ((hi - lo) / (powerRZ 2 num_bits - 1))); reflexivity.
Qed.

Lemma quantize_gradients_eq (g : GradientSet) (num_bits : Z) :
  wf_gradients g -> powerRZ 2 num_bits - 1 <> 0 ->
  quantize_gradients g num_bits =
  Ok (PyDict
        [("gradients",
          PyDict (map (fun it => (fst it, stored_tensor num_bits (snd it))) g));
         ("params",
          PyDict (map (fun it => (fst it, stored_params num_bits (snd it))) g))]).
Proof.
  intros [Hnd Hwf] Hden. unfold quantize_gradients.
  rewrite (for_each_dict_set2 (quantize_step num_bits) g
             (map (fun it => (fst it, (stored_tensor num_bits (snd it),
                                       stored_params num_bits (snd it)))) g)).
  - simpl. now rewrite !map_map.
  - rewrite <- (map_id g) at 1. apply Forall2_map_same.
    intros [name t] Hin. split; [reflexivity |]. intros acc. simpl.
    apply quantize_step_eq; trivial.
    apply wf_tensor_data. rewrite Forall_forall in Hwf. apply Hwf.
    change t with (snd (name, t)). now apply in_map.
  - exact Hnd.
  - simpl. tauto.
Qed.

Lemma dequantize_step_eq (params : dict pyval) (acc : GradientSet)
  (name : string) (sh : list nat) (q : list Z) (s z : R) :
  dict_get params name =
    Some (PyDict [("scale", PyFloat s); ("zero_point", PyFloat z)]) ->
  dequantize_step (PyDict params) acc
                  (name, PyByteTensor (mkByteTensor sh q)) =
  Ok (dict_set acc name (dequantized sh q s z)).
Proof.
  intros Hp. unfold dequantize_step. simpl. rewrite Hp. reflexivity.
Qed.

(** Quantizing and dequantizing a GradientSet restores every tensor from
    its stored bytes, scale and zero point. *)
Lemma dequantize_quantize_eq (g : GradientSet) (num_bits : Z) :
  wf_gradients g -> powerRZ 2 num_bits - 1 <> 0 ->
  exists payload,
    quantize_gradients g num_bits = Ok payload /\
    dequantize_gradients payload =
    Ok (map (fun it => (fst it, restored num_bits (snd it))) g).
Proof.
  intros Hwf Hden. eexists. split; [now apply quantize_gradients_eq |].
  destruct Hwf as [Hnd Hwf].
  unfold dequantize_gradients. simpl.
  rewrite (for_each_dict_set _ _
             (map (fun it => (fst it, restored num_bits (snd it))) g)).
  - reflexivity.
  - apply Forall2_map_same. intros [name t] Hin.
    split; [reflexivity |]. intros acc. simpl.
    apply dequantize_step_eq. apply dict_get_in.
    + unfold dict_keys. now rewrite map_fst_pair.
    + apply (in_map (fun it => (fst it, stored_params num_bits (snd it))) g _ Hin).
  - now rewrite map_fst_pair.
  - simpl. tauto.
Qed.

Lemma restored_data (num_bits : Z) (t : Tensor) :
  data (restored num_bits t) =
  map (fun q => IZR q * stored_scale num_bits t + stored_zero_point t)
      (stored_bytes num_bits t).
Proof.
  unfold restored, dequantized, tensor_map. simpl. now rewrite !map_map.
Qed.

(** One tensor through the quantizer and back, at most eight bits. *)
Lemma restored_close (b : Z) (t : Tensor) :
  data t <> [] -> (1 <= b <= 8)%Z ->
  shape (restored b t) = shape t /\
  Forall2 (fun x x' => Rabs (x' - x) <= tensor_scale b t / 2)
          (data t) (data (restored b t)) /\
  (tensor_scale b t = 0 -> restored b t = t).
Proof.
  intros Hd Hb. split; [reflexivity |].
  destruct (tensor_min_max t Hd) as (lo & hi & Hmin & Hmax & Hle & Hall).
  pose proof (levels_bound b Hb) as Hm.
  assert (Hpow : powerRZ 2 b - 1 = IZR (2 ^ b - 1)).
  { rewrite powerRZ_2_nonneg by lia. now rewrite minus_IZR. }
  assert (Hm' : 1 <= IZR (2 ^ b - 1)) by (apply IZR_le; lia).
  assert (Hscale : tensor_scale b t = (hi - lo) / IZR (2 ^ b - 1)).
  { unfold tensor_scale. now rewrite Hmin, Hmax, Hpow. }
  assert (Hzero : stored_zero_point t = lo).
  { unfold stored_zero_point. now rewrite Hmin. }
  rewrite restored_data. unfold stored_bytes, stored_scale.
  destruct (Rlt_dec 0 (tensor_scale b t)) as [Hpos | Hnpos].
  - split; [| intros E; rewrite E in Hpos; lra].
    unfold quantize_levels. rewrite !map_map.
    rewrite <- (map_id (data t)) at 1. apply Forall2_map_same.
    intros x Hx. rewrite Forall_forall in Hall. specialize (Hall x Hx).
    rewrite Hzero, Hpow, Hscale. rewrite Hscale in Hpos.
    now destruct (quantize_element (2 ^ b - 1) lo hi x Hm Hall Hpos) as (_ & _ & H).
  - assert (Hs0 : tensor_scale b t = 0).
    { rewrite Hscale in *.
      assert (0 <= (hi - lo) / IZR (2 ^ b - 1)).
      { apply Rmult_le_pos; [lra |]. apply Rlt_le, Rinv_0_lt_compat. lra. }
      lra. }
    assert (Heq : hi = lo).
    { rewrite Hscale in Hs0.
      assert (E : hi - lo = (hi - lo) / IZR (2 ^ b - 1) * IZR (2 ^ b - 1))
        by (field; lra).
      rewrite Hs0 in E. lra. }
    assert (Hconst : forall x, In x (data t) -> x = lo).
    { intros x Hx. rewrite Forall_forall in Hall. specialize (Hall x Hx). lra. }
    rewrite map_map, Hzero. split.
    + rewrite <- (map_id (data t)) at 1. apply Forall2_map_same.
      intros x Hx. rewrite (Hconst x Hx), Hs0. cbv beta.
      replace (0 * 0 + lo - lo) with 0 by ring. rewrite Rabs_R0. lra.
    + intros _. unfold restored, dequantized, tensor_map. simpl.
      unfold stored_bytes, stored_scale.
      destruct (Rlt_dec 0 (tensor_scale b t)); [contradiction |].
      rewrite Hzero, !map_map. destruct t as [sh dt]. simpl in *. f_equal.
      rewrite <- (map_id dt) at 2. apply map_ext_in. intros x Hx.
      rewrite (Hconst x Hx). ring.
Qed.

(** C3.  For a GradientSet of the data model and a bit width between 1 and
    8, quantizing and then dequantizing succeeds and gives a set with the
    same parameter names and the same shapes; every rebuilt element is
    within [scale / 2] (plus any tolerance [eps >= 0]) of the original,
    [scale] being the quantization step of its tensor, and a tensor whose
    step is zero (a constant tensor) is rebuilt exactly. *)
Theorem quantize_roundtrip_error (g : GradientSet) (b : Z) (eps : R) :
  wf_gradients g -> (1 <= b <= 8)%Z -> 0 <= eps ->
  exists payload g',
    quantize_gradients g b = Ok payload /\
    dequantize_gradients payload = Ok g' /\
    dict_keys g' = dict_keys g /\
    map shape (dict_values g') = map shape (dict_values g) /\
    Forall2 (fun t t' =>
               Forall2 (fun x x' => Rabs (x' - x) <= tensor_scale b t / 2 + eps)
                       (data t) (data t') /\
               (tensor_scale b t = 0 -> t' = t))
            (dict_values g) (dict_values g').
Proof.
  intros Hwf Hb Heps.
  assert (Hden : powerRZ 2 b - 1 <> 0).
  { rewrite powerRZ_2_nonneg by lia. rewrite <- minus_IZR.
    pose proof (levels_bound b Hb). apply not_0_IZR. lia. }
  destruct (dequantize_quantize_eq g b Hwf Hden) as (payload & Hq & Hdq).
  exists payload, (map (fun it => (fst it, restored b (snd it))) g).
  destruct Hwf as [Hnd Hwf]. rewrite Forall_forall in Hwf.
  unfold dict_keys, dict_values.
  rewrite map_fst_pair, map_snd_pair.
  repeat split; trivial.
  - rewrite !map_map. apply map_ext_in. intros [name t] Hin. simpl.
    reflexivity.
  - rewrite <- (map_map snd (restored b)).
    rewrite <- (map_id (map snd g)) at 1. apply Forall2_map_same.
    intros t Ht.
    destruct (restored_close b t (wf_tensor_data t (Hwf t Ht)) Hb)
      as (_ & Hclose & Hexact).
    split; [| exact Hexact].
    eapply Forall2_impl; [| exact Hclose]. simpl. intros x x' H. lra.
Qed.

Lemma IZR_max (a b : Z) : Rmax (IZR a) (IZR b) = IZR (Z.max a b).
Proof.
  destruct (Z.le_ge_cases a b) as [H | H].
  - rewrite Z.max_r by lia. apply Rmax_right. now apply IZR_le.
  - rewrite Z.max_l by lia. apply Rmax_left. apply IZR_le. lia.
Qed.

Lemma IZR_min (a b : Z) : Rmin (IZR a) (IZR b) = IZR (Z.min a b).
Proof.
  destruct (Z.le_ge_cases a b) as [H | H].
  - rewrite Z.min_l by lia. apply Rmin_left. now apply IZR_le.
  - rewrite Z.min_r by lia. apply Rmin_right. apply IZR_le. lia.
Qed.







(** Beyond 23 bits.  Up to 23 bits the element [1.0] of the tensor above
    has the level [2^bits - 1] and the byte [255]; at 24 bits its level is
    [2^24 - 2] when the scale is converted to binary32 first, and from
    25 bits on binary32 cannot hold [2^bits - 1]: the level is [2^bits] and
    the byte [0]. *)
Example machine_bytes_up_to_25_bits :
  map (machine_bytes Binary32.store_converted)
      [9; 10; 11; 12; 13; 14; 15; 16; 17; 18; 19; 20; 21; 22; 23]%Z =
    repeat [[0; 255]]%Z 15 /\
  map (machine_bytes Binary32.store_rounded_once)
      [9; 10; 11; 12; 13; 14; 15; 16; 17; 18; 19; 20; 21; 22; 23]%Z =
    repeat [[0; 255]]%Z 15 /\
  machine_bytes Binary32.store_converted 24 = [[0; 254]]%Z /\
  machine_bytes Binary32.store_converted 25 = [[0; 0]]%Z /\
  machine_bytes Binary32.store_rounded_once 25 = [[0; 0]]%Z.
Proof. vm_compute. repeat split; reflexivity. Qed.

(* ================================================================== *)
(** * The ratio estimator *)
(* ================================================================== *)

Lemma map_each_ok {A B C : Type} (f : B -> result C) (k : A -> B)
  (h : A -> C) (l : list A) :
  (forall x, In x l -> f (k x) = Ok (h x)) ->
  map_each f (map k l) = Ok (map h l).
Proof.
  induction l as [| x l IH]; simpl; intros H; [reflexivity |].
  rewrite H by now left. simpl. rewrite IH; [reflexivity |].
  intros y Hy. apply H. now right.
Qed.

Lemma fold_add_shift (l : list nat) (a : nat) :
  fold_left Nat.add l a = (a + fold_left Nat.add l 0)%nat.
Proof.
  revert a. induction l as [| x l IH]; intros a; simpl; [lia |].
  rewrite (IH (a + x)%nat), (IH x). lia.
Qed.

Lemma original_size_total (g : GradientSet) :
  original_size g = (total_numel g * 4)%nat.
Proof.
  unfold original_size, total_numel.
  induction (dict_values g) as [| t l IH]; simpl; [reflexivity |].
  rewrite (fold_add_shift _ (numel t * 4)), (fold_add_shift _ (numel t)). lia.
Qed.

Lemma stored_bytes_length (bits : Z) (t : Tensor) :
  length (stored_bytes bits t) = numel t.
Proof.
  unfold stored_bytes, quantize_levels, numel.
  destruct (Rlt_dec 0 (tensor_scale bits t)); now rewrite ?length_map.
Qed.

(** The estimate for a quantized payload: four bytes an element before,
    one byte an element and sixteen bytes a tensor after. *)
Lemma estimate_quantized (g : GradientSet) (bits : Z) :
  wf_gradients g -> powerRZ 2 bits - 1 <> 0 ->
  exists payload,
    quantize_gradients g bits = Ok payload /\
    estimate_compression_ratio g payload =
    Ok (if (0 <? total_numel g + length g * 16)%nat
        then INR (total_numel g * 4) / INR (total_numel g + length g * 16)
        else 1).
Proof.
  intros Hwf Hden. eexists. split; [now apply quantize_gradients_eq |].
  unfold estimate_compression_ratio. simpl.
  unfold dict_values. rewrite map_snd_pair.
  rewrite (map_each_ok py_numel _ (fun it => numel (snd it)))
    by (intros [name t] _; simpl; now rewrite stored_bytes_length).
  simpl. rewrite !length_map, original_size_total.
  replace (fold_left Nat.add (map (fun it => numel (snd it)) g) 0%nat)
    with (total_numel g)
    by (unfold total_numel, dict_values; now rewrite map_map).
  destruct (0 <? total_numel g + length g * 16)%nat; reflexivity.
Qed.

Lemma eight_bits_denominator : powerRZ 2 8 - 1 <> 0.
Proof. rewrite powerRZ_2_nonneg by lia. change (2 ^ 8)%Z with 256%Z. lra. Qed.

(** C7, as the code has it.  For a GradientSet of the data model with [P]
    tensors and [N] elements in all, quantizing with eight bits succeeds
    and the estimated ratio is above one exactly when [3 N > 16 P]: four
    bytes an element are compared with one byte an element plus sixteen
    bytes a tensor.  Whether a tensor is constant plays no part. *)
Theorem quantized_ratio_above_one_iff (g : GradientSet) :
  wf_gradients g ->
  exists payload r,
    quantize_gradients g 8 = Ok payload /\
    estimate_compression_ratio g payload = Ok r /\
    (1 < r <-> (16 * length g < 3 * total_numel g)%nat).
Proof.
  intros Hwf.
  destruct (estimate_quantized g 8 Hwf eight_bits_denominator)
    as (payload & Hq & He).
  exists payload. eexists. split; [exact Hq |]. split; [exact He |].
  destruct (Nat.ltb_spec 0 (total_numel g + length g * 16)) as [Hpos | Hzero].
  - assert (Hc : 0 < INR (total_numel g + length g * 16)) by (apply lt_0_INR; lia).
    split.
    + intros Hr.
      assert (Hlt : INR (total_numel g + length g * 16) < INR (total_numel g * 4)).
      { apply Rmult_lt_reg_r with (r := / INR (total_numel g + length g * 16)).
        - now apply Rinv_0_lt_compat.
        - rewrite Rinv_r by lra. exact Hr. }
      apply INR_lt in Hlt. lia.
    + intros Hn.
      assert (Hlt : INR (total_numel g + length g * 16) < INR (total_numel g * 4))
        by (apply lt_INR; lia).
      apply Rmult_lt_reg_r with (r := INR (total_numel g + length g * 16)); trivial.
      unfold Rdiv. rewrite Rmult_assoc, Rinv_l by lra. lra.
  - split; [lra | lia].
Qed.

(** C7, as the specification states it, fails: a set whose only tensor has
    the two elements [0] and [1] is not constant, and its estimate is
    [8 / 18]. *)
Lemma ratio_not_above_one_for_small_tensor :
  wf_gradients [("w", unit_ramp)] /\
  non_constant unit_ramp /\
  ~ ratio_above_one [("w", unit_ramp)].
Proof.
  assert (Hwf : wf_gradients [("w", unit_ramp)])
    by now apply wf_gradientsb_sound.
  split; [exact Hwf |]. split.
  - exists 0, 1. simpl. repeat split; try tauto. lra.
  - intros (payload & r & Hq & He & Hr).
    destruct (estimate_quantized _ 8 Hwf eight_bits_denominator)
      as (payload' & Hq' & He').
    rewrite Hq in Hq'. inversion Hq'; subst payload'.
    rewrite He in He'. inversion He' as [Er].
    lra.
Qed.

(* ================================================================== *)
(** * The sparsifier *)
(* ================================================================== *)

Lemma insert_desc_perm (p : R * nat) (l : list (R * nat)) :
  Permutation (insert_desc p l) (p :: l).
Proof.
  induction l as [| q l IH]; simpl; [reflexivity |].
  destruct (Rle_dec (fst q) (fst p)); [reflexivity |].
  rewrite IH. apply perm_swap.
Qed.

Lemma sort_desc_perm (l : list (R * nat)) : Permutation (sort_desc l) l.
Proof.
  induction l as [| p l IH]; simpl; [reflexivity |].
  rewrite insert_desc_perm. now constructor.
Qed.

Lemma sort_desc_length (l : list (R * nat)) : length (sort_desc l) = length l.
Proof. apply Permutation_length, sort_desc_perm. Qed.

(** Every pair of a tensor's magnitudes with their offsets names a valid
    offset and carries the magnitude found there. *)
Lemma combine_abs_seq (flat : list R) (p : R * nat) :
  In p (combine (map Rabs flat) (seq 0 (length flat))) ->
  (snd p < length flat)%nat /\ fst p = Rabs (nth (snd p) flat 0).
Proof.
  intros Hin.
  destruct (In_nth _ _ (Rabs 0, 0%nat) Hin) as (j & Hj & Hnth).
  rewrite length_combine, length_map, length_seq, Nat.min_id in Hj.
  rewrite combine_nth in Hnth by now rewrite length_map, length_seq.
  rewrite map_nth, seq_nth in Hnth by exact Hj.
  subst p. simpl. split; [exact Hj | reflexivity].
Qed.

Lemma in_firstn {A : Type} (n : nat) (l : list A) (x : A) :
  In x (firstn n l) -> In x l.
Proof.
  intros H. rewrite <- (firstn_skipn n l). apply in_or_app. now left.
Qed.

Lemma kept_valid (sparsity : R) (t : Tensor) (p : R * nat) :
  In p (kept sparsity t) ->
  (snd p < numel t)%nat /\ fst p = Rabs (nth (snd p) (data t) 0).
Proof.
  unfold kept. intros Hin. apply in_firstn in Hin.
  apply (Permutation_in _ (sort_desc_perm _)) in Hin.
  now apply combine_abs_seq.
Qed.

Lemma index_select_ok (flat : list R) (indices : list nat) :
  Forall (fun i => (i < length flat)%nat) indices ->
  index_select flat indices = Ok (map (fun i => nth i flat 0) indices).
Proof.
  unfold index_select. induction 1 as [| i l Hi _ IH]; simpl; [reflexivity |].
  rewrite (nth_error_nth' flat 0 Hi). simpl. now rewrite IH.
Qed.

Lemma zip_with_map {A B C D : Type} (f : B -> C -> D) (h : A -> B)
  (k : A -> C) (l : list A) :
  zip_with f (map h l) (map k l) = map (fun a => f (h a) (k a)) l.
Proof. induction l as [| a l IH]; simpl; [reflexivity | now rewrite IH]. Qed.

(** One pass of the loop of [sparsify_gradients] stores the record of its
    tensor, provided [k] is within the tensor. *)
Lemma sparsify_step_eq (sparsity : R) (acc : dict pyval) (name : string)
  (t : Tensor) :
  (0 <= sparsify_k (numel t) sparsity <= Z.of_nat (numel t))%Z ->
  sparsify_step sparsity acc (name, t) =
  Ok (dict_set acc name (sparse_record sparsity t)).
Proof.
  intros [Hk0 Hkn]. unfold sparsify_step, topk. simpl fst. simpl snd.
  rewrite length_map. fold (numel t).
  destruct (Z.ltb_spec (sparsify_k (numel t) sparsity) 0); [lia |].
  destruct (Z.ltb_spec (Z.of_nat (numel t)) (sparsify_k (numel t) sparsity));
    [lia |].
  simpl. fold (kept sparsity t).
  rewrite index_select_ok.
  - simpl. unfold sparse_record. do 4 f_equal.
    rewrite !map_map, zip_with_map.
    assert (E : map (fun a => fst a * sign (nth (snd a) (data t) 0)) (kept sparsity t)
                = map (fun p => nth (snd p) (data t) 0) (kept sparsity t)).
    { apply map_ext_in. intros p Hp.
      destruct (kept_valid _ _ _ Hp) as [_ ->]. apply sign_abs. }
    rewrite E. now rewrite length_map.
  - apply Forall_forall. intros i Hi. apply in_map_iff in Hi.
    destruct Hi as (p & <- & Hp). now destruct (kept_valid _ _ _ Hp).
Qed.

Lemma sparsify_k_range (n : nat) (sparsity : R) :
  (1 <= n)%nat -> 0 <= sparsity < 1 ->
  sparsify_k n sparsity = Z.max 1 (Rfloor (INR n * (1 - sparsity))) /\
  (1 <= sparsify_k n sparsity <= Z.of_nat n)%Z.
Proof.
  intros Hn [Hs0 Hs1]. unfold sparsify_k.
  assert (Hn' : 1 <= INR n) by (change 1 with (INR 1); now apply le_INR).
  set (x := INR n * (1 - sparsity)).
  assert (Hx0 : 0 <= x) by (unfold x; nra).
  assert (Hxn : x <= INR n) by (unfold x; nra).
  rewrite (py_int_floor x Hx0).
  destruct (Rfloor_spec x) as [Flo Fhi].
  assert (F0 : (0 <= Rfloor x)%Z).
  { assert (H : (-1 < Rfloor x)%Z) by (apply lt_IZR; lra). lia. }
  assert (Fn : (Rfloor x <= Z.of_nat n)%Z).
  { apply le_IZR. rewrite <- INR_IZR_INZ. lra. }
  destruct (Z.eqb_spec (Rfloor x) 0); lia.
Qed.

Lemma kept_length (sparsity : R) (t : Tensor) :
  (0 <= sparsify_k (numel t) sparsity <= Z.of_nat (numel t))%Z ->
  length (kept sparsity t) = Z.to_nat (sparsify_k (numel t) sparsity).
Proof.
  intros Hk. unfold kept.
  rewrite length_firstn, sort_desc_length, length_combine, length_map, length_seq.
  fold (numel t). lia.
Qed.

Lemma wf_tensor_numel (t : Tensor) : wf_tensor t -> (1 <= numel t)%nat.
Proof.
  intros Hwf. pose proof (wf_tensor_data t Hwf) as Hd.
  unfold numel. destruct (data t); [congruence | simpl; lia].
Qed.

Lemma wf_gradients_in (g : GradientSet) (name : string) (t : Tensor) :
  wf_gradients g -> In (name, t) g -> wf_tensor t.
Proof.
  intros [_ Hwf] Hin. rewrite Forall_forall in Hwf. apply Hwf.
  change t with (snd (name, t)). now apply in_map.
Qed.

Lemma sparsify_gradients_eq (g : GradientSet) (sparsity : R) :
  wf_gradients g -> 0 <= sparsity < 1 ->
  sparsify_gradients g sparsity =
  Ok (PyDict (map (fun it => (fst it, sparse_record sparsity (snd it))) g)).
Proof.
  intros Hwf Hs. unfold sparsify_gradients.
  rewrite (for_each_dict_set (sparsify_step sparsity) g
             (map (fun it => (fst it, sparse_record sparsity (snd it))) g)).
  - reflexivity.
  - rewrite <- (map_id g) at 1. apply Forall2_map_same.
    intros [name t] Hin. split; [reflexivity |]. intros acc. simpl.
    apply sparsify_step_eq.
    pose proof (wf_tensor_numel t (wf_gradients_in g name t Hwf Hin)) as Hn.
    destruct (sparsify_k_range (numel t) sparsity Hn Hs) as [_ Hk]. lia.
  - now destruct Hwf.
  - simpl. tauto.
Qed.

(** C2, as the specification states it, fails: of three elements at
    sparsity [1/2] the code keeps [int(1.5) = 1], not [round(1.5) = 2]. *)
Lemma sparsify_does_not_round :
  wf_gradients [("w", three_values)] /\ 0 <= 1 / 2 < 1 /\
  ~ keeps_per_tensor k_rounded [("w", three_values)] (1 / 2).
Proof.
  assert (Hwf : wf_gradients [("w", three_values)])
    by now apply wf_gradientsb_sound.
  assert (Hs : 0 <= 1 / 2 < 1) by lra.
  split; [exact Hwf |]. split; [exact Hs |].
  intros (sp & Hsp & Hall).
  rewrite (sparsify_gradients_eq _ _ Hwf Hs) in Hsp.
  inversion Hsp; subst sp; clear Hsp.
  destruct (Hall "w" three_values (or_introl eq_refl))
    as (vals & idxs & Hget & Hvals & _).
  simpl in Hget. inversion Hget as [[Hlen Hmap]]. clear Hget Hmap.
  assert (Hx : INR (numel three_values) * (1 - 1 / 2) = 3 / 2)
    by (unfold numel, three_values; simpl; lra).
  assert (Hfloor : Rfloor (3 / 2) = 1%Z) by (apply Rfloor_unique; lra).
  assert (Hcode : length (kept (1 / 2) three_values) = 1%nat).
  { destruct (sparsify_k_range (numel three_values) (1 / 2)) as [Hk Hr];
      [unfold numel, three_values; simpl; lia | lra |].
    rewrite kept_length by lia. rewrite Hk, Hx, Hfloor. reflexivity. }
  assert (Hspec : k_rounded (numel three_values) (1 / 2) = 2%nat).
  { unfold k_rounded. rewrite Hx. unfold round_half_even. rewrite Hfloor.
    destruct (Rlt_dec (3 / 2 - 1) (1 / 2)); [lra |].
    destruct (Rlt_dec (1 / 2) (3 / 2 - 1)); [lra |]. reflexivity. }
  rewrite Hspec in Hvals. rewrite Hcode in Hlen. lia.
Qed.

Lemma list_update_length {A : Type} (l : list A) (i : nat) (v : A) :
  length (list_update l i v) = length l.
Proof.
  revert i. induction l as [| x l IH]; intros [| i]; simpl; trivial.
  now rewrite IH.
Qed.

Lemma nth_list_update_eq {A : Type} (l : list A) (i : nat) (v d : A) :
  (i < length l)%nat -> nth i (list_update l i v) d = v.
Proof.
  revert i. induction l as [| x l IH]; intros [| i]; simpl; intros H;
    try lia; trivial.
  apply IH. lia.
Qed.

Lemma nth_list_update_neq {A : Type} (l : list A) (i j : nat) (v d : A) :
  j <> i -> nth j (list_update l i v) d = nth j l d.
Proof.
  revert i j. induction l as [| x l IH]; intros [| i] [| j]; simpl; intros H;
    trivial; try congruence.
  apply IH. congruence.
Qed.

(** Writing, at each offset of [idxs], the element that [flat] has there
    turns a buffer into [flat] as soon as every position that still
    differs is among the offsets. *)
Lemma scatter_restores (flat : list R) (idxs : list nat) (dense : list R) :
  length dense = length flat ->
  (forall j, In j idxs \/ nth j dense 0 = nth j flat 0) ->
  fold_left (fun d iv => list_update d (fst iv) (snd iv))
            (map (fun i => (i, nth i flat 0)) idxs) dense = flat.
Proof.
  revert dense. induction idxs as [| i idxs IH]; intros dense Hlen Hcov; simpl.
  - apply nth_ext with (d := 0) (d' := 0); [exact Hlen |].
    intros j _. destruct (Hcov j) as [[] | H]. exact H.
  - apply IH.
    + now rewrite list_update_length.
    + intros j. destruct (Nat.eq_dec j i) as [-> | Hne].
      * right. destruct (Nat.lt_ge_cases i (length dense)) as [Hi | Hi].
        -- now apply nth_list_update_eq.
        -- rewrite !nth_overflow; trivial; [lia |].
           rewrite list_update_length. lia.
      * rewrite nth_list_update_neq by exact Hne.
        destruct (Hcov j) as [[H | H] | H]; [congruence | now left | now right].
Qed.

Lemma map_snd_combine_seq {A : Type} (l : list A) (start : nat) :
  map snd (combine l (seq start (length l))) = seq start (length l).
Proof.
  revert start. induction l as [| x l IH]; intros start; simpl; [reflexivity |].
  now rewrite IH.
Qed.

Lemma combine_map_offsets {A : Type} (f : nat -> R) (K : list (A * nat)) :
  combine (map snd K) (map (fun p => f (snd p)) K) =
  map (fun i => (i, f i)) (map snd K).
Proof. induction K as [| p K IH]; simpl; [reflexivity | now rewrite IH]. Qed.

Lemma shape_eqb_refl (s : list nat) : shape_eqb s s = true.
Proof. unfold shape_eqb. destruct (list_eq_dec Nat.eq_dec s s); congruence. Qed.

Lemma sparsify_k_zero (n : nat) : (1 <= n)%nat -> sparsify_k n 0 = Z.of_nat n.
Proof.
  intros Hn. unfold sparsify_k.
  replace (INR n * (1 - 0)) with (IZR (Z.of_nat n)) by (rewrite INR_IZR_INZ; ring).
  rewrite py_int_IZR. destruct (Z.eqb_spec (Z.of_nat n) 0); lia.
Qed.

(** At sparsity [0] every offset of the tensor is selected. *)
Lemma kept_zero_covers (t : Tensor) (j : nat) :
  (1 <= numel t)%nat -> (j < numel t)%nat -> In j (map snd (kept 0 t)).
Proof.
  intros Hn Hj. unfold kept. rewrite sparsify_k_zero, Nat2Z.id by exact Hn.
  rewrite firstn_all2
    by (rewrite sort_desc_length, length_combine, length_map, length_seq;
        fold (numel t); lia).
  apply (Permutation_in j (Permutation_sym
                             (Permutation_map snd (sort_desc_perm _)))).
  unfold numel. rewrite <- (length_map Rabs (data t)), map_snd_combine_seq.
  apply in_seq. rewrite length_map. fold (numel t). lia.
Qed.

(** One pass of the loop of [densify_gradients] on the record stored at
    sparsity [0] rebuilds the tensor. *)
Lemma densify_step_zero (acc : GradientSet) (name : string) (t : Tensor) :
  wf_tensor t ->
  densify_step acc (name, sparse_record 0 t) = Ok (dict_set acc name t).
Proof.
  intros Hwf. pose proof (wf_tensor_numel t Hwf) as Hn.
  destruct Hwf as (Hshape & _ & Hlen).
  assert (Hz : py_zeros_size (PySize (shape t)) = Ok (length (data t))).
  { rewrite Hlen. simpl. destruct (shape t); [congruence | reflexivity]. }
  unfold densify_step, sparse_record. simpl. simpl in Hz.
  rewrite Hz. simpl. rewrite length_map, shape_eqb_refl. simpl.
  assert (Hall : forallb (fun i => (i <? length (repeat 0%R (length (data t))))%nat)
                         (map snd (kept 0 t)) = true).
  { apply forallb_forall. intros i Hi. apply in_map_iff in Hi.
    destruct Hi as (p & <- & Hp). destruct (kept_valid _ _ _ Hp) as [Hv _].
    apply Nat.ltb_lt. now rewrite repeat_length. }
  rewrite Hall. simpl.
  rewrite (combine_map_offsets (fun i => nth i (data t) 0)), scatter_restores.
  - unfold py_reshape. rewrite Hlen, Nat.eqb_refl. simpl.
    destruct t as [sh dt]. reflexivity.
  - apply repeat_length.
  - intros j. destruct (Nat.lt_ge_cases j (numel t)) as [Hj | Hj].
    + left. now apply kept_zero_covers.
    + right. unfold numel in Hj. rewrite !nth_overflow; trivial.
      now rewrite repeat_length.
Qed.

(** X26.  For a GradientSet all of whose tensors have at least one
    dimension (and positive dimensions, and as many elements as the shape
    announces), sparsifying at sparsity [0] succeeds and densifying the
    result gives the set back, with every element at its place. *)
Theorem densify_sparsify_zero (g : GradientSet) :
  wf_gradients g ->
  exists sparse,
    sparsify_gradients g 0 = Ok sparse /\ densify_gradients sparse = Ok g.
Proof.
  intros Hwf. eexists. split; [apply sparsify_gradients_eq; [exact Hwf | lra] |].
  unfold densify_gradients. simpl.
  rewrite (for_each_dict_set densify_step _ g).
  - reflexivity.
  - rewrite <- (map_id g) at 2. apply Forall2_map_same.
    intros [name t] Hin. split; [reflexivity |]. intros acc. simpl.
    apply densify_step_zero. now apply (wf_gradients_in g name t).
  - rewrite map_fst_pair. now destruct Hwf.
  - simpl. tauto.
Qed.

(* ================================================================== *)
(** * The facade *)
(* ================================================================== *)

Lemma positive_bits_denominator (bits : Z) :
  (1 <= bits)%Z -> powerRZ 2 bits - 1 <> 0.
Proof.
  intros Hb. rewrite powerRZ_2_nonneg by lia.
  assert (H2 : (2 ^ 1 <= 2 ^ bits)%Z) by (apply Z.pow_le_mono_r; lia).
  change (2 ^ 1)%Z with 2%Z in H2.
  assert (2 <= IZR (2 ^ bits)) by (apply IZR_le; lia). lra.
Qed.

(** C1, as the code has it.  The envelope of method [none] carries the tag
    ["none"] and [decompress_gradients] returns the GradientSet it wraps.
    The envelope of method [quantize] carries no tag;
    [decompress_gradients] reads a missing tag as ["quantize"] and returns
    the dequantized set. *)
Theorem envelope_roundtrip_none_and_quantize (g : GradientSet) (kw : kwargs) :
  wf_gradients g -> (1 <= requested_bits kw)%Z ->
  self_describing g m_none kw (py_gradients g) /\
  exists envelope g',
    compress_gradients g m_quantize kw = Ok envelope /\
    py_getitem envelope "method" = Raise (KeyError "method") /\
    py_get envelope "method" (PyStr m_quantize) = Ok (PyStr m_quantize) /\
    dequantize_gradients envelope = Ok g' /\
    decompress_gradients envelope = Ok (py_gradients g').
Proof.
  intros Hwf Hb. split.
  - eexists. split; [reflexivity |]. split; reflexivity.
  - pose proof (positive_bits_denominator _ Hb) as Hden.
    destruct (dequantize_quantize_eq g (requested_bits kw) Hwf Hden)
      as (payload & Hq & Hdq).
    exists payload. eexists.
    assert (Hget : py_get payload "method" (PyStr m_quantize)
                   = Ok (PyStr m_quantize) /\
                   py_getitem payload "method" = Raise (KeyError "method")).
    { rewrite (quantize_gradients_eq g _ Hwf Hden) in Hq.
      inversion Hq. split; reflexivity. }
    destruct Hget as [Hget Hitem].
    split; [exact Hq |]. split; [exact Hitem |]. split; [exact Hget |].
    split; [exact Hdq |].
    unfold decompress_gradients. rewrite Hget. simpl. now rewrite Hdq.
Qed.

(** C1, as the specification states it, fails on a set with one tensor:
    the envelopes of the methods [quantize] and [sparsify] carry no tag,
    and [decompress_gradients], reading the envelope of [sparsify] as a
    quantized one, raises [KeyError] on the key ["gradients"]. *)
Lemma envelopes_without_tag :
  wf_gradients [("w", unit_ramp)] /\
  (forall expected,
     ~ self_describing [("w", unit_ramp)] m_quantize no_kwargs expected) /\
  (forall expected,
     ~ self_describing [("w", unit_ramp)] m_sparsify no_kwargs expected) /\
  (exists envelope,
     compress_gradients [("w", unit_ramp)] m_sparsify no_kwargs = Ok envelope /\
     decompress_gradients envelope = Raise (KeyError "gradients")).
Proof.
  assert (Hwf : wf_gradients [("w", unit_ramp)])
    by now apply wf_gradientsb_sound.
  assert (Hs : 0 <= 9 / 10 < 1) by lra.
  assert (Hq : compress_gradients [("w", unit_ramp)] m_quantize no_kwargs
               = Ok (PyDict [("gradients", PyDict [("w", stored_tensor 8 unit_ramp)]);
                             ("params", PyDict [("w", stored_params 8 unit_ramp)])])).
  { exact (quantize_gradients_eq _ 8 Hwf eight_bits_denominator). }
  assert (Hsp : compress_gradients [("w", unit_ramp)] m_sparsify no_kwargs
                = Ok (PyDict [("w", sparse_record (9 / 10) unit_ramp)])).
  { exact (sparsify_gradients_eq _ _ Hwf Hs). }
  split; [exact Hwf |]. repeat split.
  - intros expected (envelope & Hc & Htag & _).
    rewrite Hq in Hc. inversion Hc; subst envelope. discriminate Htag.
  - intros expected (envelope & Hc & Htag & _).
    rewrite Hsp in Hc. inversion Hc; subst envelope. discriminate Htag.
  - eexists. split; [exact Hsp | reflexivity].
Qed.

(** The envelope of method [sparsify] is never accepted: whatever the
    parameters are called, [decompress_gradients] raises on it. *)
Lemma decompress_rejects_sparse_envelope (g : GradientSet) (kw : kwargs) :
  wf_gradients g ->
  (match kw_sparsity kw with Some s => 0 <= s < 1 | None => True end) ->
  exists envelope,
    compress_gradients g m_sparsify kw = Ok envelope /\
    fails (decompress_gradients envelope).
Proof.
  intros Hwf Hkw.
  set (s := match kw_sparsity kw with Some s => s | None => 9 / 10 end).
  assert (Hs : 0 <= s < 1).
  { unfold s. destruct (kw_sparsity kw); [exact Hkw | lra]. }
  eexists. split; [exact (sparsify_gradients_eq g s Hwf Hs) |].
  unfold decompress_gradients, py_get.
  rewrite (dict_get_map (sparse_record s)).
  destruct (dict_get g "method"); simpl; [now exists ValueError |].
  unfold dequantize_gradients, py_getitem at 1.
  rewrite (dict_get_map (sparse_record s)).
  destruct (dict_get g "gradients"); simpl; [| now exists (KeyError "gradients")].
  rewrite (dict_get_map (sparse_record s)).
  destruct (dict_get g "params"); simpl; [| now exists (KeyError "params")].
  now exists IndexError.
Qed.

(* ================================================================== *)
(** * Aggregation and statistics *)
(* ================================================================== *)

(** C4, as the code has it.  [aggregate_gradients] applied to an empty
    sequence returns the empty mapping. *)
Theorem aggregate_empty_returns_empty : aggregate_gradients [] = Ok [].
Proof. reflexivity. Qed.

(** C4, as the specification states it, fails: on the empty sequence
    [aggregate_gradients] raises nothing. *)
Lemma aggregate_empty_does_not_fail : ~ fails (aggregate_gradients []).
Proof. intros [e He]. discriminate He. Qed.



(** A loop that keeps an invariant and meets an item on which its body
    raises under that invariant raises. *)
Lemma for_each_fails_under {A S : Type} (I : S -> Prop)
  (body : S -> A -> result S) (items : list A) (x : A) (acc : S) :
  I acc ->
  (forall s y s', I s -> body s y = Ok s' -> I s') ->
  In x items -> (forall s, I s -> fails (body s x)) ->
  fails (for_each items body acc).
Proof.
  revert acc. induction items as [| y items IH]; intros acc Hacc Hkeep Hin Hx;
    simpl; [contradiction |].
  destruct (body acc y) as [acc' | e] eqn:Hy; simpl.
  - destruct Hin as [-> | Hin].
    + destruct (Hx acc Hacc) as [e He]. congruence.
    + apply IH; trivial. now apply (Hkeep acc y).
  - now exists e.
Qed.












(* ================================================================== *)
(** * Clipping *)
(* ================================================================== *)

Lemma fold_Rplus_shift (l : list R) (a : R) : fold_left Rplus l a = a + Rsum l.
Proof.
  unfold Rsum. revert a. induction l as [| x l IH]; intros a; simpl; [lra |].
  rewrite (IH (a + x)), (IH (0 + x)). lra.
Qed.

Lemma sum_of_squares_nonneg (l : list R) : 0 <= Rsum (map (fun x => x * x) l).
Proof.
  induction l as [| x l IH]; unfold Rsum; simpl; [lra |].
  rewrite fold_Rplus_shift. nra.
Qed.

Lemma sum_of_squares_scale (c : R) (l : list R) :
  Rsum (map (fun x => x * x) (map (fun x => x * c) l)) =
  c * c * Rsum (map (fun x => x * x) l).
Proof.
  induction l as [| x l IH]; unfold Rsum; simpl; [lra |].
  rewrite !fold_Rplus_shift, IH. lra.
Qed.

Lemma tensor_norm2_square (t : Tensor) :
  tensor_norm2 t ^ 2 = Rsum (map (fun x => x * x) (data t)).
Proof. unfold tensor_norm2. apply pow2_sqrt, sum_of_squares_nonneg. Qed.

Lemma total_norm_shift (l : list Tensor) (a : R) :
  fold_left (fun total grad => total + tensor_norm2 grad ^ 2) l a =
  a + fold_left (fun total grad => total + tensor_norm2 grad ^ 2) l 0.
Proof.
  revert a. induction l as [| t l IH]; intros a; cbn [fold_left]; [lra |].
  rewrite (IH (a + _)), (IH (0 + _)). lra.
Qed.

Lemma total_norm_nonneg (l : list Tensor) :
  0 <= fold_left (fun total grad => total + tensor_norm2 grad ^ 2) l 0.
Proof.
  induction l as [| t l IH]; cbn [fold_left map]; [lra |].
  rewrite total_norm_shift, tensor_norm2_square.
  pose proof (sum_of_squares_nonneg (data t)). lra.
Qed.

Lemma total_norm_scale (c : R) (l : list Tensor) :
  fold_left (fun total grad => total + tensor_norm2 grad ^ 2)
            (map (tensor_map (fun x => x * c)) l) 0 =
  c * c * fold_left (fun total grad => total + tensor_norm2 grad ^ 2) l 0.
Proof.
  induction l as [| t l IH]; cbn [fold_left map]; [lra |].
  rewrite (total_norm_shift _ (0 + _)), (total_norm_shift l (0 + _)), IH.
  rewrite !tensor_norm2_square. cbn [data tensor_map].
  rewrite sum_of_squares_scale. lra.
Qed.

(** Scaling every tensor by [c >= 0] scales the global norm by [c]. *)
Lemma norm_of_scaled (c : R) (g : GradientSet) :
  0 <= c ->
  compute_gradient_norm
    (map (fun it => (fst it, tensor_map (fun x => x * c) (snd it))) g) =
  c * compute_gradient_norm g.
Proof.
  intros Hc. unfold compute_gradient_norm, dict_values.
  rewrite map_snd_pair, <- (map_map snd (tensor_map (fun x => x * c))).
  rewrite total_norm_scale, sqrt_mult.
  - now rewrite sqrt_square.
  - nra.
  - apply total_norm_nonneg.
Qed.

(** When the norm exceeds the bound, [clip_gradients] scales every tensor
    by [max_norm / (norm + 1e-6)]. *)
Lemma clip_gradients_scaled (g : GradientSet) (m : R) :
  NoDup (dict_keys g) -> m < compute_gradient_norm g ->
  clip_gradients g m =
  map (fun it => (fst it,
                  tensor_map (fun x => x * (m / (compute_gradient_norm g + / 1000000)))
                             (snd it))) g.
Proof.
  intros Hnd Hm. unfold clip_gradients.
  destruct (Rlt_dec m (compute_gradient_norm g)); [| contradiction].
  now rewrite (fold_left_dict_set
                 (fun it => tensor_map
                              (fun x => x * (m / (compute_gradient_norm g + / 1000000)))
                              (snd it)))
    by (trivial; simpl; tauto).
Qed.

(** C8, in exact arithmetic.  With real numbers for the elements and the
    norms, clipping is idempotent: for a GradientSet (a dictionary, so with
    distinct names) and a bound [m > 0], clipping the clipped set changes
    nothing, because the norm of the clipped set is
    [m * norm / (norm + 1e-6) < m]. *)
Theorem clip_idempotent (g : GradientSet) (m : R) :
  NoDup (dict_keys g) -> 0 < m ->
  clip_gradients (clip_gradients g m) m = clip_gradients g m.
Proof.
  intros Hnd Hm.
  destruct (Rlt_dec m (compute_gradient_norm g)) as [Hbig | Hsmall].
  - rewrite (clip_gradients_scaled g m Hnd Hbig).
    set (n := compute_gradient_norm g) in *.
    set (c := m / (n + / 1000000)).
    assert (Hden : 0 < n + / 1000000) by lra.
    assert (Hc : 0 <= c).
    { unfold c. apply Rmult_le_pos; [lra |]. apply Rlt_le, Rinv_0_lt_compat, Hden. }
    assert (Hnorm : c * n < m).
    { unfold c. apply Rmult_lt_reg_r with (r := n + / 1000000); [exact Hden |].
      replace (m / (n + / 1000000) * n * (n + / 1000000)) with (m * n)
        by (field; lra).
      nra. }
    unfold clip_gradients at 1. fold c. rewrite (norm_of_scaled c g Hc). fold n.
    destruct (Rlt_dec m (c * n)); [lra | reflexivity].
  - unfold clip_gradients.
    destruct (Rlt_dec m (compute_gradient_norm g)); [contradiction |].
    destruct (Rlt_dec m (compute_gradient_norm g)); [contradiction | reflexivity].
Qed.

(** C8, as the specification states it, fails on the machine.  The set
    with the single binary32 element [100.0] is clipped to the bound [0.1]:
    the element becomes [100 * (0.1 / 100.000001)], which is stored as the
    binary32 number nearest to it, [13421773 * 2^-27], just above the
    binary64 number [0.1].  The norm of the clipped set therefore exceeds
    the bound, and clipping it again rescales it to [13421639 * 2^-27].
    This holds whichever way the element is scaled. *)
Lemma clip_twice_differs_in_binary32 :
  let once scale := Binary32.clip_gradients scale Binary32.hundred Binary32.tenth in
  let twice scale := Binary32.clip_gradients scale (once scale) Binary32.tenth in
  (once Binary32.scale_converted =
     [("w", Binary32.mkTensor [1%nat] [S754_finite false 13421773 (-27)])] /\
   twice Binary32.scale_converted =
     [("w", Binary32.mkTensor [1%nat] [S754_finite false 13421639 (-27)])] /\
   twice Binary32.scale_converted <> once Binary32.scale_converted) /\
  (once Binary32.scale_rounded_once =
     [("w", Binary32.mkTensor [1%nat] [S754_finite false 13421773 (-27)])] /\
   twice Binary32.scale_rounded_once =
     [("w", Binary32.mkTensor [1%nat] [S754_finite false 13421639 (-27)])] /\
   twice Binary32.scale_rounded_once <> once Binary32.scale_rounded_once).
Proof.
  vm_compute. repeat split; try reflexivity; discriminate.
Qed.

(* ================================================================== *)
(** * The scenarios of the specification *)
(* ================================================================== *)

Lemma round_half_even_IZR (z : Z) : round_half_even (IZR z) = z.
Proof.
  unfold round_half_even. rewrite Rfloor_IZR.
  destruct (Rlt_dec (IZR z - IZR z) (1 / 2)) as [_ | H];
    [reflexivity | exfalso; apply H; lra].
Qed.

Ltac eval_min_max :=
  repeat match goal with
         | |- context [Rmin ?a ?b] =>
             first [rewrite (Rmin_left a b) by lra | rewrite (Rmin_right a b) by lra]
         | |- context [Rmax ?a ?b] =>
             first [rewrite (Rmax_left a b) by lra | rewrite (Rmax_right a b) by lra]
         end.

(** The tensor [[-1, 0, 1, 2]] at eight bits: scale [3 / 255], zero point
    [-1], levels [0], [85], [170] and [255]; the level [255] is rebuilt as
    [2] exactly. *)
Example quantize_scenario :
  stored_scale 8 ramp4 = 3 / 255 /\
  stored_zero_point ramp4 = -1 /\
  stored_bytes 8 ramp4 = [0; 85; 170; 255]%Z /\
  255 * stored_scale 8 ramp4 + stored_zero_point ramp4 = 2.
Proof.
  assert (Hz : stored_zero_point ramp4 = -1).
  { unfold stored_zero_point, tensor_min, ramp4. simpl. now eval_min_max. }
  assert (Hs : tensor_scale 8 ramp4 = 3 / 255).
  { unfold tensor_scale, tensor_min, tensor_max, ramp4. simpl. eval_min_max. lra. }
  assert (Hss : stored_scale 8 ramp4 = 3 / 255).
  { unfold stored_scale. rewrite Hs. destruct (Rlt_dec 0 (3 / 255)); [reflexivity | lra]. }
  split; [exact Hss |]. split; [exact Hz |]. split; [| rewrite Hss, Hz; lra].
  unfold stored_bytes. rewrite Hs, Hz.
  destruct (Rlt_dec 0 (3 / 255)); [| lra].
  unfold quantize_levels, ramp4, to_uint8, clamp. simpl map.
  replace ((-1 - -1) / (3 / 255)) with (IZR 0) by lra.
  replace ((0 - -1) / (3 / 255)) with (IZR 85) by lra.
  replace ((1 - -1) / (3 / 255)) with (IZR 170) by lra.
  replace ((2 - -1) / (3 / 255)) with (IZR 255) by lra.
  rewrite !round_half_even_IZR.
  replace (powerRZ 2 8 - 1) with 255 by (simpl; lra).
  eval_min_max. now rewrite !py_int_IZR.
Qed.

Ltac eval_Rle_dec :=
  repeat match goal with
         | |- context [Rle_dec ?a ?b] => destruct (Rle_dec a b); try lra; simpl
         end.

(** The tensor [[5, -3, 1, 0, 2]] at sparsity [0.6]: [k = 2], the elements
    kept are [5] at offset [0] and [-3] at offset [1], and the densified
    tensor is [[5, -3, 0, 0, 0]]. *)
Example sparsify_scenario :
  sparsify_k (numel mixed5) (6 / 10) = 2%Z /\
  kept (6 / 10) mixed5 = [(5, 0%nat); (3, 1%nat)] /\
  densify_gradients (PyDict [("w", sparse_record (6 / 10) mixed5)]) =
    Ok [("w", mkTensor [5%nat] [5; -3; 0; 0; 0])].
Proof.
  assert (Hk : sparsify_k (numel mixed5) (6 / 10) = 2%Z).
  { unfold sparsify_k, numel, mixed5. simpl.
    replace ((1 + 1 + 1 + 1 + 1) * (1 - 6 / 10)) with (IZR 2) by lra.
    now rewrite py_int_IZR. }
  assert (Hkept : kept (6 / 10) mixed5 = [(5, 0%nat); (3, 1%nat)]).
  { unfold kept. rewrite Hk. unfold numel, mixed5. simpl map. simpl seq.
    replace (Rabs 5) with 5 by (symmetry; apply Rabs_right; lra).
    replace (Rabs (-3)) with 3 by (rewrite Rabs_left; lra).
    replace (Rabs 1) with 1 by (symmetry; apply Rabs_right; lra).
    replace (Rabs 0) with 0 by (symmetry; apply Rabs_R0).
    replace (Rabs 2) with 2 by (symmetry; apply Rabs_right; lra).
    unfold sort_desc. simpl. eval_Rle_dec. reflexivity. }
  split; [exact Hk |]. split; [exact Hkept |].
  unfold densify_gradients, sparse_record. rewrite Hkept. reflexivity.
Qed.

(** A set of global norm [10] clipped to [2]: every element is multiplied
    by [2 / 10.000001]. *)
Example clip_scenario :
  compute_gradient_norm [("w", six_eight)] = 10 /\
  clip_gradients [("w", six_eight)] 2 =
    [("w", mkTensor [2%nat] [6 * (2 / (10 + / 1000000));
                             8 * (2 / (10 + / 1000000))])].
Proof.
  assert (Hn : compute_gradient_norm [("w", six_eight)] = 10).
  { unfold compute_gradient_norm. cbn [dict_values map snd fold_left].
    rewrite tensor_norm2_square. unfold six_eight, Rsum. simpl.
    replace (0 + (0 + 6 * 6 + 8 * 8)) with (10 * 10) by lra.
    apply sqrt_square. lra. }
  split; [exact Hn |].
  rewrite clip_gradients_scaled.
  - rewrite Hn. reflexivity.
  - apply nodupb_sound. reflexivity.
  - rewrite Hn. lra.
Qed.

(* ================================================================== *)
(** * The theorems at concrete inputs *)
(* ================================================================== *)

Lemma envelope_roundtrip_none_and_quantize_witness :
  wf_gradients [("w", unit_ramp)] /\
  (1 <= requested_bits no_kwargs)%Z /\
  self_describing [("w", unit_ramp)] m_none no_kwargs
                  (py_gradients [("w", unit_ramp)]) /\
  exists envelope g',
    compress_gradients [("w", unit_ramp)] m_quantize no_kwargs = Ok envelope /\
    py_getitem envelope "method" = Raise (KeyError "method") /\
    py_get envelope "method" (PyStr m_quantize) = Ok (PyStr m_quantize) /\
    dequantize_gradients envelope = Ok g' /\
    decompress_gradients envelope = Ok (py_gradients g').
Proof.
  assert (Hwf : wf_gradients [("w", unit_ramp)])
    by (apply wf_gradientsb_sound; reflexivity).
  assert (Hb : (1 <= requested_bits no_kwargs)%Z)
    by (unfold requested_bits; simpl; lia).
  split; [exact Hwf |]. split; [exact Hb |].
  exact (envelope_roundtrip_none_and_quantize _ _ Hwf Hb).
Defined.

Lemma quantize_roundtrip_error_witness :
  wf_gradients [("w", three_values)] /\ (1 <= 8 <= 8)%Z /\ 0 <= 0 /\
  exists payload g',
    quantize_gradients [("w", three_values)] 8 = Ok payload /\
    dequantize_gradients payload = Ok g' /\
    dict_keys g' = dict_keys [("w", three_values)] /\
    map shape (dict_values g') = map shape (dict_values [("w", three_values)]) /\
    Forall2 (fun t t' =>
               Forall2 (fun x x' => Rabs (x' - x) <= tensor_scale 8 t / 2 + 0)
                       (data t) (data t') /\
               (tensor_scale 8 t = 0 -> t' = t))
            (dict_values [("w", three_values)]) (dict_values g').
Proof.
  assert (Hwf : wf_gradients [("w", three_values)])
    by (apply wf_gradientsb_sound; reflexivity).
  assert (Hb : (1 <= 8 <= 8)%Z) by lia.
  assert (He : 0 <= 0) by lra.
  split; [exact Hwf |]. split; [exact Hb |]. split; [exact He |].
  exact (quantize_roundtrip_error _ 8 0 Hwf Hb He).
Defined.


Lemma quantized_ratio_above_one_iff_witness :
  wf_gradients [("w", three_values)] /\
  exists payload r,
    quantize_gradients [("w", three_values)] 8 = Ok payload /\
    estimate_compression_ratio [("w", three_values)] payload = Ok r /\
    (1 < r <->
     (16 * length [("w", three_values)] < 3 * total_numel [("w", three_values)])%nat).
Proof.
  assert (Hwf : wf_gradients [("w", three_values)])
    by (apply wf_gradientsb_sound; reflexivity).
  split; [exact Hwf |].
  exact (quantized_ratio_above_one_iff _ Hwf).
Defined.

Lemma clip_idempotent_witness :
  NoDup (dict_keys [("w", three_values)]) /\ 0 < 1 /\
  clip_gradients (clip_gradients [("w", three_values)] 1) 1 =
  clip_gradients [("w", three_values)] 1.
Proof.
  assert (Hnd : NoDup (dict_keys [("w", three_values)]))
    by (apply nodupb_sound; reflexivity).
  assert (Hm : 0 < 1) by lra.
  split; [exact Hnd |]. split; [exact Hm |].
  exact (clip_idempotent _ 1 Hnd Hm).
Defined.

Lemma densify_sparsify_zero_witness :
  wf_gradients [("w", three_values)] /\
  exists sparse,
    sparsify_gradients [("w", three_values)] 0 = Ok sparse /\
    densify_gradients sparse = Ok [("w", three_values)].
Proof.
  assert (Hwf : wf_gradients [("w", three_values)])
    by (apply wf_gradientsb_sound; reflexivity).
  split; [exact Hwf |].
  exact (densify_sparsify_zero _ Hwf).
Defined.


(* ================================================================== *)
(** * Further properties: norm, clipping and statistics *)
(* ================================================================== *)

Lemma Rsum_app (l l' : list R) : Rsum (l ++ l') = Rsum l + Rsum l'.
Proof.
  unfold Rsum. rewrite fold_left_app, fold_Rplus_shift. reflexivity.
Qed.

Lemma Rsum_cons (x : R) (l : list R) : Rsum (x :: l) = x + Rsum l.
Proof. unfold Rsum. simpl. rewrite fold_Rplus_shift. unfold Rsum. lra. Qed.

Lemma total_norm_all_elements (l : list Tensor) :
  fold_left (fun total grad => total + tensor_norm2 grad ^ 2) l 0 =
  Rsum (map (fun x => x * x) (concat (map data l))).
Proof.
  induction l as [| t l IH]; cbn [fold_left map concat]; [reflexivity |].
  rewrite total_norm_shift, IH, tensor_norm2_square, map_app, Rsum_app. lra.
Qed.

Lemma square_le_sum_of_squares (l : list R) (x : R) :
  In x l -> x * x <= Rsum (map (fun y => y * y) l).
Proof.
  induction l as [| y l IH]; simpl; intros Hin; [contradiction |].
  rewrite Rsum_cons. pose proof (sum_of_squares_nonneg l).
  destruct Hin as [-> | Hin]; [lra | specialize (IH Hin); nra].
Qed.

Lemma abs_le_norm (g : GradientSet) (x : R) :
  In x (all_elements g) -> Rabs x <= compute_gradient_norm g.
Proof.
  intros Hx. unfold compute_gradient_norm.
  rewrite total_norm_all_elements. fold (all_elements g).
  rewrite <- (sqrt_Rsqr_abs x). apply sqrt_le_1_alt. unfold Rsqr.
  now apply square_le_sum_of_squares.
Qed.

(** X1.  The norm of a set is the Euclidean norm of all its elements taken
    together, however they are grouped into tensors, and no element
    exceeds it in magnitude. *)
Theorem norm_is_global_euclidean (g : GradientSet) :
  compute_gradient_norm g =
    sqrt (Rsum (map (fun x => x * x) (all_elements g))) /\
  forall x, In x (all_elements g) -> Rabs x <= compute_gradient_norm g.
Proof.
  assert (H : compute_gradient_norm g =
              sqrt (Rsum (map (fun x => x * x) (all_elements g)))).
  { unfold compute_gradient_norm, all_elements.
    now rewrite total_norm_all_elements. }
  split; [exact H |]. intros x Hx. now apply abs_le_norm.
Qed.

Lemma tensor_map_id (t : Tensor) : tensor_map (fun x => x * 1) t = t.
Proof.
  destruct t as [sh dt]. unfold tensor_map. simpl. f_equal.
  rewrite <- (map_id dt) at 2. apply map_ext. intros x. lra.
Qed.

Lemma scaled_one (g : GradientSet) : scaled 1 g = g.
Proof.
  unfold scaled. rewrite <- (map_id g) at 2. apply map_ext.
  intros [name t]. simpl. now rewrite tensor_map_id.
Qed.

(** X2.  Clipping is global: every element of every tensor is multiplied by
    one common factor, which lies in [(0, 1]] for a positive bound and is
    [1] when the norm is within the bound.  Names, their order and shapes
    are those of the input. *)
Theorem clip_scales_uniformly (g : GradientSet) (m : R) :
  NoDup (dict_keys g) -> 0 < m ->
  exists c, 0 < c <= 1 /\
            (compute_gradient_norm g <= m -> c = 1) /\
            clip_gradients g m = scaled c g /\
            dict_keys (clip_gradients g m) = dict_keys g /\
            map shape (dict_values (clip_gradients g m)) =
              map shape (dict_values g).
Proof.
  intros Hnd Hm.
  assert (Hlayout : forall c,
             dict_keys (scaled c g) = dict_keys g /\
             map shape (dict_values (scaled c g)) = map shape (dict_values g)).
  { intros c. unfold scaled, dict_keys, dict_values.
    rewrite map_fst_pair, map_snd_pair, !map_map. split; reflexivity. }
  destruct (Rlt_dec m (compute_gradient_norm g)) as [Hbig | Hsmall].
  - set (n := compute_gradient_norm g) in *.
    exists (m / (n + / 1000000)).
    assert (Hden : 0 < n + / 1000000) by lra.
    assert (Hc : 0 < m / (n + / 1000000) <= 1).
    { split.
      - apply Rmult_lt_0_compat; [lra | now apply Rinv_0_lt_compat].
      - apply Rmult_le_reg_r with (r := n + / 1000000); [exact Hden |].
        unfold Rdiv. rewrite Rmult_assoc, Rinv_l by lra. lra. }
    split; [exact Hc |]. split; [intros; lra |].
    rewrite (clip_gradients_scaled g m Hnd Hbig). fold n.
    split; [reflexivity |]. apply Hlayout.
  - exists 1. split; [lra |]. split; [reflexivity |].
    unfold clip_gradients.
    destruct (Rlt_dec m (compute_gradient_norm g)); [contradiction |].
    rewrite scaled_one. repeat split; reflexivity.
Qed.

Lemma fold_Rmax_in (l : list R) (a : R) : In (fold_left Rmax l a) (a :: l).
Proof.
  revert a. induction l as [| y l IH]; intros a; simpl; [now left |].
  destruct (IH (Rmax a y)) as [H | H].
  - rewrite <- H. unfold Rmax. destruct (Rle_dec a y); [right; now left | now left].
  - right. now right.
Qed.

Lemma fold_Rmin_in (l : list R) (a : R) : In (fold_left Rmin l a) (a :: l).
Proof.
  revert a. induction l as [| y l IH]; intros a; simpl; [now left |].
  destruct (IH (Rmin a y)) as [H | H].
  - rewrite <- H. unfold Rmin. destruct (Rle_dec a y); [now left | right; now left].
  - right. now right.
Qed.

Lemma map_each_exists {A B : Type} (f : A -> result B) (P : A -> B -> Prop)
  (l : list A) :
  Forall (fun x => exists y, f x = Ok y /\ P x y) l ->
  exists ys, map_each f l = Ok ys /\ Forall2 P l ys.
Proof.
  induction 1 as [| x l (y & Hy & HP) _ (ys & Hys & HF)]; simpl.
  - exists []. split; [reflexivity | constructor].
  - exists (y :: ys). rewrite Hy. simpl. rewrite Hys. simpl.
    split; [reflexivity | now constructor].
Qed.

Lemma map_each_raises {A B : Type} (f : A -> result B) (e : exn) (l : list A) :
  (forall x, In x l -> (exists y, f x = Ok y) \/ f x = Raise e) ->
  (exists x, In x l /\ f x = Raise e) ->
  map_each f l = Raise e.
Proof.
  induction l as [| x l IH]; intros Hall (x0 & Hin & Hx0); [contradiction |].
  simpl. destruct (Hall x (or_introl eq_refl)) as [[y Hy] | Hr].
  - rewrite Hy. simpl. rewrite IH; [reflexivity | |].
    + intros z Hz. apply Hall. now right.
    + destruct Hin as [-> | Hin]; [congruence | now exists x0].
  - now rewrite Hr.
Qed.

Lemma in_all_elements (g : GradientSet) (x : R) :
  In x (all_elements g) <-> exists t, In t (dict_values g) /\ In x (data t).
Proof.
  unfold all_elements. rewrite in_concat. split.
  - intros (l & Hl & Hx). apply in_map_iff in Hl. destruct Hl as (t & <- & Ht).
    now exists t.
  - intros (t & Ht & Hx). exists (data t). split; [now apply in_map | exact Hx].
Qed.

(** The largest and the smallest magnitude of a non-empty tensor. *)
Lemma tensor_abs_extrema (t : Tensor) :
  data t <> [] ->
  exists lo hi,
    tensor_min (tensor_map Rabs t) = Ok lo /\
    tensor_max (tensor_map Rabs t) = Ok hi /\
    (forall x, In x (data t) -> lo <= Rabs x <= hi) /\
    (exists x, In x (data t) /\ lo = Rabs x) /\
    (exists x, In x (data t) /\ hi = Rabs x).
Proof.
  intros Hd. unfold tensor_min, tensor_max, tensor_map. simpl.
  destruct (data t) as [| x xs]; [congruence |]. simpl.
  exists (fold_left Rmin (map Rabs xs) (Rabs x)),
         (fold_left Rmax (map Rabs xs) (Rabs x)).
  split; [reflexivity |]. split; [reflexivity |].
  destruct (fold_Rmin_le (map Rabs xs) (Rabs x)) as [L1 L2].
  destruct (fold_Rmax_ge (map Rabs xs) (Rabs x)) as [U1 U2].
  rewrite Forall_forall in L2, U2. split; [| split].
  - intros y [<- | Hy]; [lra |].
    assert (In (Rabs y) (map Rabs xs)) by now apply in_map.
    split; [now apply L2 | now apply U2].
  - pose proof (fold_Rmin_in (map Rabs xs) (Rabs x)) as H.
    change (Rabs x :: map Rabs xs) with (map Rabs (x :: xs)) in H.
    apply in_map_iff in H. destruct H as (y & Hy & Hin). now exists y.
  - pose proof (fold_Rmax_in (map Rabs xs) (Rabs x)) as H.
    change (Rabs x :: map Rabs xs) with (map Rabs (x :: xs)) in H.
    apply in_map_iff in H. destruct H as (y & Hy & Hin). now exists y.
Qed.

Lemma forall2_in_l {A B : Type} (P : A -> B -> Prop) (l : list A) (l' : list B)
  (x : A) :
  Forall2 P l l' -> In x l -> exists y, In y l' /\ P x y.
Proof.
  induction 1 as [| a b l l' Hab _ IH]; intros Hin; [contradiction |].
  destruct Hin as [-> | Hin].
  - exists b. split; [now left | exact Hab].
  - destruct (IH Hin) as (y & Hy & HP). exists y. split; [now right | exact HP].
Qed.

Lemma forall2_in_r {A B : Type} (P : A -> B -> Prop) (l : list A) (l' : list B)
  (y : B) :
  Forall2 P l l' -> In y l' -> exists x, In x l /\ P x y.
Proof.
  induction 1 as [| a b l l' Hab _ IH]; intros Hin; [contradiction |].
  destruct Hin as [-> | Hin].
  - exists a. split; [now left | exact Hab].
  - destruct (IH Hin) as (x & Hx & HP). exists x. split; [now right | exact HP].
Qed.

(** The six entries of [gradient_statistics] on a set with at least one
    tensor, none of them empty. *)
Lemma statistics_fields (g : GradientSet) :
  g <> [] -> Forall (fun t => data t <> []) (dict_values g) ->
  exists st,
    gradient_statistics g = Ok st /\
    num_parameters st = length g /\
    total_elements st = total_numel g /\
    l2_norm st = compute_gradient_norm g /\
    (forall x, In x (all_elements g) ->
       0 <= min_value st <= Rabs x /\ Rabs x <= max_value st) /\
    (exists x, In x (all_elements g) /\ min_value st = Rabs x) /\
    (exists x, In x (all_elements g) /\ max_value st = Rabs x) /\
    max_value st <= l2_norm st /\
    mean_value st = Rsum (map tensor_mean (dict_values g)) / INR (length g).
Proof.
  intros Hne Hall.
  destruct (map_each_exists
              (fun grad => tensor_max (tensor_map Rabs grad))
              (fun t hi => (forall x, In x (data t) -> Rabs x <= hi) /\
                           exists x, In x (data t) /\ hi = Rabs x)
              (dict_values g)) as (maxs & Hmaxs & Fmax).
  { eapply Forall_impl; [| exact Hall]. intros t Ht.
    destruct (tensor_abs_extrema t Ht) as (lo & hi & _ & Hhi & Hb & _ & Hat).
    exists hi. split; [exact Hhi |]. split; [intros x Hx; now apply Hb | exact Hat]. }
  destruct (map_each_exists
              (fun grad => tensor_min (tensor_map Rabs grad))
              (fun t lo => (forall x, In x (data t) -> lo <= Rabs x) /\
                           exists x, In x (data t) /\ lo = Rabs x)
              (dict_values g)) as (mins & Hmins & Fmin).
  { eapply Forall_impl; [| exact Hall]. intros t Ht.
    destruct (tensor_abs_extrema t Ht) as (lo & hi & Hlo & _ & Hb & Hat & _).
    exists lo. split; [exact Hlo |]. split; [intros x Hx; now apply Hb | exact Hat]. }
  assert (Hlen : INR (length g) <> 0).
  { apply not_0_INR. destruct g; [congruence | discriminate]. }
  assert (Hvals : dict_values g <> []).
  { unfold dict_values. destruct g; [congruence | discriminate]. }
  destruct maxs as [| M maxs].
  { inversion Fmax as [E |]. symmetry in E. contradiction. }
  destruct mins as [| m mins].
  { inversion Fmin as [E |]. symmetry in E. contradiction. }
  unfold gradient_statistics. rewrite Hmaxs. simpl. rewrite Hmins. simpl.
  unfold py_div. destruct (Req_dec_T (INR (length g)) 0); [contradiction |].
  simpl. eexists. split; [reflexivity |]. simpl.
  destruct (fold_Rmax_ge maxs M) as [U1 U2].
  destruct (fold_Rmin_le mins m) as [L1 L2].
  assert (Umax : forall y, In y (M :: maxs) -> y <= fold_left Rmax maxs M).
  { intros y [<- | Hy]; [exact U1 |]. rewrite Forall_forall in U2. now apply U2. }
  assert (Lmin : forall y, In y (m :: mins) -> fold_left Rmin mins m <= y).
  { intros y [<- | Hy]; [exact L1 |]. rewrite Forall_forall in L2. now apply L2. }
  assert (Hmin_at : exists x, In x (all_elements g) /\
                              fold_left Rmin mins m = Rabs x).
  { destruct (forall2_in_r _ _ _ _ Fmin (fold_Rmin_in mins m))
      as (t & Ht & _ & x & Hx & E).
    exists x. split; [| exact E]. apply in_all_elements. now exists t. }
  assert (Hmax_at : exists x, In x (all_elements g) /\
                              fold_left Rmax maxs M = Rabs x).
  { destruct (forall2_in_r _ _ _ _ Fmax (fold_Rmax_in maxs M))
      as (t & Ht & _ & x & Hx & E).
    exists x. split; [| exact E]. apply in_all_elements. now exists t. }
  repeat split; trivial.
  - destruct Hmin_at as (x0 & _ & ->). apply Rabs_pos.
  - apply in_all_elements in H. destruct H as (t & Ht & Hx).
    destruct (forall2_in_l _ _ _ _ Fmin Ht) as (lo & Hlo & Hb & _).
    specialize (Hb x Hx). specialize (Lmin lo Hlo). lra.
  - apply in_all_elements in H. destruct H as (t & Ht & Hx).
    destruct (forall2_in_l _ _ _ _ Fmax Ht) as (hi & Hhi & Hb & _).
    specialize (Hb x Hx). specialize (Umax hi Hhi). lra.
  - destruct Hmax_at as (x & Hx & ->). now apply abs_le_norm.
Qed.

(** X4.  On a set with at least one tensor, none of them empty,
    [gradient_statistics] succeeds; it counts the tensors and the elements,
    reports the global norm, and brackets the magnitude of every element
    between [min_value] and [max_value], both of which are magnitudes of
    elements; [max_value] does not exceed the norm. *)
Theorem statistics_bracket_magnitudes (g : GradientSet) :
  g <> [] -> Forall (fun t => data t <> []) (dict_values g) ->
  exists st,
    gradient_statistics g = Ok st /\
    num_parameters st = length g /\
    total_elements st = total_numel g /\
    l2_norm st = compute_gradient_norm g /\
    (forall x, In x (all_elements g) ->
       0 <= min_value st <= Rabs x /\ Rabs x <= max_value st) /\
    (exists x, In x (all_elements g) /\ min_value st = Rabs x) /\
    (exists x, In x (all_elements g) /\ max_value st = Rabs x) /\
    max_value st <= l2_norm st.
Proof.
  intros Hne Hall.
  destruct (statistics_fields g Hne Hall)
    as (st & H1 & H2 & H3 & H4 & H5 & H6 & H7 & H8 & _).
  exists st. split; [exact H1 |]. split; [exact H2 |]. split; [exact H3 |].
  split; [exact H4 |]. split; [exact H5 |]. split; [exact H6 |].
  split; [exact H7 | exact H8].
Qed.

Lemma Rsum_abs_le (l : list R) (M : R) :
  (forall x, In x l -> Rabs x <= M) -> Rabs (Rsum l) <= INR (length l) * M.
Proof.
  induction l as [| x l IH]; intros H.
  - unfold Rsum. simpl. rewrite Rabs_R0. lra.
  - rewrite Rsum_cons. change (length (x :: l)) with (S (length l)).
    rewrite S_INR.
    pose proof (Rabs_triang x (Rsum l)).
    pose proof (H x (or_introl eq_refl)).
    assert (Rabs (Rsum l) <= INR (length l) * M)
      by (apply IH; intros y Hy; apply H; now right).
    lra.
Qed.

Lemma Rsum_concat (ls : list (list R)) :
  Rsum (concat ls) = Rsum (map Rsum ls).
Proof.
  induction ls as [| l ls IH]; simpl; [reflexivity |].
  now rewrite Rsum_app, Rsum_cons, IH.
Qed.

Lemma Rsum_map_div {A : Type} (f : A -> R) (c : R) (l : list A) :
  Rsum (map (fun a => f a / c) l) = Rsum (map f l) / c.
Proof.
  induction l as [| a l IH]; simpl.
  - unfold Rsum. simpl. lra.
  - rewrite !Rsum_cons, IH. lra.
Qed.

Lemma total_numel_uniform (g : GradientSet) (n : nat) :
  Forall (fun t => numel t = n) (dict_values g) ->
  total_numel g = (length g * n)%nat.
Proof.
  unfold total_numel, dict_values.
  induction g as [| [name t] g IH]; simpl; intros H; [reflexivity |].
  apply Forall_cons_iff in H. destruct H as [Ht Hrest].
  rewrite fold_add_shift, (IH Hrest). simpl in Ht. lia.
Qed.

(** The mean of a non-empty tensor is no larger in magnitude than a bound
    on its elements. *)
Lemma tensor_mean_bound (t : Tensor) (M : R) :
  data t <> [] -> (forall x, In x (data t) -> Rabs x <= M) ->
  Rabs (tensor_mean t) <= M.
Proof.
  intros Hd HM. unfold tensor_mean, numel.
  assert (Hn : 0 < INR (length (data t))).
  { apply lt_0_INR. destruct (data t); [congruence | simpl; lia]. }
  pose proof (Rsum_abs_le (data t) M HM) as Hs.
  unfold Rdiv. rewrite Rabs_mult, (Rabs_right (/ _))
    by (apply Rle_ge, Rlt_le, Rinv_0_lt_compat; exact Hn).
  apply Rmult_le_reg_r with (r := INR (length (data t))); [exact Hn |].
  rewrite Rmult_assoc, Rinv_l by lra. lra.
Qed.

(** X5.  [mean_value] is the mean of the per-tensor means, every tensor
    weighing the same whatever its size: it is no larger in magnitude than
    [max_value], and it is the mean of all the elements when all the
    tensors have the same number of elements. *)
Theorem statistics_mean_of_means (g : GradientSet) :
  g <> [] -> Forall (fun t => data t <> []) (dict_values g) ->
  exists st,
    gradient_statistics g = Ok st /\
    mean_value st = Rsum (map tensor_mean (dict_values g)) / INR (length g) /\
    Rabs (mean_value st) <= max_value st /\
    (forall n, Forall (fun t => numel t = n) (dict_values g) ->
       mean_value st = Rsum (all_elements g) / INR (total_numel g)).
Proof.
  intros Hne Hall.
  destruct (statistics_fields g Hne Hall)
    as (st & H1 & _ & _ & _ & H5 & _ & _ & _ & H9).
  exists st. split; [exact H1 |]. split; [exact H9 |].
  assert (HP : 0 < INR (length g)).
  { apply lt_0_INR. destruct g; [congruence | simpl; lia]. }
  split.
  - rewrite H9.
    assert (Hs : Rabs (Rsum (map tensor_mean (dict_values g))) <=
                 INR (length (map tensor_mean (dict_values g))) * max_value st).
    { apply Rsum_abs_le. intros y Hy. apply in_map_iff in Hy.
      destruct Hy as (t & <- & Ht). rewrite Forall_forall in Hall.
      apply tensor_mean_bound; [now apply Hall |].
      intros x Hx. apply H5. apply in_all_elements. now exists t. }
    unfold dict_values in Hs at 2. rewrite !length_map in Hs.
    unfold Rdiv. rewrite Rabs_mult, (Rabs_right (/ _))
      by (apply Rle_ge, Rlt_le, Rinv_0_lt_compat; exact HP).
    apply Rmult_le_reg_r with (r := INR (length g)); [exact HP |].
    rewrite Rmult_assoc, Rinv_l by lra. lra.
  - intros n Hn. rewrite H9, (total_numel_uniform g n Hn).
    assert (Hn0 : 0 < INR n).
    { apply lt_0_INR. destruct g as [| [name t] g]; [congruence |].
      apply Forall_cons_iff in Hn. destruct Hn as [Ht _].
      apply Forall_cons_iff in Hall. destruct Hall as [Hd _].
      simpl in Ht, Hd. rewrite <- Ht. unfold numel.
      destruct (data t); [congruence | simpl; lia]. }
    assert (Hm : map tensor_mean (dict_values g) =
                 map (fun t => Rsum (data t) / INR n) (dict_values g)).
    { apply map_ext_in. intros t Ht. rewrite Forall_forall in Hn.
      unfold tensor_mean. now rewrite (Hn t Ht). }
    rewrite Hm, Rsum_map_div. unfold all_elements.
    rewrite Rsum_concat, map_map, mult_INR. field. lra.
Qed.

(** X6.  A tensor without elements makes [gradient_statistics] fail: torch
    refuses the maximum of an empty tensor with a [RuntimeError]. *)
Theorem statistics_reject_empty_tensor (g : GradientSet) (name : string)
  (t : Tensor) :
  In (name, t) g -> data t = [] -> gradient_statistics g = Raise RuntimeError.
Proof.
  intros Hin Hd. unfold gradient_statistics.
  rewrite (map_each_raises _ RuntimeError); [reflexivity | |].
  - intros t' _. unfold tensor_max, tensor_map. simpl.
    destruct (map Rabs (data t')); [now right | left; eexists; reflexivity].
  - exists t. split.
    + change t with (snd (name, t)). now apply in_map.
    + unfold tensor_max, tensor_map. simpl. now rewrite Hd.
Qed.

(* ================================================================== *)
(** * Further properties: aggregation *)
(* ================================================================== *)

Lemma dict_get_app_fresh {V : Type} (pre rest : dict V) (k : string) (v : V) :
  ~ In k (dict_keys pre) -> dict_get (pre ++ (k, v) :: rest) k = Some v.
Proof.
  induction pre as [| [k' v'] pre IH]; simpl; intros Hk.
  - now rewrite String.eqb_refl.
  - destruct (String.eqb_spec k' k) as [E | E]; [tauto |]. apply IH. tauto.
Qed.

Lemma dict_set_app_fresh {V : Type} (pre rest : dict V) (k : string) (v w : V) :
  ~ In k (dict_keys pre) ->
  dict_set (pre ++ (k, v) :: rest) k w = pre ++ (k, w) :: rest.
Proof.
  induction pre as [| [k' v'] pre IH]; simpl; intros Hk.
  - now rewrite String.eqb_refl.
  - destruct (String.eqb_spec k' k) as [E | E]; [tauto |].
    rewrite IH; [reflexivity | tauto].
Qed.

Lemma layout_keys (g g' : GradientSet) :
  layout g = layout g' -> dict_keys g = dict_keys g'.
Proof.
  intros H. unfold dict_keys.
  assert (E : forall h, map fst (layout h) = map fst h)
    by (intros h; unfold layout; rewrite map_map; now apply map_ext).
  now rewrite <- (E g), <- (E g'), H.
Qed.

(** The inner loop of [aggregate_gradients] over a set laid out like the
    accumulator adds the two tensor by tensor. *)
Lemma accumulate_aligned (pre acc g : GradientSet) :
  layout acc = layout g -> NoDup (dict_keys (pre ++ acc)) ->
  for_each g accumulate (pre ++ acc) = Ok (pre ++ add_sets acc g).
Proof.
  revert pre g. induction acc as [| [k a] acc IH]; intros pre [| [k' b] g] HL Hnd;
    try discriminate; simpl.
  - reflexivity.
  - inversion HL as [[Hk Hs Hlen HL']]. subst k'.
    assert (Hfresh : ~ In k (dict_keys pre)).
    { unfold dict_keys in *. rewrite map_app in Hnd.
      apply NoDup_remove_2 in Hnd. intros Hin. apply Hnd.
      apply in_or_app. now left. }
    unfold accumulate at 1. simpl fst. simpl snd.
    rewrite dict_get_app_fresh by exact Hfresh.
    unfold tensor_iadd. rewrite Hs, shape_eqb_refl. cbn [bind].
    rewrite dict_set_app_fresh by exact Hfresh.
    change (pre ++ (k, {| shape := shape b;
                          data := zip_with Rplus (data a) (data b) |}) :: acc)
      with (pre ++ [(k, mkTensor (shape b) (zip_with Rplus (data a) (data b)))] ++ acc).
    rewrite app_assoc, IH; trivial.
    + rewrite <- app_assoc. unfold add_sets. simpl. now rewrite Hs.
    + rewrite <- app_assoc. unfold dict_keys in *. rewrite !map_app in *. exact Hnd.
Qed.

Lemma zip_with_length {A B C : Type} (f : A -> B -> C) (l : list A) (l' : list B) :
  length l = length l' -> length (zip_with f l l') = length l.
Proof.
  revert l'. induction l as [| x l IH]; intros [| y l'] H; simpl in *;
    try discriminate; [reflexivity |].
  f_equal. apply IH. now inversion H.
Qed.

Lemma add_sets_layout (acc g : GradientSet) :
  layout acc = layout g -> layout (add_sets acc g) = layout acc.
Proof.
  revert g. induction acc as [| [k a] acc IH]; intros [| [k' b] g] HL;
    try discriminate; [reflexivity |].
  inversion HL as [[Hk Hs Hlen HL']]. specialize (IH g HL').
  unfold layout, add_sets in *. simpl. rewrite IH.
  now rewrite zip_with_length.
Qed.

Lemma fold_add_sets_layout (gl : list GradientSet) (acc : GradientSet) :
  (forall g, In g gl -> layout g = layout acc) ->
  layout (fold_left add_sets gl acc) = layout acc.
Proof.
  revert acc. induction gl as [| g gl IH]; intros acc Hall; simpl; [reflexivity |].
  assert (HL : layout acc = layout g) by (symmetry; apply Hall; now left).
  pose proof (add_sets_layout acc g HL) as HL'.
  rewrite IH; [exact HL' |].
  intros g' Hg'. rewrite HL'. apply Hall. now right.
Qed.

(** The outer loop of [aggregate_gradients] over sets of one layout. *)
Lemma accumulate_all (gl : list GradientSet) (acc : GradientSet) :
  NoDup (dict_keys acc) ->
  (forall g, In g gl -> layout g = layout acc) ->
  for_each gl (fun acc gradients : GradientSet =>
                 for_each gradients accumulate acc) acc =
  Ok (fold_left add_sets gl acc).
Proof.
  revert acc. induction gl as [| g gl IH]; intros acc Hnd Hall; simpl;
    [reflexivity |].
  assert (HL : layout acc = layout g) by (symmetry; apply Hall; now left).
  pose proof (accumulate_aligned [] acc g HL Hnd) as Hstep. simpl in Hstep.
  rewrite Hstep. simpl.
  pose proof (add_sets_layout acc g HL) as HL'.
  apply IH.
  - now rewrite (layout_keys _ _ HL').
  - intros g' Hg'. rewrite HL'. apply Hall. now right.
Qed.

(** The averaging loop of [aggregate_gradients]. *)
Lemma average_aligned (n : nat) (pre todo : GradientSet) :
  NoDup (dict_keys (pre ++ todo)) ->
  for_each (dict_keys todo) (average n) (pre ++ todo) =
  Ok (pre ++ map (fun it => (fst it,
                             tensor_map (fun x => x / INR n) (snd it))) todo).
Proof.
  revert pre. induction todo as [| [k t] todo IH]; intros pre Hnd; simpl;
    [reflexivity |].
  assert (Hfresh : ~ In k (dict_keys pre)).
  { unfold dict_keys in *. rewrite map_app in Hnd.
    apply NoDup_remove_2 in Hnd. intros Hin. apply Hnd.
    apply in_or_app. now left. }
  unfold average at 1. rewrite dict_get_app_fresh by exact Hfresh.
  rewrite dict_set_app_fresh by exact Hfresh. cbn [bind].
  change (pre ++ (k, tensor_map (fun x => x / INR n) t) :: todo)
    with (pre ++ [(k, tensor_map (fun x => x / INR n) t)] ++ todo).
  rewrite app_assoc, IH.
  - now rewrite <- app_assoc.
  - rewrite <- app_assoc. unfold dict_keys in *. rewrite !map_app in *. exact Hnd.
Qed.

Lemma zeros_closed_form (first : GradientSet) :
  NoDup (dict_keys first) ->
  fold_left (fun acc item => dict_set acc (fst item) (zeros_like (snd item)))
            first [] =
  map (fun it => (fst it, zeros_like (snd it))) first.
Proof.
  intros Hnd.
  now rewrite (fold_left_dict_set (fun it => zeros_like (snd it)))
    by (trivial; simpl; tauto).
Qed.

Lemma zeros_keep_layout (first : GradientSet) :
  layout (map (fun it => (fst it, zeros_like (snd it))) first) = layout first.
Proof.
  unfold layout. rewrite map_map. apply map_ext. intros [k t]. simpl.
  now rewrite length_map.
Qed.

(** [aggregate_gradients] on sets of one layout, in closed form. *)
Lemma aggregate_closed_form (first : GradientSet) (rest : list GradientSet) :
  NoDup (dict_keys first) ->
  (forall g, In g rest -> layout g = layout first) ->
  aggregate_gradients (first :: rest) =
  Ok (map (fun it => (fst it,
                      tensor_map (fun x => x / INR (length (first :: rest)))
                                 (snd it)))
          (fold_left add_sets (first :: rest)
                     (map (fun it => (fst it, zeros_like (snd it))) first))).
Proof.
  intros Hnd Hall. unfold aggregate_gradients.
  rewrite (zeros_closed_form first Hnd).
  set (zeros := map (fun it => (fst it, zeros_like (snd it))) first).
  assert (HZ : layout zeros = layout first) by apply zeros_keep_layout.
  assert (Hndz : NoDup (dict_keys zeros)) by now rewrite (layout_keys _ _ HZ).
  rewrite (accumulate_all (first :: rest) zeros Hndz).
  - cbn [bind].
    set (summed := fold_left add_sets (first :: rest) zeros).
    assert (HS : layout summed = layout zeros).
    { apply fold_add_sets_layout.
      intros g [<- | Hg]; [now rewrite HZ | rewrite HZ; now apply Hall]. }
    apply (average_aligned _ [] summed). simpl.
    now rewrite (layout_keys _ _ HS).
  - intros g [<- | Hg]; [now rewrite HZ | rewrite HZ; now apply Hall].
Qed.

Lemma nth_zip_with_plus (l l' : list R) (j : nat) :
  length l = length l' ->
  nth j (zip_with Rplus l l') 0 = nth j l 0 + nth j l' 0.
Proof.
  revert l' j. induction l as [| x l IH]; intros [| y l'] j H; simpl in *;
    try discriminate.
  - destruct j; lra.
  - destruct j as [| j]; [reflexivity |]. apply IH. now inversion H.
Qed.

Lemma element_add_sets (acc g : GradientSet) (name : string) (j : nat) :
  layout acc = layout g ->
  element (add_sets acc g) name j = element acc name j + element g name j.
Proof.
  revert g. induction acc as [| [k a] acc IH]; intros [| [k' b] g] HL;
    try discriminate.
  - unfold element. simpl. lra.
  - inversion HL as [[Hk Hs Hlen HL']]. subst k'. specialize (IH g HL').
    unfold element, add_sets in *. simpl.
    destruct (String.eqb k name); [| exact IH].
    simpl. now apply nth_zip_with_plus.
Qed.

Lemma element_fold_add_sets (gl : list GradientSet) (acc : GradientSet)
  (name : string) (j : nat) :
  (forall g, In g gl -> layout g = layout acc) ->
  element (fold_left add_sets gl acc) name j =
  element acc name j + Rsum (map (fun g => element g name j) gl).
Proof.
  revert acc. induction gl as [| g gl IH]; intros acc Hall; simpl.
  - unfold Rsum. simpl. lra.
  - assert (HL : layout acc = layout g) by (symmetry; apply Hall; now left).
    rewrite IH.
    + rewrite (element_add_sets acc g name j HL), Rsum_cons. lra.
    + intros g' Hg'. rewrite (add_sets_layout acc g HL). apply Hall. now right.
Qed.

Lemma element_zeros (first : GradientSet) (name : string) (j : nat) :
  element (map (fun it => (fst it, zeros_like (snd it))) first) name j = 0.
Proof.
  unfold element. rewrite (dict_get_map zeros_like).
  destruct (dict_get first name) as [t |]; simpl; [| reflexivity].
  generalize (data t) as l. clear. intros l. revert j.
  induction l as [| x l IH]; intros [| j]; simpl; trivial.
Qed.

Lemma element_averaged (n : nat) (s : GradientSet) (name : string) (j : nat) :
  element (map (fun it => (fst it, tensor_map (fun x => x / INR n) (snd it))) s)
          name j =
  element s name j / INR n.
Proof.
  unfold element. rewrite (dict_get_map (tensor_map (fun x => x / INR n))).
  destruct (dict_get s name) as [t |]; simpl; [| lra].
  replace 0 with (0 / INR n) at 1 by (unfold Rdiv; ring).
  apply (map_nth (fun x => x / INR n)).
Qed.

Lemma averaged_layout (n : nat) (s : GradientSet) :
  layout (map (fun it => (fst it, tensor_map (fun x => x / INR n) (snd it))) s) =
  layout s.
Proof.
  unfold layout. rewrite map_map. apply map_ext. intros [k t]. simpl.
  now rewrite length_map.
Qed.

(** X7.  On sets that all have the names (in the same order), the shapes and
    the element counts of the first one, [aggregate_gradients] succeeds,
    keeps that layout, and every element of the result is the arithmetic
    mean of the corresponding elements. *)
Theorem aggregate_is_elementwise_mean (first : GradientSet)
  (rest : list GradientSet) :
  NoDup (dict_keys first) ->
  (forall g, In g rest -> layout g = layout first) ->
  exists r,
    aggregate_gradients (first :: rest) = Ok r /\
    layout r = layout first /\
    forall name j,
      element r name j =
      Rsum (map (fun g => element g name j) (first :: rest)) /
      INR (length (first :: rest)).
Proof.
  intros Hnd Hall. eexists. split; [now apply aggregate_closed_form |].
  assert (Hgl : forall g, In g (first :: rest) ->
                  layout g = layout (map (fun it => (fst it, zeros_like (snd it))) first)).
  { intros g Hg. rewrite zeros_keep_layout.
    destruct Hg as [<- | Hg]; [reflexivity | now apply Hall]. }
  split.
  - now rewrite averaged_layout, fold_add_sets_layout, zeros_keep_layout.
  - intros name j.
    now rewrite element_averaged, element_fold_add_sets, element_zeros, Rplus_0_l.
Qed.

Lemma zip_zero_then_scale (l : list R) :
  map (fun x => x / INR 1) (zip_with Rplus (map (fun _ => 0) l) l) = l.
Proof.
  induction l as [| x l IH]; simpl; [reflexivity |].
  simpl in IH. rewrite IH. f_equal. lra.
Qed.

Lemma singleton_closed_form (g : GradientSet) :
  map (fun it => (fst it, tensor_map (fun x => x / INR 1) (snd it)))
      (add_sets (map (fun it => (fst it, zeros_like (snd it))) g) g) = g.
Proof.
  induction g as [| [k t] g IH]; [reflexivity |].
  unfold add_sets in *. cbn [map zip_with fst snd]. rewrite IH. f_equal.
  destruct t as [sh dt]. unfold tensor_map, zeros_like, tensor_map.
  cbn [shape data]. f_equal. f_equal. apply zip_zero_then_scale.
Qed.

(** X8.  Aggregating a single set gives the set back. *)
Theorem aggregate_singleton (g : GradientSet) :
  NoDup (dict_keys g) -> aggregate_gradients [g] = Ok g.
Proof.
  intros Hnd. rewrite (aggregate_closed_form g [] Hnd) by (intros ? []).
  apply (f_equal Ok). apply singleton_closed_form.
Qed.

Lemma zip_swap (la lb : list R) :
  length la = length lb ->
  zip_with Rplus (zip_with Rplus (map (fun _ => 0) la) la) lb =
  zip_with Rplus (zip_with Rplus (map (fun _ => 0) lb) lb) la.
Proof.
  revert lb. induction la as [| x la IH]; intros [| y lb] H; simpl in *;
    try discriminate; [reflexivity |].
  rewrite (IH lb) by now inversion H. f_equal. lra.
Qed.

Lemma swap_closed_form (a b : GradientSet) :
  layout b = layout a ->
  add_sets (add_sets (map (fun it => (fst it, zeros_like (snd it))) a) a) b =
  add_sets (add_sets (map (fun it => (fst it, zeros_like (snd it))) b) b) a.
Proof.
  revert b. induction a as [| [k ta] a IH]; intros [| [k' tb] b] HL;
    try discriminate; [reflexivity |].
  inversion HL as [[Hk Hs Hlen HL']]. subst k'. specialize (IH b HL').
  unfold add_sets in *. cbn [map zip_with fst snd shape data zeros_like tensor_map].
  rewrite IH, Hs. f_equal. f_equal. f_equal. symmetry. now apply zip_swap.
Qed.

(** X9.  Aggregation of two sets of one layout does not depend on their
    order. *)
Theorem aggregate_two_commutes (a b : GradientSet) :
  NoDup (dict_keys a) -> layout b = layout a ->
  aggregate_gradients [a; b] = aggregate_gradients [b; a].
Proof.
  intros Hnd HL.
  assert (Hndb : NoDup (dict_keys b)) by now rewrite (layout_keys _ _ HL).
  rewrite (aggregate_closed_form a [b] Hnd)
    by (intros g [<- | []]; exact HL).
  rewrite (aggregate_closed_form b [a] Hndb)
    by (intros g [<- | []]; now symmetry).
  apply (f_equal Ok).
  apply (f_equal (map (fun it => (fst it, tensor_map (fun x => x / INR 2) (snd it))))).
  apply swap_closed_form. exact HL.
Qed.

(* ================================================================== *)
(** * Further properties: the quantizer *)
(* ================================================================== *)

Lemma round_half_even_bracket (x : R) :
  (Rfloor x <= round_half_even x <= Rfloor x + 1)%Z.
Proof.
  unfold round_half_even.
  destruct (Rlt_dec (x - IZR (Rfloor x)) (1 / 2)); [lia |].
  destruct (Rlt_dec (1 / 2) (x - IZR (Rfloor x))); [lia |].
  destruct (Z.even (Rfloor x)); lia.
Qed.

Lemma Rfloor_mono (x y : R) : x <= y -> (Rfloor x <= Rfloor y)%Z.
Proof.
  intros Hxy. destruct (Rfloor_spec x) as [Xlo Xhi], (Rfloor_spec y) as [Ylo Yhi].
  assert (H : (Rfloor x < Rfloor y + 1)%Z) by (apply lt_IZR; rewrite plus_IZR; lra).
  lia.
Qed.

(** Rounding to the nearest integer keeps the order. *)
Lemma round_half_even_mono (x y : R) :
  x <= y -> (round_half_even x <= round_half_even y)%Z.
Proof.
  intros Hxy. pose proof (Rfloor_mono x y Hxy) as Hf.
  pose proof (round_half_even_bracket x) as Bx.
  pose proof (round_half_even_bracket y) as By.
  destruct (Z.eq_dec (Rfloor x) (Rfloor y)) as [E | E]; [| lia].
  unfold round_half_even. rewrite <- E.
  destruct (Rlt_dec (x - IZR (Rfloor x)) (1 / 2)) as [Hx | Hx].
  - destruct (Rlt_dec (y - IZR (Rfloor x)) (1 / 2)); [lia |].
    destruct (Rlt_dec (1 / 2) (y - IZR (Rfloor x))); [lia |].
    destruct (Z.even (Rfloor x)); lia.
  - destruct (Rlt_dec (y - IZR (Rfloor x)) (1 / 2)) as [Hy | Hy]; [lra |].
    destruct (Rlt_dec (1 / 2) (x - IZR (Rfloor x))) as [Hx' | Hx'].
    + destruct (Rlt_dec (1 / 2) (y - IZR (Rfloor x))); [lia | lra].
    + destruct (Rlt_dec (1 / 2) (y - IZR (Rfloor x))).
      * destruct (Z.even (Rfloor x)); lia.
      * destruct (Z.even (Rfloor x)); lia.
Qed.

(** What a non-constant tensor becomes, element by element, at a bit
    width between 1 and 8. *)
Lemma restored_element (b : Z) (t : Tensor) (lo hi : R) :
  (1 <= b <= 8)%Z -> tensor_min t = Ok lo -> tensor_max t = Ok hi ->
  (forall x, In x (data t) -> lo <= x <= hi) ->
  0 < tensor_scale b t ->
  tensor_scale b t = (hi - lo) / IZR (2 ^ b - 1) /\
  stored_bytes b t =
    map (fun x => round_half_even ((x - lo) / tensor_scale b t)) (data t) /\
  data (restored b t) =
    map (fun x => IZR (round_half_even ((x - lo) / tensor_scale b t)) *
                  tensor_scale b t + lo) (data t).
Proof.
  intros Hb Hmin Hmax Hall Hpos.
  pose proof (levels_bound b Hb) as Hm.
  assert (Hpow : powerRZ 2 b - 1 = IZR (2 ^ b - 1)).
  { rewrite powerRZ_2_nonneg by lia. now rewrite minus_IZR. }
  assert (Hscale : tensor_scale b t = (hi - lo) / IZR (2 ^ b - 1)).
  { unfold tensor_scale. now rewrite Hmin, Hmax, Hpow. }
  assert (Hzero : stored_zero_point t = lo).
  { unfold stored_zero_point. now rewrite Hmin. }
  assert (Hbytes : stored_bytes b t =
                   map (fun x => round_half_even ((x - lo) / tensor_scale b t))
                       (data t)).
  { unfold stored_bytes.
    destruct (Rlt_dec 0 (tensor_scale b t)); [| contradiction].
    unfold quantize_levels. rewrite map_map. apply map_ext_in. intros x Hx.
    rewrite Hzero, Hpow, Hscale. rewrite Hscale in Hpos.
    now destruct (quantize_element (2 ^ b - 1) lo hi x Hm (Hall x Hx) Hpos)
      as (_ & H & _). }
  split; [exact Hscale |]. split; [exact Hbytes |].
  rewrite restored_data, Hbytes, map_map, Hzero. unfold stored_scale.
  destruct (Rlt_dec 0 (tensor_scale b t)); [reflexivity | contradiction].
Qed.

(** What a constant tensor becomes. *)
Lemma restored_constant (b : Z) (t : Tensor) :
  data t <> [] -> (1 <= b <= 8)%Z -> ~ 0 < tensor_scale b t ->
  restored b t = t /\ stored_bytes b t = map (fun _ => 0%Z) (data t) /\
  stored_scale b t = 0.
Proof.
  intros Hd Hb Hn.
  assert (Hs0 : tensor_scale b t = 0).
  { destruct (tensor_min_max t Hd) as (lo & hi & Hmin & Hmax & Hle & _).
    pose proof (levels_bound b Hb) as Hm.
    assert (Hm' : 1 <= IZR (2 ^ b - 1)) by (apply IZR_le; lia).
    unfold tensor_scale in *. rewrite Hmin, Hmax in *.
    rewrite powerRZ_2_nonneg in * by lia. rewrite <- minus_IZR in *.
    assert (0 <= (hi - lo) / IZR (2 ^ b - 1)).
    { apply Rmult_le_pos; [lra |]. apply Rlt_le, Rinv_0_lt_compat. lra. }
    lra. }
  destruct (restored_close b t Hd Hb) as (_ & _ & Hexact).
  split; [now apply Hexact |].
  unfold stored_bytes, stored_scale.
  destruct (Rlt_dec 0 (tensor_scale b t)); [contradiction | split; reflexivity].
Qed.

Lemma nth_map_in_range {A : Type} (f : A -> R) (l : list A) (d : A) (i : nat) :
  (i < length l)%nat -> nth i (map f l) 0 = f (nth i l d).
Proof.
  intros Hi. rewrite (nth_indep _ 0 (f d)) by now rewrite length_map.
  apply map_nth.
Qed.

Lemma bits_denominator (b : Z) : (1 <= b <= 8)%Z -> powerRZ 2 b - 1 <> 0.
Proof.
  intros Hb. rewrite powerRZ_2_nonneg by lia. rewrite <- minus_IZR.
  pose proof (levels_bound b Hb). apply not_0_IZR. lia.
Qed.

(** The bytes and the step stored for one tensor, at a bit width between
    1 and 8. *)
Lemma stored_in_range (b : Z) (t : Tensor) :
  data t <> [] -> (1 <= b <= 8)%Z ->
  Forall (fun q => (0 <= q <= 2 ^ b - 1)%Z) (stored_bytes b t) /\
  0 <= stored_scale b t /\
  (stored_scale b t = 0 -> Forall (fun q => q = 0%Z) (stored_bytes b t)).
Proof.
  intros Hd Hb.
  destruct (tensor_min_max t Hd) as (lo & hi & Hmin & Hmax & Hle & Hall).
  rewrite Forall_forall in Hall.
  pose proof (levels_bound b Hb) as Hm.
  destruct (Rlt_dec 0 (tensor_scale b t)) as [Hpos | Hnpos].
  - destruct (restored_element b t lo hi Hb Hmin Hmax Hall Hpos)
      as (Hscale & Hbytes & _).
    assert (Hst : stored_scale b t = tensor_scale b t).
    { unfold stored_scale.
      destruct (Rlt_dec 0 (tensor_scale b t)); [reflexivity | contradiction]. }
    rewrite Hst. split; [| split; [lra | intros E; lra]].
    rewrite Hbytes. apply Forall_forall. intros q Hq.
    apply in_map_iff in Hq. destruct Hq as (x & <- & Hx).
    apply round_half_even_range.
    assert (Hm' : 1 <= IZR (2 ^ b - 1)) by (apply IZR_le; lia).
    assert (Hsm : tensor_scale b t * IZR (2 ^ b - 1) = hi - lo)
      by (rewrite Hscale; field; lra).
    specialize (Hall x Hx).
    set (s := tensor_scale b t) in *. clearbody s.
    assert (Hy : (x - lo) / s * s = x - lo) by (field; lra).
    assert (Hy0 : 0 <= (x - lo) / s).
    { apply Rmult_le_pos; [lra |]. now apply Rlt_le, Rinv_0_lt_compat. }
    split; [exact Hy0 | nra].
  - destruct (restored_constant b t Hd Hb Hnpos) as (_ & Hbytes & Hst).
    rewrite Hbytes, Hst. split; [| split; [lra | intros _]].
    + apply Forall_forall. intros q Hq. apply in_map_iff in Hq.
      destruct Hq as (x & <- & _). lia.
    + apply Forall_forall. intros q Hq. apply in_map_iff in Hq.
      now destruct Hq as (x & <- & _).
Qed.

(** X12.  Quantizing with 1 to 8 bits stores, for every tensor, one level per
    element, each between [0] and [2^bits - 1], under the tensor's own shape,
    together with a non-negative step and the tensor's minimum as zero
    point; when the step is [0] every stored level is [0]. *)
Theorem quantized_payload_in_range (g : GradientSet) (b : Z) :
  wf_gradients g -> (1 <= b <= 8)%Z ->
  exists q p,
    quantize_gradients g b =
      Ok (PyDict [("gradients", PyDict q); ("params", PyDict p)]) /\
    dict_keys q = dict_keys g /\ dict_keys p = dict_keys g /\
    forall name t, In (name, t) g ->
      exists levels step lo,
        dict_get q name = Some (PyByteTensor (mkByteTensor (shape t) levels)) /\
        dict_get p name =
          Some (PyDict [("scale", PyFloat step); ("zero_point", PyFloat lo)]) /\
        length levels = numel t /\
        Forall (fun l => (0 <= l <= 2 ^ b - 1)%Z) levels /\
        0 <= step /\ tensor_min t = Ok lo /\
        (step = 0 -> Forall (fun l => l = 0%Z) levels).
Proof.
  intros Hwf Hb.
  exists (map (fun it => (fst it, stored_tensor b (snd it))) g),
         (map (fun it => (fst it, stored_params b (snd it))) g).
  split; [apply quantize_gradients_eq; [exact Hwf | now apply bits_denominator] |].
  unfold dict_keys at 1 3. rewrite !map_fst_pair.
  split; [reflexivity |]. split; [reflexivity |].
  intros name t Hin.
  pose proof (wf_tensor_data t (wf_gradients_in g name t Hwf Hin)) as Hd.
  destruct (tensor_min_max t Hd) as (lo & hi & Hmin & _).
  destruct (stored_in_range b t Hd Hb) as (Hrange & Hstep & Hzero).
  destruct Hwf as [Hnd _].
  exists (stored_bytes b t), (stored_scale b t), lo.
  split; [| split; [| split; [| split; [| split; [| split]]]]].
  - apply dict_get_in; [unfold dict_keys; now rewrite map_fst_pair |].
    apply (in_map (fun it => (fst it, stored_tensor b (snd it))) g _ Hin).
  - apply dict_get_in; [unfold dict_keys; now rewrite map_fst_pair |].
    replace lo with (stored_zero_point t)
      by (unfold stored_zero_point; now rewrite Hmin).
    apply (in_map (fun it => (fst it, stored_params b (snd it))) g _ Hin).
  - apply stored_bytes_length.
  - exact Hrange.
  - exact Hstep.
  - exact Hmin.
  - exact Hzero.
Qed.

(** One tensor through the quantizer and back: every element goes through
    one non-decreasing function that fixes the minimum and the maximum of
    the tensor. *)
Lemma restored_monotone (b : Z) (t : Tensor) :
  data t <> [] -> (1 <= b <= 8)%Z ->
  exists lo hi F,
    tensor_min t = Ok lo /\ tensor_max t = Ok hi /\
    (forall x, In x (data t) -> lo <= x <= hi) /\
    data (restored b t) = map F (data t) /\
    (forall x y, x <= y -> F x <= F y) /\ F lo = lo /\ F hi = hi.
Proof.
  intros Hd Hb.
  destruct (tensor_min_max t Hd) as (lo & hi & Hmin & Hmax & Hle & Hall).
  rewrite Forall_forall in Hall.
  pose proof (levels_bound b Hb) as Hm.
  destruct (Rlt_dec 0 (tensor_scale b t)) as [Hpos | Hnpos].
  - destruct (restored_element b t lo hi Hb Hmin Hmax Hall Hpos)
      as (Hscale & _ & Hdata).
    assert (Hm' : 1 <= IZR (2 ^ b - 1)) by (apply IZR_le; lia).
    assert (Hsm : tensor_scale b t * IZR (2 ^ b - 1) = hi - lo)
      by (rewrite Hscale; field; lra).
    set (s := tensor_scale b t) in *. clearbody s.
    exists lo, hi, (fun x => IZR (round_half_even ((x - lo) / s)) * s + lo).
    repeat split; trivial; try (now apply Hall).
    + intros x y Hxy.
      assert (Hq : (x - lo) / s <= (y - lo) / s).
      { apply Rmult_le_compat_r; [now apply Rlt_le, Rinv_0_lt_compat | lra]. }
      pose proof (IZR_le _ _ (round_half_even_mono _ _ Hq)). nra.
    + replace ((lo - lo) / s) with (IZR 0) by (simpl; field; lra).
      rewrite round_half_even_IZR. simpl. ring.
    + replace ((hi - lo) / s) with (IZR (2 ^ b - 1)) by (field_simplify_eq; lra).
      rewrite round_half_even_IZR. lra.
  - destruct (restored_constant b t Hd Hb Hnpos) as (Hsame & _).
    exists lo, hi, (fun x => x). rewrite Hsame, map_id.
    repeat split; trivial; now apply Hall.
Qed.

Lemma in_combine_map {A B : Type} (f : A -> B) (l : list A) (x : A) (y : B) :
  In (x, y) (combine l (map f l)) -> In x l /\ y = f x.
Proof.
  induction l as [| a l IH]; simpl; [contradiction |].
  intros [E | H].
  - inversion E; subst. split; [now left | reflexivity].
  - destruct (IH H) as [H1 H2]. split; [now right | exact H2].
Qed.

(** X13.  Quantizing with 1 to 8 bits and dequantizing keeps the order of
    the elements inside every tensor (an element that is not larger than
    another is not rebuilt larger), rebuilds the smallest element of every
    tensor exactly, and rebuilds no element below it. *)
Theorem quantize_roundtrip_keeps_order (g : GradientSet) (b : Z) :
  wf_gradients g -> (1 <= b <= 8)%Z ->
  exists payload g',
    quantize_gradients g b = Ok payload /\
    dequantize_gradients payload = Ok g' /\
    Forall2 (fun t t' =>
               exists lo,
                 tensor_min t = Ok lo /\
                 length (data t') = length (data t) /\
                 forall x x', In (x, x') (combine (data t) (data t')) ->
                   lo <= x' /\
                   (x = lo -> x' = lo) /\
                   forall y y', In (y, y') (combine (data t) (data t')) ->
                     x <= y -> x' <= y')
            (dict_values g) (dict_values g').
Proof.
  intros Hwf Hb.
  destruct (dequantize_quantize_eq g b Hwf (bits_denominator b Hb))
    as (payload & Hq & Hdq).
  exists payload, (map (fun it => (fst it, restored b (snd it))) g).
  split; [exact Hq |]. split; [exact Hdq |].
  destruct Hwf as [Hnd Hwf]. rewrite Forall_forall in Hwf.
  unfold dict_values. rewrite map_snd_pair.
  rewrite <- (map_map snd (restored b)).
  rewrite <- (map_id (map snd g)) at 1. apply Forall2_map_same.
  intros t Ht.
  destruct (restored_monotone b t (wf_tensor_data t (Hwf t Ht)) Hb)
    as (lo & hi & F & Hmin & Hmax & Hall & Hdata & Hmono & Hlo & Hhi).
  exists lo. rewrite Hdata, length_map.
  split; [exact Hmin |]. split; [reflexivity |].
  intros x x' Hx. apply in_combine_map in Hx. destruct Hx as [Hx ->].
  specialize (Hall x Hx).
  split; [| split].
  - rewrite <- Hlo. apply Hmono. lra.
  - intros ->. exact Hlo.
  - intros y y' Hy Hxy. apply in_combine_map in Hy. destruct Hy as [_ ->].
    now apply Hmono.
Qed.

(** A loop whose body, on every item, either returns or raises [e], and
    that meets an item on which it raises [e] whatever the accumulator,
    raises [e]. *)
Lemma for_each_raises {A S : Type} (body : S -> A -> result S) (e : exn)
  (items : list A) (acc : S) :
  (forall s x, In x items -> (exists s', body s x = Ok s') \/ body s x = Raise e) ->
  (exists x, In x items /\ forall s, body s x = Raise e) ->
  for_each items body acc = Raise e.
Proof.
  revert acc. induction items as [| y items IH]; intros acc Hall (x & Hin & Hx);
    [contradiction |].
  simpl. destruct (Hall acc y (or_introl eq_refl)) as [[s' Hs'] | Hr].
  - rewrite Hs'. simpl. apply IH.
    + intros s z Hz. apply Hall. now right.
    + destruct Hin as [-> | Hin]; [rewrite Hx in Hs'; discriminate | now exists x].
  - now rewrite Hr.
Qed.

Lemma negative_power_of_two (b : Z) : (b < 0)%Z -> 0 < powerRZ 2 b < 1.
Proof.
  intros Hb. destruct b as [| p | p]; try lia. simpl.
  assert (H : 1 < 2 ^ Pos.to_nat p).
  { apply Rlt_pow_R1; [lra | apply Pos2Nat.is_pos]. }
  split.
  - apply Rinv_0_lt_compat. lra.
  - rewrite <- Rinv_1. apply Rinv_lt_contravar; lra.
Qed.

Lemma nonzero_bits_denominator (b : Z) : b <> 0%Z -> powerRZ 2 b - 1 <> 0.
Proof.
  intros Hb. destruct (Z.lt_trichotomy b 0) as [Hn | [E | Hp]]; [| contradiction |].
  - pose proof (negative_power_of_two b Hn). lra.
  - rewrite powerRZ_2_nonneg by lia.
    assert (H : (2 ^ 1 <= 2 ^ b)%Z) by (apply Z.pow_le_mono_r; lia).
    change (2 ^ 1)%Z with 2%Z in H. apply IZR_le in H. lra.
Qed.

(** X14.  Zero bits are refused only by the division: on a set of the data model
    with at least one tensor, [quantize_gradients] with [num_bits = 0]
    raises ZeroDivisionError, while on the empty set it returns the empty
    payload. *)
Theorem quantize_zero_bits_divides_by_zero (g : GradientSet) :
  wf_gradients g -> g <> [] ->
  quantize_gradients g 0 = Raise ZeroDivisionError /\
  quantize_gradients [] 0 =
    Ok (PyDict [("gradients", PyDict []); ("params", PyDict [])]).
Proof.
  intros Hwf Hg. split; [| reflexivity].
  destruct g as [| [name t] rest]; [congruence |].
  pose proof (wf_tensor_data t (wf_gradients_in _ name t Hwf (or_introl eq_refl)))
    as Hd.
  destruct (tensor_min_max t Hd) as (lo & hi & Hmin & Hmax & _).
  unfold quantize_gradients. simpl. unfold quantize_step at 1. simpl.
  rewrite Hmin, Hmax. simpl. unfold py_div.
  destruct (Req_dec_T (1 - 1) 0) as [_ | H]; [reflexivity | lra].
Qed.

(** X15.  A tensor without elements makes the quantizer raise RuntimeError
    (its minimum does not exist), for every bit width up to 8 other than
    [0], negative ones included, and wherever the tensor stands in the
    set. *)
Theorem quantize_rejects_empty_tensor (g : GradientSet) (b : Z) (name : string)
  (t : Tensor) :
  b <> 0%Z -> (b <= 8)%Z -> In (name, t) g -> data t = [] ->
  quantize_gradients g b = Raise RuntimeError.
Proof.
  intros Hb _ Hin Hd. unfold quantize_gradients.
  rewrite (for_each_raises (quantize_step b) RuntimeError); [reflexivity | |].
  - intros s [n' t'] _.
    destruct (data t') as [| x xs] eqn:Hd'.
    + right. unfold quantize_step, tensor_min. simpl. now rewrite Hd'.
    + left. eexists. apply quantize_step_eq; [rewrite Hd'; discriminate |].
      now apply nonzero_bits_denominator.
  - exists (name, t). split; [exact Hin |]. intros s.
    unfold quantize_step, tensor_min. simpl. now rewrite Hd.
Qed.

(** X16.  A negative bit width is not refused: the quantizer takes every tensor
    for a constant one, and the round trip rebuilds every element as the
    minimum of its tensor. *)
Theorem quantize_negative_bits_flatten (g : GradientSet) (b : Z) :
  wf_gradients g -> (b < 0)%Z ->
  exists payload g',
    quantize_gradients g b = Ok payload /\
    dequantize_gradients payload = Ok g' /\
    dict_keys g' = dict_keys g /\
    Forall2 (fun t t' =>
               exists lo, tensor_min t = Ok lo /\ shape t' = shape t /\
                          data t' = map (fun _ => lo) (data t))
            (dict_values g) (dict_values g').
Proof.
  intros Hwf Hb.
  assert (Hden : powerRZ 2 b - 1 <> 0) by (apply nonzero_bits_denominator; lia).
  destruct (dequantize_quantize_eq g b Hwf Hden) as (payload & Hq & Hdq).
  exists payload, (map (fun it => (fst it, restored b (snd it))) g).
  split; [exact Hq |]. split; [exact Hdq |].
  unfold dict_keys, dict_values. rewrite map_fst_pair, map_snd_pair.
  split; [reflexivity |].
  rewrite <- (map_map snd (restored b)).
  rewrite <- (map_id (map snd g)) at 1. apply Forall2_map_same.
  intros t Ht. destruct Hwf as [_ Hwf]. rewrite Forall_forall in Hwf.
  destruct (tensor_min_max t (wf_tensor_data t (Hwf t Ht)))
    as (lo & hi & Hmin & Hmax & Hle & _).
  exists lo. split; [exact Hmin |]. split; [reflexivity |].
  pose proof (negative_power_of_two b Hb) as Hp.
  assert (Hn : ~ 0 < tensor_scale b t).
  { unfold tensor_scale. rewrite Hmin, Hmax. intros Hpos.
    assert (H : (hi - lo) / (powerRZ 2 b - 1) * (powerRZ 2 b - 1) = hi - lo)
      by (field; lra).
    set (s := (hi - lo) / (powerRZ 2 b - 1)) in *. nra. }
  rewrite restored_data. unfold stored_bytes, stored_scale, stored_zero_point.
  destruct (Rlt_dec 0 (tensor_scale b t)); [contradiction |].
  rewrite Hmin, map_map. apply map_ext. intros x. simpl. ring.
Qed.

(* ================================================================== *)
(** * Further properties: the sparsifier *)
(* ================================================================== *)

Lemma insert_desc_sorted (p : R * nat) (l : list (R * nat)) :
  StronglySorted (fun a b => fst b <= fst a) l ->
  StronglySorted (fun a b => fst b <= fst a) (insert_desc p l).
Proof.
  induction 1 as [| q l Hs IH Hq]; simpl.
  - constructor; constructor.
  - destruct (Rle_dec (fst q) (fst p)) as [Hle | Hgt].
    + constructor; [now constructor |].
      constructor; [exact Hle |].
      eapply Forall_impl; [| exact Hq]. simpl. intros r Hr. lra.
    + constructor; [exact IH |].
      apply Forall_forall. intros r Hr.
      apply (Permutation_in _ (insert_desc_perm p l)) in Hr.
      destruct Hr as [<- | Hr]; [lra |].
      rewrite Forall_forall in Hq. now apply Hq.
Qed.

Lemma sort_desc_sorted (l : list (R * nat)) :
  StronglySorted (fun a b => fst b <= fst a) (sort_desc l).
Proof.
  induction l as [| p l IH]; simpl; [constructor |].
  now apply insert_desc_sorted.
Qed.

(** In a list in decreasing order, what stands in a prefix is not smaller
    than what stands after it. *)
Lemma sorted_prefix_dominates {A : Type} (le : A -> A -> Prop) (l : list A)
  (n : nat) (p q : A) :
  StronglySorted le l -> In p (firstn n l) -> In q (skipn n l) -> le p q.
Proof.
  intros Hs. revert n. induction Hs as [| a l Hs IH Ha]; intros n Hp Hq.
  - rewrite firstn_nil in Hp. contradiction.
  - destruct n as [| n]; simpl in Hp, Hq; [contradiction |].
    destruct Hp as [<- | Hp].
    + rewrite Forall_forall in Ha. apply Ha.
      rewrite <- (firstn_skipn n l). apply in_or_app. now right.
    + now apply (IH n).
Qed.

Lemma sorted_prefix {A : Type} (le : A -> A -> Prop) (l : list A) (n : nat) :
  StronglySorted le l -> StronglySorted le (firstn n l).
Proof.
  intros Hs. revert n. induction Hs as [| a l Hs IH Ha]; intros [| n]; simpl;
    try constructor.
  - apply IH.
  - apply Forall_forall. intros x Hx. rewrite Forall_forall in Ha.
    apply Ha. now apply in_firstn in Hx.
Qed.

Lemma sorted_map {A B : Type} (f : A -> B) (leA : A -> A -> Prop)
  (leB : B -> B -> Prop) (l : list A) :
  (forall a b, In a l -> In b l -> leA a b -> leB (f a) (f b)) ->
  StronglySorted leA l -> StronglySorted leB (map f l).
Proof.
  intros Hf Hs. induction Hs as [| a l Hs IH Ha]; simpl; constructor.
  - apply IH. intros x y Hx Hy. apply Hf; now right.
  - apply Forall_forall. intros y Hy. apply in_map_iff in Hy.
    destruct Hy as (x & <- & Hx). rewrite Forall_forall in Ha.
    apply Hf; [now left | now right | now apply Ha].
Qed.

Lemma nodup_prefix {A : Type} (l : list A) (n : nat) :
  NoDup l -> NoDup (firstn n l).
Proof.
  intros H. rewrite <- (firstn_skipn n l) in H.
  now apply NoDup_app_remove_r in H.
Qed.

(** The offsets among which [sparsify_gradients] selects are all the
    offsets of the tensor, each once. *)
Lemma sorted_offsets (flat : list R) :
  Permutation (map snd (sort_desc (combine (map Rabs flat) (seq 0 (length flat)))))
              (seq 0 (length flat)).
Proof.
  rewrite (Permutation_map snd (sort_desc_perm _)).
  replace (seq 0 (length flat)) with (seq 0 (length (map Rabs flat)))
    by now rewrite length_map.
  now rewrite map_snd_combine_seq.
Qed.

Lemma kept_offsets_distinct (sparsity : R) (t : Tensor) :
  NoDup (map snd (kept sparsity t)).
Proof.
  unfold kept. rewrite <- firstn_map. apply nodup_prefix.
  apply (Permutation_NoDup (Permutation_sym (sorted_offsets (data t)))).
  apply seq_NoDup.
Qed.

Lemma magnitude_listed (flat : list R) (j : nat) :
  (j < length flat)%nat ->
  In (Rabs (nth j flat 0), j) (combine (map Rabs flat) (seq 0 (length flat))).
Proof.
  intros Hj.
  replace (Rabs (nth j flat 0), j)
    with (nth j (combine (map Rabs flat) (seq 0 (length flat))) (Rabs 0, 0%nat)).
  - apply nth_In. now rewrite length_combine, length_map, length_seq, Nat.min_id.
  - rewrite combine_nth by now rewrite length_map, length_seq.
    now rewrite map_nth, seq_nth.
Qed.

(** An offset that is not selected holds a magnitude that is not larger
    than any selected one. *)
Lemma kept_dominates (sparsity : R) (t : Tensor) (i j : nat) :
  In i (map snd (kept sparsity t)) -> (j < numel t)%nat ->
  ~ In j (map snd (kept sparsity t)) ->
  Rabs (nth j (data t) 0) <= Rabs (nth i (data t) 0).
Proof.
  intros Hi Hj Hnj. apply in_map_iff in Hi. destruct Hi as (p & <- & Hp).
  destruct (kept_valid _ _ _ Hp) as [_ Hmag]. rewrite <- Hmag.
  pose proof (magnitude_listed (data t) j Hj) as Hin.
  apply (Permutation_in _ (Permutation_sym (sort_desc_perm _))) in Hin.
  fold (numel t) in Hin.
  rewrite <- (firstn_skipn (Z.to_nat (sparsify_k (numel t) sparsity))) in Hin.
  apply in_app_or in Hin. destruct Hin as [Hin | Hin].
  - exfalso. apply Hnj.
    apply (in_map snd _ _ Hin).
  - apply (sorted_prefix_dominates (fun a b : R * nat => fst b <= fst a)
             _ _ p _ (sort_desc_sorted _) Hp Hin).
Qed.

Lemma kept_magnitudes_descend (sparsity : R) (t : Tensor) :
  magnitudes_descend (map (fun p => nth (snd p) (data t) 0) (kept sparsity t)).
Proof.
  unfold magnitudes_descend.
  apply (sorted_map _ (fun a b : R * nat => fst b <= fst a)).
  - intros a b Ha Hb Hab.
    destruct (kept_valid _ _ _ Ha) as [_ Ea], (kept_valid _ _ _ Hb) as [_ Eb].
    now rewrite <- Ea, <- Eb.
  - unfold kept. apply sorted_prefix, sort_desc_sorted.
Qed.

(** X17.  Sparsifying a set of the data model at a sparsity in [[0, 1)] stores,
    for every tensor, distinct offsets inside the tensor together with the
    elements found there, signs included, in the order of non-increasing
    magnitude; and no element left out is larger in magnitude than a
    stored one. *)
Theorem sparse_payload_holds_largest (g : GradientSet) (sparsity : R) :
  wf_gradients g -> 0 <= sparsity < 1 ->
  exists sp,
    sparsify_gradients g sparsity = Ok (PyDict sp) /\
    dict_keys sp = dict_keys g /\
    forall name t, In (name, t) g ->
      exists vals idxs,
        dict_get sp name =
          Some (PyDict [("values", PyTensor (mkTensor [length vals] vals));
                        ("indices", PyIndexTensor idxs);
                        ("shape", PySize (shape t))]) /\
        NoDup idxs /\
        Forall (fun i => (i < numel t)%nat) idxs /\
        vals = map (fun i => nth i (data t) 0) idxs /\
        magnitudes_descend vals /\
        forall i j, In i idxs -> (j < numel t)%nat -> ~ In j idxs ->
          Rabs (nth j (data t) 0) <= Rabs (nth i (data t) 0).
Proof.
  intros Hwf Hs. eexists.
  split; [now apply sparsify_gradients_eq |].
  unfold dict_keys at 1. rewrite map_fst_pair. split; [reflexivity |].
  intros name t Hin.
  exists (map (fun p => nth (snd p) (data t) 0) (kept sparsity t)),
         (map snd (kept sparsity t)).
  split; [| split; [| split; [| split; [| split]]]].
  - rewrite (dict_get_in _ name (sparse_record sparsity t)).
    + unfold sparse_record. now rewrite length_map.
    + unfold dict_keys. rewrite map_fst_pair. now destruct Hwf.
    + apply (in_map (fun it => (fst it, sparse_record sparsity (snd it))) g _ Hin).
  - apply kept_offsets_distinct.
  - apply Forall_forall. intros i Hi. apply in_map_iff in Hi.
    destruct Hi as (p & <- & Hp). now destruct (kept_valid _ _ _ Hp).
  - now rewrite map_map.
  - apply kept_magnitudes_descend.
  - intros i j. apply kept_dominates.
Qed.









(* ================================================================== *)
(** * Further properties: the ratio estimator and the facade *)
(* ================================================================== *)

Lemma fold_add_ext {A : Type} (f h : A -> nat) (l : list A) :
  (forall x, In x l -> f x = h x) ->
  fold_left Nat.add (map f l) 0%nat = fold_left Nat.add (map h l) 0%nat.
Proof.
  intros H. f_equal. now apply map_ext_in.
Qed.

Lemma fold_add_scale (c : nat) (l : list nat) :
  fold_left Nat.add (map (fun n => n * c)%nat l) 0%nat =
  (fold_left Nat.add l 0 * c)%nat.
Proof.
  induction l as [| x l IH]; simpl; [reflexivity |].
  rewrite (fold_add_shift _ (x * c)), (fold_add_shift _ x), IH. lia.
Qed.

Lemma fold_add_le (f h : Tensor -> nat) (l : list Tensor) :
  (forall t, In t l -> (f t <= h t)%nat) ->
  (fold_left Nat.add (map f l) 0 <= fold_left Nat.add (map h l) 0)%nat.
Proof.
  induction l as [| t l IH]; simpl; intros H; [lia |].
  rewrite (fold_add_shift _ (f t)), (fold_add_shift _ (h t)).
  pose proof (H t (or_introl eq_refl)).
  assert (fold_left Nat.add (map f l) 0 <= fold_left Nat.add (map h l) 0)%nat
    by (apply IH; intros u Hu; apply H; now right).
  lia.
Qed.

(** The estimate on a dictionary without the key ["params"] whose first
    value has the key ["values"]. *)
Lemma estimate_sparse_dict (g : GradientSet) (sp : dict pyval) (v : pyval)
  (vs : list pyval) (sizes : list nat) :
  dict_get sp "params" = None ->
  dict_values sp = v :: vs ->
  py_contains "values" v = Ok true ->
  map_each
    (fun data =>
       values <- py_getitem data "values" ;;
       nv <- py_numel values ;;
       indices <- py_getitem data "indices" ;;
       ni <- py_numel indices ;;
       Ok (nv * 4 + ni * 4)%nat)
    (dict_values sp) = Ok sizes ->
  estimate_compression_ratio g (PyDict sp) =
  Ok (if (0 <? fold_left Nat.add sizes 0)%nat
      then INR (original_size g) / INR (fold_left Nat.add sizes 0%nat)
      else 1).
Proof.
  intros Hparams Hvals Hfirst Hsizes.
  unfold estimate_compression_ratio, py_contains at 1, dict_mem, py_values.
  rewrite Hparams. cbn [bind]. rewrite Hsizes, Hvals. cbn [bind].
  rewrite Hfirst. cbn [bind].
  destruct (0 <? fold_left Nat.add sizes 0)%nat; reflexivity.
Qed.

(** The estimate on the payload of [sparsify_gradients]. *)
Lemma estimate_sparse_payload (g : GradientSet) (sparsity : R) :
  wf_gradients g -> g <> [] -> dict_get g "params" = None ->
  0 <= sparsity < 1 ->
  (1 <= total_kept g sparsity <= total_numel g)%nat /\
  estimate_compression_ratio g
    (PyDict (map (fun it => (fst it, sparse_record sparsity (snd it))) g)) =
  Ok (INR (total_numel g * 4) / INR (total_kept g sparsity * 8)).
Proof.
  intros Hwf Hg Hparams Hs.
  assert (Hkept : forall t, In t (dict_values g) ->
                    (1 <= k_truncated (numel t) sparsity <= numel t)%nat).
  { intros t Ht. destruct Hwf as [_ Hwf]. rewrite Forall_forall in Hwf.
    pose proof (wf_tensor_numel t (Hwf t Ht)) as Hn.
    destruct (sparsify_k_range (numel t) sparsity Hn Hs) as [Hk Hr].
    unfold k_truncated. rewrite <- Hk. lia. }
  assert (Hle : (total_kept g sparsity <= total_numel g)%nat).
  { unfold total_kept, total_numel. apply fold_add_le.
    intros t Ht. now apply Hkept. }
  assert (Hpos : (1 <= total_kept g sparsity)%nat).
  { unfold total_kept. destruct g as [| [name t] rest]; [congruence |].
    simpl. rewrite fold_add_shift.
    pose proof (Hkept t (or_introl eq_refl)). lia. }
  assert (Hsize : map_each
            (fun data =>
               values <- py_getitem data "values" ;;
               nv <- py_numel values ;;
               indices <- py_getitem data "indices" ;;
               ni <- py_numel indices ;;
               Ok (nv * 4 + ni * 4)%nat)
            (map (fun it => sparse_record sparsity (snd it)) g) =
          Ok (map (fun it => (k_truncated (numel (snd it)) sparsity * 8)%nat) g)).
  { apply map_each_ok. intros [name t] Hin. simpl.
    pose proof (wf_tensor_numel t (wf_gradients_in g name t Hwf Hin)) as Hn.
    destruct (sparsify_k_range (numel t) sparsity Hn Hs) as [Hk Hr].
    unfold numel at 1. simpl. rewrite !length_map, kept_length by lia.
    unfold k_truncated. rewrite <- Hk. f_equal. lia. }
  assert (Hest : estimate_compression_ratio g
            (PyDict (map (fun it => (fst it, sparse_record sparsity (snd it))) g)) =
          Ok (INR (total_numel g * 4) / INR (total_kept g sparsity * 8))).
  { destruct g as [| [name t] rest] eqn:Eg; [congruence |]. rewrite <- Eg in *.
    rewrite (estimate_sparse_dict g _ (sparse_record sparsity t)
               (map (fun it => sparse_record sparsity (snd it)) rest)
               (map (fun it => (k_truncated (numel (snd it)) sparsity * 8)%nat) g)).
    - rewrite <- (map_map (fun it => k_truncated (numel (snd it)) sparsity)
                          (fun n => (n * 8)%nat)).
      rewrite fold_add_scale, original_size_total.
      replace (fold_left Nat.add
                 (map (fun it => k_truncated (numel (snd it)) sparsity) g) 0%nat)
        with (total_kept g sparsity)
        by (unfold total_kept, dict_values; now rewrite map_map).
      destruct (Nat.ltb_spec 0 (total_kept g sparsity * 8)); [reflexivity | lia].
    - now rewrite (dict_get_map (sparse_record sparsity)), Hparams.
    - unfold dict_values. rewrite map_snd_pair, Eg. reflexivity.
    - reflexivity.
    - unfold dict_values. rewrite map_snd_pair. exact Hsize. }
  split; [lia | exact Hest].
Qed.

Lemma stored_values_kept (g : GradientSet) (sparsity : R) :
  wf_gradients g -> 0 <= sparsity < 1 ->
  stored_values
    (PyDict (map (fun it => (fst it, sparse_record sparsity (snd it))) g)) =
  total_kept g sparsity.
Proof.
  intros Hwf Hs. unfold stored_values, total_kept, dict_values.
  rewrite map_snd_pair, !map_map. f_equal. apply map_ext_in.
  intros [name t] Hin. simpl.
  pose proof (wf_tensor_numel t (wf_gradients_in g name t Hwf Hin)) as Hn.
  destruct (sparsify_k_range (numel t) sparsity Hn Hs) as [Hk Hr].
  unfold numel at 1. simpl. rewrite length_map, kept_length by lia.
  unfold k_truncated. now rewrite Hk.
Qed.

(** X21.  The estimate for a sparse payload.  For a non-empty set of the data
    model without a parameter called ["params"] and a sparsity in [[0, 1)],
    the estimated ratio is the number of elements over twice the number of
    values the payload holds (four bytes an element before; four bytes a
    value and four bytes an offset after); it is therefore at least [1/2],
    and above [1] exactly when fewer than half of the elements are kept. *)
Theorem sparse_ratio_counts_values_and_offsets (g : GradientSet)
  (sparsity : R) :
  wf_gradients g -> g <> [] -> dict_get g "params" = None ->
  0 <= sparsity < 1 ->
  exists payload r,
    sparsify_gradients g sparsity = Ok payload /\
    estimate_compression_ratio g payload = Ok r /\
    r = INR (total_numel g) / (2 * INR (stored_values payload)) /\
    (1 <= stored_values payload <= total_numel g)%nat /\
    1 / 2 <= r /\
    (1 < r <-> (2 * stored_values payload < total_numel g)%nat).
Proof.
  intros Hwf Hg Hparams Hs.
  destruct (estimate_sparse_payload g sparsity Hwf Hg Hparams Hs)
    as [[Hpos Hle] Hest].
  exists (PyDict (map (fun it => (fst it, sparse_record sparsity (snd it))) g)),
         (INR (total_numel g * 4) / INR (total_kept g sparsity * 8)).
  split; [now apply sparsify_gradients_eq |]. split; [exact Hest |].
  rewrite (stored_values_kept g sparsity Hwf Hs).
  assert (HK : 1 <= INR (total_kept g sparsity))
    by (change 1 with (INR 1); now apply le_INR).
  assert (HN : INR (total_kept g sparsity) <= INR (total_numel g))
    by now apply le_INR.
  assert (Hr : INR (total_numel g * 4) / INR (total_kept g sparsity * 8) =
               INR (total_numel g) / (2 * INR (total_kept g sparsity))).
  { rewrite !mult_INR. simpl. field. lra. }
  split; [exact Hr |]. split; [lia |]. rewrite Hr.
  set (K := INR (total_kept g sparsity)) in *.
  set (N := INR (total_numel g)) in *.
  assert (Hdiv : N / (2 * K) * (2 * K) = N) by (field; lra).
  split; [| split].
  - set (r := N / (2 * K)) in *. nra.
  - intros H1. apply INR_lt. rewrite mult_INR. simpl. fold K N.
    set (r := N / (2 * K)) in *. nra.
  - intros H1. apply lt_INR in H1. rewrite mult_INR in H1. simpl in H1.
    fold K N in H1. set (r := N / (2 * K)) in *. nra.
Qed.

Lemma estimate_none_envelope (g : GradientSet) :
  (dict_get g "values" = None ->
   estimate_compression_ratio g
     (PyDict [("gradients", py_gradients g); ("method", PyStr m_none)]) = Ok 1) /\
  (dict_get g "values" <> None ->
   fails (estimate_compression_ratio g
            (PyDict [("gradients", py_gradients g); ("method", PyStr m_none)]))).
Proof.
  unfold estimate_compression_ratio, py_gradients.
  cbn [py_contains py_values dict_values map snd bind dict_mem dict_get].
  change (dict_mem _ "params") with false. cbv beta iota.
  cbn [bind]. unfold dict_mem.
  rewrite (dict_get_map PyTensor).
  split.
  - intros ->. cbn [option_map bind].
    destruct (Nat.ltb_spec 0 (original_size g)) as [Hpos | _]; [| reflexivity].
    apply (f_equal Ok). unfold Rdiv. apply Rinv_r.
    apply not_0_INR. lia.
  - destruct (dict_get g "values") as [v |] eqn:Hv; [intros _ | congruence].
    cbn [option_map bind map_each py_getitem].
    rewrite !(dict_get_map PyTensor), Hv. cbn [option_map bind py_numel].
    destruct (dict_get g "indices") as [i |]; cbn [option_map bind py_numel].
    + now exists TypeError.
    + now exists (KeyError "indices").
Qed.

(** X22.  The estimate for the envelope of method [none]: the ratio is [1]
    unless a parameter is called ["values"], in which case the envelope is
    taken for a sparse one and the estimate raises. *)
Theorem none_envelope_ratio (g : GradientSet) (kw : kwargs) :
  exists envelope,
    compress_gradients g m_none kw = Ok envelope /\
    (dict_get g "values" = None ->
     estimate_compression_ratio g envelope = Ok 1) /\
    (dict_get g "values" <> None ->
     fails (estimate_compression_ratio g envelope)).
Proof.
  eexists. split; [reflexivity |]. apply estimate_none_envelope.
Qed.



(** X24.  On a set of the data model, with 1 to 8 bits and a sparsity in
    [[0, 1)], [compress_gradients] fails exactly when the method is none of
    ["quantize"], ["sparsify"] and ["none"], and then with ValueError. *)
Theorem compress_fails_exactly_on_unknown_method (g : GradientSet)
  (method : string) (kw : kwargs) :
  wf_gradients g -> (1 <= requested_bits kw <= 8)%Z ->
  (match kw_sparsity kw with Some s => 0 <= s < 1 | None => True end) ->
  (fails (compress_gradients g method kw) <->
   method <> m_quantize /\ method <> m_sparsify /\ method <> m_none) /\
  (fails (compress_gradients g method kw) ->
   compress_gradients g method kw = Raise ValueError).
Proof.
  intros Hwf Hb Hkw.
  set (s := match kw_sparsity kw with Some s => s | None => 9 / 10 end).
  assert (Hs : 0 <= s < 1).
  { unfold s. destruct (kw_sparsity kw); [exact Hkw | lra]. }
  pose proof (quantize_gradients_eq g (requested_bits kw) Hwf
                (positive_bits_denominator _ (proj1 Hb))) as Hq.
  pose proof (sparsify_gradients_eq g s Hwf Hs) as Hsp.
  unfold compress_gradients. fold (requested_bits kw). fold s.
  destruct (String.eqb_spec method m_quantize) as [Eq | Nq].
  - rewrite Hq. split.
    + split; [intros [e He]; discriminate | tauto].
    + intros [e He]. discriminate.
  - destruct (String.eqb_spec method m_sparsify) as [Es | Ns].
    + rewrite Hsp. split.
      * split; [intros [e He]; discriminate | tauto].
      * intros [e He]. discriminate.
    + destruct (String.eqb_spec method m_none) as [En | Nn].
      * split.
        -- split; [intros [e He]; discriminate | tauto].
        -- intros [e He]. discriminate.
      * split; [| reflexivity].
        split; [tauto | intros _; now exists ValueError].
Qed.

(* ================================================================== *)
(** * Further properties: bounds that are not checked *)
(* ================================================================== *)

Lemma norm_nonneg (g : GradientSet) : 0 <= compute_gradient_norm g.
Proof. unfold compute_gradient_norm. apply sqrt_pos. Qed.

Lemma all_elements_scaled (c : R) (g : GradientSet) (y : R) :
  In y (all_elements (scaled c g)) ->
  exists x, In x (all_elements g) /\ y = x * c.
Proof.
  intros Hy. apply in_all_elements in Hy. destruct Hy as (t' & Ht' & Hy).
  unfold scaled, dict_values in Ht'. rewrite map_snd_pair in Ht'.
  apply in_map_iff in Ht'. destruct Ht' as ([name t] & <- & Hin).
  simpl in Hy. unfold tensor_map in Hy. simpl in Hy.
  apply in_map_iff in Hy. destruct Hy as (x & <- & Hx).
  exists x. split; [| reflexivity].
  apply in_all_elements. exists t. split; [| exact Hx].
  change t with (snd (name, t)). now apply in_map.
Qed.

(** X3.  [clip_gradients] does not check its bound.  With a negative
    [max_norm] every element is multiplied by one negative factor, so all
    the signs are reversed; with [max_norm = 0] every element of the
    result is [0]. *)
Theorem clip_accepts_nonpositive_bound (g : GradientSet) (m : R) :
  NoDup (dict_keys g) ->
  (m < 0 -> exists c, c < 0 /\ clip_gradients g m = scaled c g) /\
  (m = 0 -> forall x, In x (all_elements (clip_gradients g m)) -> x = 0).
Proof.
  intros Hnd. pose proof (norm_nonneg g) as Hn.
  assert (Hden : 0 < compute_gradient_norm g + / 1000000) by lra.
  split.
  - intros Hm. exists (m / (compute_gradient_norm g + / 1000000)). split.
    + unfold Rdiv. rewrite <- (Rmult_0_l (/ (compute_gradient_norm g + / 1000000))).
      apply Rmult_lt_compat_r; [now apply Rinv_0_lt_compat | exact Hm].
    + apply clip_gradients_scaled; [exact Hnd | lra].
  - intros -> x Hx.
    destruct (Rlt_dec 0 (compute_gradient_norm g)) as [Hpos | Hzero].
    + rewrite (clip_gradients_scaled g 0 Hnd Hpos) in Hx.
      apply (all_elements_scaled (0 / (compute_gradient_norm g + / 1000000)))
        in Hx.
      destruct Hx as (x0 & _ & ->). unfold Rdiv. ring.
    + unfold clip_gradients in Hx.
      destruct (Rlt_dec 0 (compute_gradient_norm g)); [contradiction |].
      pose proof (abs_le_norm g x Hx) as Habs.
      pose proof (Rabs_pos x) as Hp.
      assert (E : Rabs x = 0) by lra.
      destruct (Req_dec x 0) as [E0 | E0]; [exact E0 |].
      apply Rabs_no_R0 in E0. contradiction.
Qed.

(* ================================================================== *)
(** * Further properties: extraction and noise *)
(* ================================================================== *)

Lemma extract_gradients_eq (model : list (string * Param)) :
  NoDup (map fst model) ->
  extract_gradients model = map (fun it => (fst it, extracted (snd it))) model.
Proof.
  intros Hnd. unfold extract_gradients.
  assert (E : forall acc,
             fold_left (fun gradients item =>
                          match param_grad (snd item) with
                          | Some gr => dict_set gradients (fst item) gr
                          | None =>
                              dict_set gradients (fst item)
                                       (zeros_like (param_value (snd item)))
                          end) model acc =
             fold_left (fun acc it => dict_set acc (fst it) (extracted (snd it)))
                       model acc).
  { induction model as [| [name p] model IH]; intros acc; simpl; [reflexivity |].
    inversion Hnd; subst. rewrite IH by assumption.
    unfold extracted. simpl. now destruct (param_grad p). }
  rewrite E.
  rewrite (fold_left_dict_set (fun it => extracted (snd it)));
    [reflexivity | exact Hnd | simpl; tauto].
Qed.

Lemma zeros_norm (t : Tensor) : tensor_norm2 (zeros_like t) ^ 2 = 0.
Proof.
  rewrite tensor_norm2_square. unfold zeros_like, tensor_map. simpl.
  induction (data t) as [| x l IH]; [reflexivity |].
  simpl. rewrite Rsum_cons, IH. lra.
Qed.

(** X10.  [extract_gradients] gives every parameter of the model an entry, in
    the order of the model: its gradient, or zeros of the shape of its
    value when it has none.  The entries made of zeros do not count in the
    norm: it is the norm of the gradients that exist. *)
Theorem extract_gradients_fills_with_zeros (model : list (string * Param)) :
  NoDup (map fst model) ->
  dict_keys (extract_gradients model) = map fst model /\
  (forall name p, In (name, p) model ->
     dict_get (extract_gradients model) name =
       Some (match param_grad p with
             | Some gr => gr
             | None => mkTensor (shape (param_value p))
                                (repeat 0 (numel (param_value p)))
             end)) /\
  compute_gradient_norm (extract_gradients model) =
    compute_gradient_norm (extract_gradients (filter has_grad model)).
Proof.
  intros Hnd.
  assert (Hnd' : NoDup (map fst (filter has_grad model))).
  { clear -Hnd. induction model as [| it model IH]; simpl; [constructor |].
    inversion Hnd as [| ? ? Hn Hrest]; subst.
    destruct (has_grad it); [| now apply IH].
    simpl. constructor; [| now apply IH].
    intros Hin. apply Hn. apply in_map_iff in Hin.
    destruct Hin as (it' & E & Hin'). apply filter_In in Hin'.
    rewrite <- E. apply in_map. tauto. }
  rewrite (extract_gradients_eq model Hnd).
  rewrite (extract_gradients_eq _ Hnd').
  split; [| split].
  - unfold dict_keys. now rewrite map_fst_pair.
  - intros name p Hin.
    rewrite (dict_get_in _ name (extracted p)).
    + f_equal. unfold extracted. destruct (param_grad p); [reflexivity |].
      unfold zeros_like, tensor_map, numel. f_equal.
      induction (data (param_value p)) as [| x l IH]; simpl;
        [reflexivity | now rewrite IH].
    + unfold dict_keys. now rewrite map_fst_pair.
    + apply (in_map (fun it => (fst it, extracted (snd it))) model _ Hin).
  - unfold compute_gradient_norm, dict_values. rewrite !map_snd_pair.
    f_equal. clear. induction model as [| [name p] model IH]; [reflexivity |].
    cbn [map filter]. unfold has_grad at 1. cbn [snd].
    destruct (param_grad p) as [gr |] eqn:Hg.
    + cbn [map fold_left].
      rewrite total_norm_shift, IH, <- total_norm_shift. reflexivity.
    + cbn [map fold_left]. rewrite total_norm_shift, IH.
      unfold extracted at 1. cbn [snd]. rewrite Hg, zeros_norm. lra.
Qed.

Lemma add_noise_step_eq (noise_scale : R) (samples : nat -> R)
  (acc : GradientSet * nat) (name : string) (t : Tensor) :
  add_noise_step noise_scale samples acc (name, t) =
  Ok (dict_set (fst acc) name (noisy_tensor noise_scale samples (snd acc) t),
      (snd acc + numel t)%nat).
Proof.
  unfold add_noise_step, tensor_binop, randn_like, tensor_map. simpl.
  now rewrite shape_eqb_refl.
Qed.

Lemma noisy_items_keys (noise_scale : R) (samples : nat -> R) (first : nat)
  (g : GradientSet) :
  map fst (noisy_items noise_scale samples first g) = map fst g.
Proof.
  revert first. induction g as [| [name t] g IH]; intros first; simpl;
    [reflexivity | now rewrite IH].
Qed.

Lemma total_numel_cons (name : string) (t : Tensor) (g : GradientSet) :
  total_numel ((name, t) :: g) = (numel t + total_numel g)%nat.
Proof. unfold total_numel. simpl. now rewrite fold_add_shift. Qed.

Lemma add_noise_loop (noise_scale : R) (samples : nat -> R) (g : GradientSet)
  (acc : GradientSet) (first : nat) :
  NoDup (dict_keys g) ->
  (forall k, In k (dict_keys g) -> ~ In k (dict_keys acc)) ->
  for_each g (add_noise_step noise_scale samples) (acc, first) =
  Ok (acc ++ noisy_items noise_scale samples first g,
      (first + total_numel g)%nat).
Proof.
  revert acc first. induction g as [| [name t] g IH]; intros acc first Hnd Hdis.
  - simpl. rewrite app_nil_r. unfold total_numel. simpl.
    now rewrite Nat.add_0_r.
  - cbn [for_each]. rewrite add_noise_step_eq. cbn [bind fst snd].
    inversion Hnd as [| ? ? Hn Hrest]; subst.
    rewrite dict_set_fresh by (apply Hdis; now left).
    rewrite IH.
    + rewrite <- app_assoc, total_numel_cons. simpl.
      now rewrite Nat.add_assoc.
    + exact Hrest.
    + intros k Hk Hin. unfold dict_keys in Hin. rewrite map_app in Hin.
      apply in_app_or in Hin. destruct Hin as [Hin | [<- | []]].
      * apply (Hdis k); [now right | exact Hin].
      * now apply Hn.
Qed.

(** Every tensor of the set receives its own stretch of samples, inside
    the stretch drawn for the whole set. *)
Lemma noisy_items_get (noise_scale : R) (samples : nat -> R) (g : GradientSet)
  (first : nat) (name : string) (t : Tensor) :
  NoDup (dict_keys g) -> In (name, t) g ->
  exists off,
    (first <= off)%nat /\ (off + numel t <= first + total_numel g)%nat /\
    dict_get (noisy_items noise_scale samples first g) name =
      Some (noisy_tensor noise_scale samples off t).
Proof.
  revert first. induction g as [| [name' t'] g IH]; intros first Hnd Hin;
    [contradiction |].
  inversion Hnd as [| ? ? Hn Hrest]; subst. rewrite total_numel_cons.
  destruct Hin as [E | Hin].
  - inversion E; subst. exists first. simpl. rewrite String.eqb_refl.
    split; [lia |]. split; [lia | reflexivity].
  - destruct (IH (first + numel t')%nat Hrest Hin) as (off & H1 & H2 & H3).
    exists off. split; [lia |]. split; [lia |].
    simpl. destruct (String.eqb_spec name' name) as [E | _]; [| exact H3].
    exfalso. apply Hn. rewrite E. change name with (fst (name, t)).
    now apply in_map.
Qed.

Lemma noisy_items_layout (noise_scale : R) (samples : nat -> R) (first : nat)
  (g : GradientSet) :
  layout (noisy_items noise_scale samples first g) = layout g.
Proof.
  revert first. induction g as [| [name t] g IH]; intros first; simpl;
    [reflexivity |].
  rewrite IH. do 3 f_equal.
  rewrite zip_with_length; [reflexivity |].
  now rewrite !length_map, length_seq.
Qed.

Lemma noisy_items_unscaled (samples : nat -> R) (first : nat) (g : GradientSet) :
  noisy_items 0 samples first g = g.
Proof.
  revert first. induction g as [| [name t] g IH]; intros first; simpl;
    [reflexivity |].
  rewrite IH. do 2 f_equal. unfold noisy_tensor, numel.
  destruct t as [sh dt]. simpl. f_equal.
  generalize 0%nat at 1. induction dt as [| x dt IHd]; intros s; simpl;
    [reflexivity |].
  rewrite IHd. f_equal. ring.
Qed.

(** X11.  [add_noise_to_gradients] keeps names, order, shapes and element
    counts, and draws one sample for each element: every element receives
    [noise_scale] times its own sample, taken from the stretch of
    [total_numel] samples that the call consumes.  With [noise_scale = 0]
    the set comes back unchanged. *)
Theorem add_noise_perturbs_each_element (g : GradientSet) (noise_scale : R)
  (samples : nat -> R) (drawn : nat) :
  NoDup (dict_keys g) ->
  exists noisy,
    add_noise_to_gradients g noise_scale samples drawn =
      Ok (noisy, (drawn + total_numel g)%nat) /\
    layout noisy = layout g /\
    (forall name t, In (name, t) g ->
       exists off,
         (drawn <= off)%nat /\
         (off + numel t <= drawn + total_numel g)%nat /\
         forall j, (j < numel t)%nat ->
           element noisy name j =
           nth j (data t) 0 + samples (off + j)%nat * noise_scale) /\
    (noise_scale = 0 -> noisy = g).
Proof.
  intros Hnd. exists (noisy_items noise_scale samples drawn g).
  split; [| split; [| split]].
  - apply (add_noise_loop noise_scale samples g [] drawn Hnd).
    simpl. tauto.
  - apply noisy_items_layout.
  - intros name t Hin.
    destruct (noisy_items_get noise_scale samples g drawn name t Hnd Hin)
      as (off & H1 & H2 & H3).
    exists off. split; [exact H1 |]. split; [exact H2 |].
    intros j Hj. unfold element. rewrite H3. unfold noisy_tensor. simpl.
    rewrite nth_zip_with_plus by now rewrite !length_map, length_seq.
    f_equal. rewrite map_map.
    rewrite (nth_map_in_range _ _ 0%nat) by now rewrite length_seq.
    now rewrite seq_nth.
  - intros ->. apply noisy_items_unscaled.
Qed.

(* ================================================================== *)
(** * Further properties: what train.py saves *)
(* ================================================================== *)

Lemma wf_scaled (c : R) (g : GradientSet) :
  wf_gradients g -> wf_gradients (scaled c g).
Proof.
  intros [Hnd Hwf]. unfold wf_gradients, scaled, dict_keys, dict_values.
  rewrite map_fst_pair, map_snd_pair. split; [exact Hnd |].
  apply Forall_forall. intros t' Ht'. apply in_map_iff in Ht'.
  destruct Ht' as ([name t] & <- & Hin). rewrite Forall_forall in Hwf.
  assert (Ht : wf_tensor t)
    by (apply Hwf; change t with (snd (name, t)); now apply in_map).
  destruct Ht as (H1 & H2 & H3). unfold wf_tensor, tensor_map. simpl.
  now rewrite length_map.
Qed.

Lemma clip_is_scaled (g : GradientSet) (m : R) :
  NoDup (dict_keys g) -> exists c, clip_gradients g m = scaled c g.
Proof.
  intros Hnd. destruct (Rlt_dec m (compute_gradient_norm g)) as [Hbig | Hsmall].
  - eexists. now apply clip_gradients_scaled.
  - exists 1. unfold clip_gradients.
    destruct (Rlt_dec m (compute_gradient_norm g)); [contradiction |].
    now rewrite scaled_one.
Qed.

(** A bare GradientSet is not an envelope: [decompress_gradients] raises
    on it, whatever the parameters are called. *)
Lemma decompress_rejects_bare_set (g : GradientSet) :
  fails (decompress_gradients (py_gradients g)).
Proof.
  unfold decompress_gradients, py_get, py_gradients.
  rewrite (dict_get_map PyTensor).
  destruct (dict_get g "method"); simpl; [now exists ValueError |].
  unfold dequantize_gradients, py_getitem at 1.
  rewrite (dict_get_map PyTensor).
  destruct (dict_get g "gradients"); simpl; [| now exists (KeyError "gradients")].
  rewrite (dict_get_map PyTensor).
  destruct (dict_get g "params"); simpl; [| now exists (KeyError "params")].
  now exists AttributeError.
Qed.

Lemma decompress_quantized (g : GradientSet) (b : Z) :
  wf_gradients g -> powerRZ 2 b - 1 <> 0 ->
  exists payload g',
    quantize_gradients g b = Ok payload /\
    decompress_gradients payload = Ok (py_gradients g').
Proof.
  intros Hwf Hden.
  destruct (dequantize_quantize_eq g b Hwf Hden) as (payload & Hq & Hdq).
  exists payload. eexists. split; [exact Hq |].
  assert (Hget : py_get payload "method" (PyStr m_quantize) = Ok (PyStr m_quantize)).
  { rewrite (quantize_gradients_eq g _ Hwf Hden) in Hq. now inversion Hq. }
  unfold decompress_gradients. rewrite Hget. simpl. now rewrite Hdq.
Qed.

(** X25.  What [save_results] writes for a non-empty set of the data model
    without parameters called ["values"] or ["params"], clipped or not.
    A ratio is printed unless the method is ["none"].  The file can be read
    back by [decompress_gradients] except for the methods ["none"] (the bare
    set is written) and ["sparsify"] (the sparse payload carries no tag).
    A method that is none of the three is not refused: the set is written
    uncompressed under the tag ["none"], with the ratio [1]. *)
Theorem save_results_readable_iff (g : GradientSet) (method : string)
  (clip_norm : option R) :
  wf_gradients g -> g <> [] ->
  dict_get g "values" = None -> dict_get g "params" = None ->
  exists saved ratio clipped,
    save_results g method clip_norm = Ok (saved, ratio) /\
    clipped = match clip_norm with
              | Some m => clip_gradients g m
              | None => g
              end /\
    (ratio = None <-> method = "none") /\
    (fails (decompress_gradients saved) <->
     method = "none" \/ method = "sparsify") /\
    (method <> "none" -> method <> "quantize" -> method <> "sparsify" ->
     saved = PyDict [("gradients", py_gradients clipped);
                     ("method", PyStr "none")] /\
     ratio = Some 1).
Proof.
  intros Hwf Hne Hvalues Hparams.
  set (clipped := match clip_norm with
                  | Some m => clip_gradients g m
                  | None => g
                  end).
  assert (Hc : exists c, clipped = scaled c g).
  { unfold clipped. destruct clip_norm as [m |].
    - apply clip_is_scaled. now destruct Hwf.
    - exists 1. now rewrite scaled_one. }
  destruct Hc as (c & Hc).
  assert (Hwf' : wf_gradients clipped) by (rewrite Hc; now apply wf_scaled).
  assert (Hne' : clipped <> []).
  { rewrite Hc. unfold scaled. destruct g; [congruence | discriminate]. }
  assert (Hkeys : forall k, dict_get g k = None -> dict_get clipped k = None).
  { intros k Hk. rewrite Hc. unfold scaled.
    rewrite (dict_get_map (tensor_map (fun x => x * c))), Hk. reflexivity. }
  unfold save_results. fold clipped.
  destruct (String.eqb_spec method "none") as [En | Nn]; cbn [negb].
  { exists (py_gradients clipped), None, clipped.
    split; [reflexivity |]. split; [reflexivity |].
    split; [tauto |]. split; [| tauto].
    split; [now left | intros _; apply decompress_rejects_bare_set]. }
  destruct (String.eqb_spec method "quantize") as [Eq | Nq].
  { destruct (decompress_quantized clipped 8 Hwf' eight_bits_denominator)
      as (payload & g' & Hq & Hd).
    destruct (estimate_quantized clipped 8 Hwf' eight_bits_denominator)
      as (payload' & Hq' & He).
    assert (payload' = payload) by congruence. subst payload'.
    unfold compress_gradients. cbn [String.eqb Ascii.eqb Bool.eqb m_quantize
                                    kw_num_bits].
    simpl String.eqb. cbv iota. rewrite Hq. cbn [bind]. rewrite He. cbn [bind].
    eexists. eexists. exists clipped.
    split; [reflexivity |]. split; [reflexivity |].
    split; [split; [discriminate | intros E; subst; discriminate] |].
    split; [| tauto].
    split.
    - intros [e He']. rewrite Hd in He'. discriminate.
    - intros [E | E]; subst; discriminate. }
  destruct (String.eqb_spec method "sparsify") as [Es | Ns].
  { assert (Hs : 0 <= 9 / 10 < 1) by lra.
    destruct (decompress_rejects_sparse_envelope clipped
                (mkKwargs None (Some (9 / 10))) Hwf' Hs)
      as (envelope & Hcomp & Hfail).
    rewrite Hcomp. cbn [bind].
    assert (Henv : envelope =
                   PyDict (map (fun it => (fst it, sparse_record (9 / 10) (snd it)))
                               clipped)).
    { pose proof (sparsify_gradients_eq clipped (9 / 10) Hwf' Hs) as H.
      change (sparsify_gradients clipped (9 / 10))
        with (compress_gradients clipped m_sparsify
                (mkKwargs None (Some (9 / 10)))) in H.
      congruence. }
    destruct (estimate_sparse_payload clipped (9 / 10) Hwf' Hne'
                (Hkeys _ Hparams) Hs) as [_ Hest].
    rewrite <- Henv in Hest. rewrite Hest. cbn [bind].
    eexists. eexists. exists clipped.
    split; [reflexivity |]. split; [reflexivity |].
    split; [split; [discriminate | intros E; subst; discriminate] |].
    split; [| tauto].
    split; [intros _; now right | intros _; exact Hfail]. }
  destruct (estimate_none_envelope clipped) as [Hone _].
  cbn [bind]. change "none" with m_none. rewrite (Hone (Hkeys _ Hvalues)).
  cbn [bind].
  eexists. eexists. exists clipped.
  split; [reflexivity |]. split; [reflexivity |].
  split; [split; [discriminate | intros E; contradiction] |].
  split.
  - split.
    + intros [e He]. discriminate.
    + intros [E | E]; contradiction.
  - intros _ _ _. split; reflexivity.
Qed.

(* ================================================================== *)
(** * Further properties: what the sparsifier refuses *)
(* ================================================================== *)

Lemma sparsify_step_cases (sparsity : R) (acc : dict pyval)
  (item : string * Tensor) :
  (exists acc', sparsify_step sparsity acc item = Ok acc') \/
  sparsify_step sparsity acc item = Raise RuntimeError.
Proof.
  destruct item as [name t].
  destruct (Z_lt_dec (sparsify_k (numel t) sparsity) 0) as [Hneg | Hpos].
  - right. unfold sparsify_step, topk. simpl fst. simpl snd.
    destruct (Z.ltb_spec (sparsify_k (numel t) sparsity) 0); [reflexivity | lia].
  - destruct (Z_lt_dec (Z.of_nat (numel t)) (sparsify_k (numel t) sparsity))
      as [Hbig | Hsmall].
    + right. unfold sparsify_step, topk. simpl fst. simpl snd.
      rewrite length_map. fold (numel t).
      destruct (Z.ltb_spec (Z.of_nat (numel t)) (sparsify_k (numel t) sparsity));
        [| lia].
      now rewrite orb_true_r.
    + left. eexists. apply sparsify_step_eq. lia.
Qed.

Lemma sparsify_step_out_of_range (sparsity : R) (acc : dict pyval)
  (name : string) (t : Tensor) :
  (sparsify_k (numel t) sparsity < 0 \/
   Z.of_nat (numel t) < sparsify_k (numel t) sparsity)%Z ->
  sparsify_step sparsity acc (name, t) = Raise RuntimeError.
Proof.
  intros Hk.
  destruct (sparsify_step_cases sparsity acc (name, t)) as [[acc' H] | H];
    [| exact H].
  exfalso. unfold sparsify_step, topk in H. simpl fst in H. simpl snd in H.
  rewrite length_map in H. fold (numel t) in H.
  destruct (Z.ltb_spec (sparsify_k (numel t) sparsity) 0) as [H1 | H1];
    [discriminate |].
  destruct (Z.ltb_spec (Z.of_nat (numel t)) (sparsify_k (numel t) sparsity))
    as [H2 | H2]; [discriminate | lia].
Qed.

(** X19.  A tensor without elements makes the sparsifier raise RuntimeError: it
    asks for one element of none, whatever the sparsity and wherever the
    tensor stands in the set. *)
Theorem sparsify_rejects_empty_tensor (g : GradientSet) (sparsity : R)
  (name : string) (t : Tensor) :
  In (name, t) g -> data t = [] ->
  sparsify_gradients g sparsity = Raise RuntimeError.
Proof.
  intros Hin Hd. unfold sparsify_gradients.
  rewrite (for_each_raises (sparsify_step sparsity) RuntimeError);
    [reflexivity | |].
  - intros s x _. apply sparsify_step_cases.
  - exists (name, t). split; [exact Hin |]. intros s.
    apply sparsify_step_out_of_range. right.
    unfold numel. rewrite Hd. cbn [length]. unfold sparsify_k.
    change (INR 0) with 0. replace (0 * (1 - sparsity)) with 0 by ring.
    rewrite (py_int_IZR 0). simpl. lia.
Qed.

(** X20.  The sparsity is not checked, but a value far outside [[0, 1]] makes
    [torch.topk] raise: on a non-empty set of the data model,
    [sparsify_gradients] raises RuntimeError when the sparsity is at most
    [-1] (more elements are asked for than there are) or at least [2] (a
    negative number of elements is asked for). *)
Theorem sparsify_rejects_far_sparsity (g : GradientSet) (sparsity : R) :
  wf_gradients g -> g <> [] -> sparsity <= -1 \/ 2 <= sparsity ->
  sparsify_gradients g sparsity = Raise RuntimeError.
Proof.
  intros Hwf Hne Hs. destruct g as [| [name t] rest]; [congruence |].
  pose proof (wf_tensor_numel t (wf_gradients_in _ name t Hwf (or_introl eq_refl)))
    as Hn.
  unfold sparsify_gradients. cbn [for_each].
  rewrite sparsify_step_out_of_range; [reflexivity |].
  assert (Hn' : 1 <= INR (numel t)) by (change 1 with (INR 1); now apply le_INR).
  unfold sparsify_k. set (x := INR (numel t) * (1 - sparsity)).
  destruct Hs as [Hlow | Hhigh].
  - right.
    assert (Hx : IZR (2 * Z.of_nat (numel t)) <= x).
    { rewrite mult_IZR, <- INR_IZR_INZ. unfold x. nra. }
    assert (Hx0 : 0 <= x) by (unfold x; nra).
    rewrite (py_int_floor x Hx0).
    pose proof (Rfloor_mono _ _ Hx) as Hf. rewrite Rfloor_IZR in Hf.
    destruct (Z.eqb_spec (Rfloor x) 0); lia.
  - left.
    assert (Hx : IZR (Z.of_nat (numel t)) <= - x).
    { rewrite <- INR_IZR_INZ. unfold x. nra. }
    assert (Hx0 : ~ 0 <= x) by (unfold x; nra).
    unfold py_int. destruct (Rle_dec 0 x); [contradiction |].
    pose proof (Rfloor_mono _ _ Hx) as Hf. rewrite Rfloor_IZR in Hf.
    destruct (Z.eqb_spec (- Rfloor (- x)) 0); lia.
Qed.

(* ================================================================== *)
(** * The further properties at concrete inputs *)
(* ================================================================== *)

Lemma clip_scales_uniformly_witness :
  (NoDup (dict_keys [("w", three_values)])) /\
  (0 < 1) /\
  (exists c, 0 < c <= 1 /\
             (compute_gradient_norm [("w", three_values)] <= 1 -> c = 1) /\
             clip_gradients [("w", three_values)] 1 = scaled c [("w", three_values)] /\
             dict_keys (clip_gradients [("w", three_values)] 1) = dict_keys [("w", three_values)] /\
             map shape (dict_values (clip_gradients [("w", three_values)] 1)) =
               map shape (dict_values [("w", three_values)])).
Proof.
  assert (H1 : NoDup (dict_keys [("w", three_values)]))
    by (apply nodupb_sound; reflexivity).
  assert (H2 : 0 < 1)
    by (lra).
  split; [exact H1 |].
  split; [exact H2 |].
  exact (clip_scales_uniformly [("w", three_values)] 1 H1 H2).
Defined.

Lemma clip_accepts_nonpositive_bound_witness :
  (NoDup (dict_keys [("w", three_values)])) /\
  (((-1) < 0 -> exists c, c < 0 /\ clip_gradients [("w", three_values)] (-1) = scaled c [("w", three_values)]) /\
   ((-1) = 0 -> forall x, In x (all_elements (clip_gradients [("w", three_values)] (-1))) -> x = 0)).
Proof.
  assert (H1 : NoDup (dict_keys [("w", three_values)]))
    by (apply nodupb_sound; reflexivity).
  split; [exact H1 |].
  exact (clip_accepts_nonpositive_bound [("w", three_values)] (-1) H1).
Defined.

Lemma statistics_bracket_magnitudes_witness :
  ([("w", three_values)] <> []) /\
  (Forall (fun t => data t <> []) (dict_values [("w", three_values)])) /\
  (exists st,
     gradient_statistics [("w", three_values)] = Ok st /\
     num_parameters st = length [("w", three_values)] /\
     total_elements st = total_numel [("w", three_values)] /\
     l2_norm st = compute_gradient_norm [("w", three_values)] /\
     (forall x, In x (all_elements [("w", three_values)]) ->
        0 <= min_value st <= Rabs x /\ Rabs x <= max_value st) /\
     (exists x, In x (all_elements [("w", three_values)]) /\ min_value st = Rabs x) /\
     (exists x, In x (all_elements [("w", three_values)]) /\ max_value st = Rabs x) /\
     max_value st <= l2_norm st).
Proof.
  assert (H1 : [("w", three_values)] <> [])
    by (discriminate).
  assert (H2 : Forall (fun t => data t <> []) (dict_values [("w", three_values)]))
    by (simpl; constructor; [easy | constructor]).
  split; [exact H1 |].
  split; [exact H2 |].
  exact (statistics_bracket_magnitudes [("w", three_values)] H1 H2).
Defined.

Lemma statistics_mean_of_means_witness :
  ([("w", three_values)] <> []) /\
  (Forall (fun t => data t <> []) (dict_values [("w", three_values)])) /\
  (exists st,
     gradient_statistics [("w", three_values)] = Ok st /\
     mean_value st = Rsum (map tensor_mean (dict_values [("w", three_values)])) / INR (length [("w", three_values)]) /\
     Rabs (mean_value st) <= max_value st /\
     (forall n, Forall (fun t => numel t = n) (dict_values [("w", three_values)]) ->
        mean_value st = Rsum (all_elements [("w", three_values)]) / INR (total_numel [("w", three_values)]))).
Proof.
  assert (H1 : [("w", three_values)] <> [])
    by (discriminate).
  assert (H2 : Forall (fun t => data t <> []) (dict_values [("w", three_values)]))
    by (simpl; constructor; [easy | constructor]).
  split; [exact H1 |].
  split; [exact H2 |].
  exact (statistics_mean_of_means [("w", three_values)] H1 H2).
Defined.

Lemma statistics_reject_empty_tensor_witness :
  (In ("w", (mkTensor [0%nat] [])) [("w", mkTensor [0%nat] [])]) /\
  (data (mkTensor [0%nat] []) = []) /\
  (gradient_statistics [("w", mkTensor [0%nat] [])] = Raise RuntimeError).
Proof.
  assert (H1 : In ("w", (mkTensor [0%nat] [])) [("w", mkTensor [0%nat] [])])
    by (now left).
  assert (H2 : data (mkTensor [0%nat] []) = [])
    by (reflexivity).
  split; [exact H1 |].
  split; [exact H2 |].
  exact (statistics_reject_empty_tensor [("w", mkTensor [0%nat] [])] "w" (mkTensor [0%nat] []) H1 H2).
Defined.

Lemma aggregate_is_elementwise_mean_witness :
  (NoDup (dict_keys [("a", one_value)])) /\
  ((forall g, In g [[("a", one_value)]] -> layout g = layout [("a", one_value)])) /\
  (exists r,
     aggregate_gradients ([("a", one_value)] :: [[("a", one_value)]]) = Ok r /\
     layout r = layout [("a", one_value)] /\
     forall name j,
       element r name j =
       Rsum (map (fun g => element g name j) ([("a", one_value)] :: [[("a", one_value)]])) /
       INR (length ([("a", one_value)] :: [[("a", one_value)]]))).
Proof.
  assert (H1 : NoDup (dict_keys [("a", one_value)]))
    by (apply nodupb_sound; reflexivity).
  assert (H2 : (forall g, In g [[("a", one_value)]] -> layout g = layout [("a", one_value)]))
    by (intros g0 [<- | []]; reflexivity).
  split; [exact H1 |].
  split; [exact H2 |].
  exact (aggregate_is_elementwise_mean [("a", one_value)] [[("a", one_value)]] H1 H2).
Defined.

Lemma aggregate_singleton_witness :
  (NoDup (dict_keys [("w", three_values)])) /\
  (aggregate_gradients [[("w", three_values)]] = Ok [("w", three_values)]).
Proof.
  assert (H1 : NoDup (dict_keys [("w", three_values)]))
    by (apply nodupb_sound; reflexivity).
  split; [exact H1 |].
  exact (aggregate_singleton [("w", three_values)] H1).
Defined.

Lemma aggregate_two_commutes_witness :
  (NoDup (dict_keys [("a", three_values)])) /\
  (layout [("a", mkTensor [3%nat] [1; 2; 3])] = layout [("a", three_values)]) /\
  (aggregate_gradients [[("a", three_values)]; [("a", mkTensor [3%nat] [1; 2; 3])]] = aggregate_gradients [[("a", mkTensor [3%nat] [1; 2; 3])]; [("a", three_values)]]).
Proof.
  assert (H1 : NoDup (dict_keys [("a", three_values)]))
    by (apply nodupb_sound; reflexivity).
  assert (H2 : layout [("a", mkTensor [3%nat] [1; 2; 3])] = layout [("a", three_values)])
    by (reflexivity).
  split; [exact H1 |].
  split; [exact H2 |].
  exact (aggregate_two_commutes [("a", three_values)] [("a", mkTensor [3%nat] [1; 2; 3])] H1 H2).
Defined.

Lemma extract_gradients_fills_with_zeros_witness :
  (NoDup (map fst [("w", mkParam one_value None)])) /\
  (dict_keys (extract_gradients [("w", mkParam one_value None)]) = map fst [("w", mkParam one_value None)] /\
   (forall name p, In (name, p) [("w", mkParam one_value None)] ->
      dict_get (extract_gradients [("w", mkParam one_value None)]) name =
        Some (match param_grad p with
              | Some gr => gr
              | None => mkTensor (shape (param_value p))
                                 (repeat 0 (numel (param_value p)))
              end)) /\
   compute_gradient_norm (extract_gradients [("w", mkParam one_value None)]) =
     compute_gradient_norm (extract_gradients (filter has_grad [("w", mkParam one_value None)]))).
Proof.
  assert (H1 : NoDup (map fst [("w", mkParam one_value None)]))
    by (apply nodupb_sound; reflexivity).
  split; [exact H1 |].
  exact (extract_gradients_fills_with_zeros [("w", mkParam one_value None)] H1).
Defined.

Lemma add_noise_perturbs_each_element_witness :
  (NoDup (dict_keys [("w", three_values)])) /\
  (exists noisy,
     add_noise_to_gradients [("w", three_values)] 1 (fun _ : nat => 1) 0%nat =
       Ok (noisy, (0%nat + total_numel [("w", three_values)])%nat) /\
     layout noisy = layout [("w", three_values)] /\
     (forall name t, In (name, t) [("w", three_values)] ->
        exists off,
          (0%nat <= off)%nat /\
          (off + numel t <= 0%nat + total_numel [("w", three_values)])%nat /\
          forall j, (j < numel t)%nat ->
            element noisy name j =
            nth j (data t) 0 + (fun _ : nat => 1) (off + j)%nat * 1) /\
     (1 = 0 -> noisy = [("w", three_values)])).
Proof.
  assert (H1 : NoDup (dict_keys [("w", three_values)]))
    by (apply nodupb_sound; reflexivity).
  split; [exact H1 |].
  exact (add_noise_perturbs_each_element [("w", three_values)] 1 (fun _ : nat => 1) 0%nat H1).
Defined.

Lemma quantized_payload_in_range_witness :
  (wf_gradients [("w", three_values)]) /\
  ((1 <= 8%Z <= 8)%Z) /\
  (exists q p,
     quantize_gradients [("w", three_values)] 8%Z =
       Ok (PyDict [("gradients", PyDict q); ("params", PyDict p)]) /\
     dict_keys q = dict_keys [("w", three_values)] /\ dict_keys p = dict_keys [("w", three_values)] /\
     forall name t, In (name, t) [("w", three_values)] ->
       exists levels step lo,
         dict_get q name = Some (PyByteTensor (mkByteTensor (shape t) levels)) /\
         dict_get p name =
           Some (PyDict [("scale", PyFloat step); ("zero_point", PyFloat lo)]) /\
         length levels = numel t /\
         Forall (fun l => (0 <= l <= 2 ^ 8%Z - 1)%Z) levels /\
         0 <= step /\ tensor_min t = Ok lo /\
         (step = 0 -> Forall (fun l => l = 0%Z) levels)).
Proof.
  assert (H1 : wf_gradients [("w", three_values)])
    by (apply wf_gradientsb_sound; reflexivity).
  assert (H2 : (1 <= 8%Z <= 8)%Z)
    by (lia).
  split; [exact H1 |].
  split; [exact H2 |].
  exact (quantized_payload_in_range [("w", three_values)] 8%Z H1 H2).
Defined.

Lemma quantize_roundtrip_keeps_order_witness :
  (wf_gradients [("w", three_values)]) /\
  ((1 <= 8%Z <= 8)%Z) /\
  (exists payload g',
     quantize_gradients [("w", three_values)] 8%Z = Ok payload /\
     dequantize_gradients payload = Ok g' /\
     Forall2 (fun t t' =>
                exists lo,
                  tensor_min t = Ok lo /\
                  length (data t') = length (data t) /\
                  forall x x', In (x, x') (combine (data t) (data t')) ->
                    lo <= x' /\
                    (x = lo -> x' = lo) /\
                    forall y y', In (y, y') (combine (data t) (data t')) ->
                      x <= y -> x' <= y')
             (dict_values [("w", three_values)]) (dict_values g')).
Proof.
  assert (H1 : wf_gradients [("w", three_values)])
    by (apply wf_gradientsb_sound; reflexivity).
  assert (H2 : (1 <= 8%Z <= 8)%Z)
    by (lia).
  split; [exact H1 |].
  split; [exact H2 |].
  exact (quantize_roundtrip_keeps_order [("w", three_values)] 8%Z H1 H2).
Defined.

Lemma quantize_zero_bits_divides_by_zero_witness :
  (wf_gradients [("w", three_values)]) /\
  ([("w", three_values)] <> []) /\
  (quantize_gradients [("w", three_values)] 0 = Raise ZeroDivisionError /\
   quantize_gradients [] 0 =
     Ok (PyDict [("gradients", PyDict []); ("params", PyDict [])])).
Proof.
  assert (H1 : wf_gradients [("w", three_values)])
    by (apply wf_gradientsb_sound; reflexivity).
  assert (H2 : [("w", three_values)] <> [])
    by (discriminate).
  split; [exact H1 |].
  split; [exact H2 |].
  exact (quantize_zero_bits_divides_by_zero [("w", three_values)] H1 H2).
Defined.

Lemma quantize_rejects_empty_tensor_witness :
  (8%Z <> 0%Z) /\
  ((8%Z <= 8)%Z) /\
  (In ("w", (mkTensor [0%nat] [])) [("w", mkTensor [0%nat] [])]) /\
  (data (mkTensor [0%nat] []) = []) /\
  (quantize_gradients [("w", mkTensor [0%nat] [])] 8%Z = Raise RuntimeError).
Proof.
  assert (H1 : 8%Z <> 0%Z)
    by (lia).
  assert (H2 : (8%Z <= 8)%Z)
    by (lia).
  assert (H3 : In ("w", (mkTensor [0%nat] [])) [("w", mkTensor [0%nat] [])])
    by (now left).
  assert (H4 : data (mkTensor [0%nat] []) = [])
    by (reflexivity).
  split; [exact H1 |].
  split; [exact H2 |].
  split; [exact H3 |].
  split; [exact H4 |].
  exact (quantize_rejects_empty_tensor [("w", mkTensor [0%nat] [])] 8%Z "w" (mkTensor [0%nat] []) H1 H2 H3 H4).
Defined.

Lemma quantize_negative_bits_flatten_witness :
  (wf_gradients [("w", three_values)]) /\
  (((-1)%Z < 0)%Z) /\
  (exists payload g',
     quantize_gradients [("w", three_values)] (-1)%Z = Ok payload /\
     dequantize_gradients payload = Ok g' /\
     dict_keys g' = dict_keys [("w", three_values)] /\
     Forall2 (fun t t' =>
                exists lo, tensor_min t = Ok lo /\ shape t' = shape t /\
                           data t' = map (fun _ => lo) (data t))
             (dict_values [("w", three_values)]) (dict_values g')).
Proof.
  assert (H1 : wf_gradients [("w", three_values)])
    by (apply wf_gradientsb_sound; reflexivity).
  assert (H2 : ((-1)%Z < 0)%Z)
    by (lia).
  split; [exact H1 |].
  split; [exact H2 |].
  exact (quantize_negative_bits_flatten [("w", three_values)] (-1)%Z H1 H2).
Defined.

Lemma sparse_payload_holds_largest_witness :
  (wf_gradients [("w", three_values)]) /\
  (0 <= (1 / 2) < 1) /\
  (exists sp,
     sparsify_gradients [("w", three_values)] (1 / 2) = Ok (PyDict sp) /\
     dict_keys sp = dict_keys [("w", three_values)] /\
     forall name t, In (name, t) [("w", three_values)] ->
       exists vals idxs,
         dict_get sp name =
           Some (PyDict [("values", PyTensor (mkTensor [length vals] vals));
                         ("indices", PyIndexTensor idxs);
                         ("shape", PySize (shape t))]) /\
         NoDup idxs /\
         Forall (fun i => (i < numel t)%nat) idxs /\
         vals = map (fun i => nth i (data t) 0) idxs /\
         magnitudes_descend vals /\
         forall i j, In i idxs -> (j < numel t)%nat -> ~ In j idxs ->
           Rabs (nth j (data t) 0) <= Rabs (nth i (data t) 0)).
Proof.
  assert (H1 : wf_gradients [("w", three_values)])
    by (apply wf_gradientsb_sound; reflexivity).
  assert (H2 : 0 <= (1 / 2) < 1)
    by (lra).
  split; [exact H1 |].
  split; [exact H2 |].
  exact (sparse_payload_holds_largest [("w", three_values)] (1 / 2) H1 H2).
Defined.


Lemma sparse_ratio_counts_values_and_offsets_witness :
  (wf_gradients [("w", three_values)]) /\
  ([("w", three_values)] <> []) /\
  (dict_get [("w", three_values)] "params" = None) /\
  (0 <= (1 / 2) < 1) /\
  (exists payload r,
     sparsify_gradients [("w", three_values)] (1 / 2) = Ok payload /\
     estimate_compression_ratio [("w", three_values)] payload = Ok r /\
     r = INR (total_numel [("w", three_values)]) / (2 * INR (stored_values payload)) /\
     (1 <= stored_values payload <= total_numel [("w", three_values)])%nat /\
     1 / 2 <= r /\
     (1 < r <-> (2 * stored_values payload < total_numel [("w", three_values)])%nat)).
Proof.
  assert (H1 : wf_gradients [("w", three_values)])
    by (apply wf_gradientsb_sound; reflexivity).
  assert (H2 : [("w", three_values)] <> [])
    by (discriminate).
  assert (H3 : dict_get [("w", three_values)] "params" = None)
    by (reflexivity).
  assert (H4 : 0 <= (1 / 2) < 1)
    by (lra).
  split; [exact H1 |].
  split; [exact H2 |].
  split; [exact H3 |].
  split; [exact H4 |].
  exact (sparse_ratio_counts_values_and_offsets [("w", three_values)] (1 / 2) H1 H2 H3 H4).
Defined.


Lemma compress_fails_exactly_on_unknown_method_witness :
  (wf_gradients [("w", three_values)]) /\
  ((1 <= requested_bits no_kwargs <= 8)%Z) /\
  ((match kw_sparsity no_kwargs with Some s => 0 <= s < 1 | None => True end)) /\
  ((fails (compress_gradients [("w", three_values)] "zip" no_kwargs) <->
    "zip" <> m_quantize /\ "zip" <> m_sparsify /\ "zip" <> m_none) /\
   (fails (compress_gradients [("w", three_values)] "zip" no_kwargs) ->
    compress_gradients [("w", three_values)] "zip" no_kwargs = Raise ValueError)).
Proof.
  assert (H1 : wf_gradients [("w", three_values)])
    by (apply wf_gradientsb_sound; reflexivity).
  assert (H2 : (1 <= requested_bits no_kwargs <= 8)%Z)
    by (unfold requested_bits; simpl; lia).
  assert (H3 : (match kw_sparsity no_kwargs with Some s => 0 <= s < 1 | None => True end))
    by (exact I).
  split; [exact H1 |].
  split; [exact H2 |].
  split; [exact H3 |].
  exact (compress_fails_exactly_on_unknown_method [("w", three_values)] "zip" no_kwargs H1 H2 H3).
Defined.

Lemma save_results_readable_iff_witness :
  (wf_gradients [("w", three_values)]) /\
  ([("w", three_values)] <> []) /\
  (dict_get [("w", three_values)] "values" = None) /\
  (dict_get [("w", three_values)] "params" = None) /\
  (exists saved ratio clipped,
     save_results [("w", three_values)] "quantize" (@None R) = Ok (saved, ratio) /\
     clipped = match (@None R) with
               | Some m => clip_gradients [("w", three_values)] m
               | None => [("w", three_values)]
               end /\
     (ratio = None <-> "quantize" = "none") /\
     (fails (decompress_gradients saved) <->
      "quantize" = "none" \/ "quantize" = "sparsify") /\
     ("quantize" <> "none" -> "quantize" <> "quantize" -> "quantize" <> "sparsify" ->
      saved = PyDict [("gradients", py_gradients clipped);
                      ("method", PyStr "none")] /\
      ratio = Some 1)).
Proof.
  assert (H1 : wf_gradients [("w", three_values)])
    by (apply wf_gradientsb_sound; reflexivity).
  assert (H2 : [("w", three_values)] <> [])
    by (discriminate).
  assert (H3 : dict_get [("w", three_values)] "values" = None)
    by (reflexivity).
  assert (H4 : dict_get [("w", three_values)] "params" = None)
    by (reflexivity).
  split; [exact H1 |].
  split; [exact H2 |].
  split; [exact H3 |].
  split; [exact H4 |].
  exact (save_results_readable_iff [("w", three_values)] "quantize" (@None R) H1 H2 H3 H4).
Defined.

Lemma sparsify_rejects_empty_tensor_witness :
  (In ("w", (mkTensor [0%nat] [])) [("w", mkTensor [0%nat] [])]) /\
  (data (mkTensor [0%nat] []) = []) /\
  (sparsify_gradients [("w", mkTensor [0%nat] [])] (1 / 2) = Raise RuntimeError).
Proof.
  assert (H1 : In ("w", (mkTensor [0%nat] [])) [("w", mkTensor [0%nat] [])])
    by (now left).
  assert (H2 : data (mkTensor [0%nat] []) = [])
    by (reflexivity).
  split; [exact H1 |].
  split; [exact H2 |].
  exact (sparsify_rejects_empty_tensor [("w", mkTensor [0%nat] [])] (1 / 2) "w" (mkTensor [0%nat] []) H1 H2).
Defined.

Lemma sparsify_rejects_far_sparsity_witness :
  (wf_gradients [("w", three_values)]) /\
  ([("w", three_values)] <> []) /\
  (2 <= -1 \/ 2 <= 2) /\
  (sparsify_gradients [("w", three_values)] 2 = Raise RuntimeError).
Proof.
  assert (H1 : wf_gradients [("w", three_values)])
    by (apply wf_gradientsb_sound; reflexivity).
  assert (H2 : [("w", three_values)] <> [])
    by (discriminate).
  assert (H3 : 2 <= -1 \/ 2 <= 2)
    by (right; lra).
  split; [exact H1 |].
  split; [exact H2 |].
  split; [exact H3 |].
  exact (sparsify_rejects_far_sparsity [("w", three_values)] 2 H1 H2 H3).
Defined.

(* ================================================================== *)
(** * The count of the machine *)
(* ================================================================== *)

Lemma top_pairs_valid (k : Z) (t : Tensor) (p : R * nat) :
  In p (top_pairs k t) ->
  (snd p < numel t)%nat /\ fst p = Rabs (nth (snd p) (data t) 0).
Proof.
  unfold top_pairs. intros Hin. apply in_firstn in Hin.
  apply (Permutation_in _ (sort_desc_perm _)) in Hin.
  now apply combine_abs_seq.
Qed.

Lemma top_pairs_length (k : Z) (t : Tensor) :
  (0 <= k <= Z.of_nat (numel t))%Z -> length (top_pairs k t) = Z.to_nat k.
Proof.
  intros Hk. unfold top_pairs.
  rewrite length_firstn, sort_desc_length, length_combine, length_map, length_seq.
  fold (numel t). lia.
Qed.

(** One pass of the loop with the count of the machine: the record of the
    [k] largest elements when [k] fits ... *)
Lemma machine_step_ok (sparsity : spec_float) (acc : dict pyval)
  (name : string) (t : Tensor) (k : Z) :
  Binary64.sparsify_k (numel t) sparsity = Ok k ->
  (0 <= k <= Z.of_nat (numel t))%Z ->
  Binary64.sparsify_step sparsity acc (name, t) =
  Ok (dict_set acc name (top_record k t)).
Proof.
  intros Hk [Hk0 Hkn]. unfold Binary64.sparsify_step. simpl fst. simpl snd.
  rewrite Hk. cbn [bind]. unfold topk. rewrite length_map. fold (numel t).
  destruct (Z.ltb_spec k 0); [lia |].
  destruct (Z.ltb_spec (Z.of_nat (numel t)) k); [lia |].
  simpl. fold (top_pairs k t).
  rewrite index_select_ok.
  - simpl. unfold top_record. do 4 f_equal.
    rewrite !map_map, zip_with_map.
    assert (E : map (fun a => fst a * sign (nth (snd a) (data t) 0)) (top_pairs k t)
                = map (fun p => nth (snd p) (data t) 0) (top_pairs k t)).
    { apply map_ext_in. intros p Hp.
      destruct (top_pairs_valid _ _ _ Hp) as [_ ->]. apply sign_abs. }
    rewrite E. now rewrite length_map.
  - apply Forall_forall. intros i Hi. apply in_map_iff in Hi.
    destruct Hi as (p & <- & Hp). now destruct (top_pairs_valid _ _ _ Hp).
Qed.

(** ... and an exception when it does not. *)
Lemma machine_step_fails (sparsity : spec_float) (acc : dict pyval)
  (name : string) (t : Tensor) :
  count_fits (numel t) sparsity = false ->
  fails (Binary64.sparsify_step sparsity acc (name, t)).
Proof.
  unfold count_fits, Binary64.sparsify_step. simpl fst. simpl snd.
  destruct (Binary64.sparsify_k (numel t) sparsity) as [k | e]; cbn [bind];
    [| intros _; now exists e].
  intros Hk. unfold topk. rewrite length_map. fold (numel t).
  destruct (Z.ltb_spec k 0) as [Hneg | Hpos]; [now exists RuntimeError |].
  destruct (Z.ltb_spec (Z.of_nat (numel t)) k) as [Hbig | Hsmall];
    [now exists RuntimeError |].
  apply andb_false_iff in Hk. destruct Hk as [Hk | Hk].
  - apply Z.leb_gt in Hk. lia.
  - apply Z.leb_gt in Hk. lia.
Qed.

Lemma forallb_false_exists {A : Type} (f : A -> bool) (l : list A) :
  forallb f l = false -> exists x, In x l /\ f x = false.
Proof.
  induction l as [| a l IH]; simpl; [discriminate |].
  destruct (f a) eqn:Ha; simpl.
  - intros H. destruct (IH H) as (x & Hx & Hf). exists x. split; [now right | exact Hf].
  - intros _. exists a. split; [now left | exact Ha].
Qed.

(** The count of the machine is never [0]. *)
Lemma machine_count_nonzero (n : nat) (sparsity : spec_float) (k : Z) :
  Binary64.sparsify_k n sparsity = Ok k -> k <> 0%Z.
Proof.
  unfold Binary64.sparsify_k.
  destruct (Binary32.float_of_int (Z.of_nat n)) as [f | e]; cbn [bind];
    [| discriminate].
  destruct (Binary64.py_int _) as [k0 | e]; cbn [bind]; [| discriminate].
  intros H. inversion H. destruct (Z.eqb_spec k0 0); lia.
Qed.

(** The loop with the count of the machine, for any sparsity: success with
    the records of the [k] largest elements when every count fits, an
    exception otherwise. *)
Lemma machine_sparsify_cases (g : GradientSet)
  (sparsity : spec_float) :
  NoDup (dict_keys g) ->
  if counts_fit g sparsity then
    exists sp,
      Binary64.sparsify_gradients g sparsity = Ok (PyDict sp) /\
      forall name t, In (name, t) g ->
        exists k vals idxs,
          Binary64.sparsify_k (numel t) sparsity = Ok k /\
          (1 <= k <= Z.of_nat (numel t))%Z /\
          dict_get sp name =
            Some (PyDict [("values", PyTensor (mkTensor [length vals] vals));
                          ("indices", PyIndexTensor idxs);
                          ("shape", PySize (shape t))]) /\
          length vals = Z.to_nat k /\ length idxs = Z.to_nat k
  else fails (Binary64.sparsify_gradients g sparsity).
Proof.
  intros Hnd. destruct (counts_fit g sparsity) eqn:Hfit.
  - unfold counts_fit in Hfit. rewrite forallb_forall in Hfit.
    assert (Hk : forall name t, In (name, t) g ->
                   exists k, Binary64.sparsify_k (numel t) sparsity = Ok k /\
                             (1 <= k <= Z.of_nat (numel t))%Z).
    { intros name t Hin. specialize (Hfit _ Hin). unfold count_fits in Hfit.
      simpl in Hfit.
      destruct (Binary64.sparsify_k (numel t) sparsity) as [k | e] eqn:E;
        [| discriminate].
      exists k. split; [reflexivity |].
      apply andb_prop in Hfit. destruct Hfit as [H0 Hn].
      apply Z.leb_le in H0. apply Z.leb_le in Hn.
      pose proof (machine_count_nonzero _ _ _ E). lia. }
    set (count := fun t : Tensor =>
                    match Binary64.sparsify_k (numel t) sparsity with
                    | Ok k => k
                    | Raise _ => 0%Z
                    end).
    exists (map (fun it => (fst it, top_record (count (snd it)) (snd it))) g).
    split.
    + unfold Binary64.sparsify_gradients.
      rewrite (for_each_dict_set (Binary64.sparsify_step sparsity) g
                 (map (fun it => (fst it, top_record (count (snd it)) (snd it))) g)).
      * reflexivity.
      * rewrite <- (map_id g) at 1. apply Forall2_map_same.
        intros [name t] Hin. split; [reflexivity |]. intros acc. simpl.
        destruct (Hk name t Hin) as (k & E & Hr).
        unfold count. rewrite E. apply machine_step_ok; [exact E | lia].
      * exact Hnd.
      * simpl. tauto.
    + intros name t Hin. destruct (Hk name t Hin) as (k & E & Hr).
      exists k, (map (fun p => nth (snd p) (data t) 0) (top_pairs k t)),
             (map snd (top_pairs k t)).
      split; [exact E |]. split; [exact Hr |].
      rewrite !length_map, top_pairs_length by lia.
      split; [| split; reflexivity].
      rewrite (dict_get_in _ name (top_record k t)).
      * unfold top_record. now rewrite top_pairs_length by lia.
      * unfold dict_keys. now rewrite map_fst_pair.
      * replace k with (count t) by (unfold count; now rewrite E).
        apply (in_map (fun it => (fst it, top_record (count (snd it)) (snd it)))
                      g _ Hin).
  - apply forallb_false_exists in Hfit. destruct Hfit as ([name t] & Hin & Hf).
    simpl in Hf. unfold Binary64.sparsify_gradients.
    destruct (for_each_fails_under (fun _ => True)
                (Binary64.sparsify_step sparsity) g (name, t) []) as [e He];
      trivial.
    + intros s _. now apply machine_step_fails.
    + rewrite He. now exists e.
Qed.

(** X27.  For a set with distinct names and any sparsity, let [k] be, for
    each tensor of [n] elements, what Python computes for
    [int(n * (1 - sparsity))] in binary64 (the difference and the product
    rounded to nearest, the fraction dropped), and [1] when that is [0].
    When every [k] lies between [1] and [n], [sparsify_gradients] succeeds
    and keeps exactly [k] values and [k] offsets of each tensor; otherwise
    it raises. *)
Theorem sparsify_machine_count_cases (g : GradientSet)
  (sparsity : spec_float) :
  NoDup (dict_keys g) ->
  if counts_fit g sparsity then
    exists sp,
      Binary64.sparsify_gradients g sparsity = Ok (PyDict sp) /\
      forall name t, In (name, t) g ->
        exists k vals idxs,
          Binary64.sparsify_k (numel t) sparsity = Ok k /\
          (1 <= k <= Z.of_nat (numel t))%Z /\
          dict_get sp name =
            Some (PyDict [("values", PyTensor (mkTensor [length vals] vals));
                          ("indices", PyIndexTensor idxs);
                          ("shape", PySize (shape t))]) /\
          length vals = Z.to_nat k /\ length idxs = Z.to_nat k
  else fails (Binary64.sparsify_gradients g sparsity).
Proof. exact (machine_sparsify_cases g sparsity). Qed.

(** ** Rounding to the nearest binary64 number *)

Section Rounding.
Local Open Scope Z_scope.

Lemma digits2_pos_bounds (p : positive) :
  2 ^ (Zpos (digits2_pos p) - 1) <= Zpos p < 2 ^ Zpos (digits2_pos p).
Proof.
  induction p as [p IH | p IH |]; simpl digits2_pos.
  - rewrite Pos2Z.inj_succ.
    replace (Z.succ (Zpos (digits2_pos p)) - 1) with (Z.succ (Zpos (digits2_pos p) - 1)) by lia.
    rewrite !Z.pow_succ_r by lia. lia.
  - rewrite Pos2Z.inj_succ.
    replace (Z.succ (Zpos (digits2_pos p)) - 1) with (Z.succ (Zpos (digits2_pos p) - 1)) by lia.
    rewrite !Z.pow_succ_r by lia. lia.
  - simpl. lia.
Qed.

Lemma iter_pos_nat {A : Type} (f : A -> A) (p : positive) (x : A) :
  iter_pos f p x = Nat.iter (Pos.to_nat p) f x.
Proof.
  revert x. induction p as [p IH | p IH |]; intros x; cbn [iter_pos].
  - rewrite !IH. rewrite Pos2Nat.inj_xI.
    replace (S (2 * Pos.to_nat p))%nat with (Pos.to_nat p + (Pos.to_nat p + 1))%nat by lia.
    rewrite !Nat.iter_add. simpl. reflexivity.
  - rewrite !IH. rewrite Pos2Nat.inj_xO.
    replace (2 * Pos.to_nat p)%nat with (Pos.to_nat p + Pos.to_nat p)%nat by lia.
    now rewrite Nat.iter_add.
  - reflexivity.
Qed.

Lemma shr_1_spec (m : Z) (r s : bool) :
  0 <= m ->
  shr_1 (Build_shr_record m r s) = Build_shr_record (m / 2) (Z.odd m) (r || s).
Proof.
  intros Hm. destruct m as [| [p | p |] |]; try lia; simpl; f_equal.
  - rewrite Pos2Z.inj_xI. symmetry.
    replace (2 * Zpos p + 1) with (1 + Zpos p * 2) by lia.
    rewrite Z.div_add by lia. reflexivity.
  - rewrite Pos2Z.inj_xO. symmetry.
    replace (2 * Zpos p) with (Zpos p * 2) by lia.
    now rewrite Z.div_mul by lia.
Qed.

(** Shifting [n] times. *)
Lemma shr_iter_spec (m : Z) (n : nat) :
  0 <= m ->
  shr_m (Nat.iter n shr_1 (Build_shr_record m false false)) = m / 2 ^ Z.of_nat n /\
  (shr_r (Nat.iter n shr_1 (Build_shr_record m false false)) ||
   shr_s (Nat.iter n shr_1 (Build_shr_record m false false)) = true ->
   m mod 2 ^ Z.of_nat n <> 0).
Proof.
  intros Hm. induction n as [| n IH].
  - simpl. split; [now rewrite Z.div_1_r | discriminate].
  - assert (E : 2 ^ Z.of_nat (S n) = 2 * 2 ^ Z.of_nat n).
    { rewrite Nat2Z.inj_succ. apply Z.pow_succ_r. lia. }
    rewrite E. clear E.
    simpl Nat.iter.
    destruct (Nat.iter n shr_1 (Build_shr_record m false false)) as [m' r' s'].
    simpl in IH. destruct IH as [IHm IHr].
    assert (H2 : 0 < 2 ^ Z.of_nat n) by (apply Z.pow_pos_nonneg; lia).
    assert (Hm' : 0 <= m') by (rewrite IHm; apply Z.div_pos; [exact Hm | exact H2]).
    rewrite shr_1_spec by exact Hm'. cbn [shr_m shr_r shr_s]. split.
    + rewrite IHm. rewrite Z.div_div by lia. f_equal. lia.
    + intros H Hmod.
      assert (Hmod' : m mod 2 ^ Z.of_nat n = 0).
      { apply Z.mod_divide in Hmod; [| lia]. apply Z.mod_divide; [lia |].
        destruct Hmod as [c Hc]. exists (c * 2). lia. }
      apply orb_true_iff in H. destruct H as [H | H].
      * apply Z.mod_divide in Hmod; [| lia]. destruct Hmod as [c Hc].
        assert (m' = c * 2).
        { rewrite IHm. rewrite Hc.
          replace (c * (2 * 2 ^ Z.of_nat n)) with (c * 2 * 2 ^ Z.of_nat n) by lia.
          now rewrite Z.div_mul by lia. }
        rewrite H0 in H. rewrite Z.odd_mul in H. simpl in H.
        rewrite andb_false_r in H. discriminate.
      * now apply IHr.
Qed.

Lemma shr_spec (m e n : Z) :
  0 <= m ->
  snd (shr (Build_shr_record m false false) e n) = e + Z.max 0 n /\
  shr_m (fst (shr (Build_shr_record m false false) e n)) = m / 2 ^ Z.max 0 n /\
  (loc_of_shr_record (fst (shr (Build_shr_record m false false) e n)) <> loc_Exact ->
   m mod 2 ^ Z.max 0 n <> 0).
Proof.
  intros Hm. destruct n as [| p | p]; simpl shr; cbn [fst snd].
  - rewrite Z.max_l by lia. simpl. rewrite Z.div_1_r.
    repeat split; try lia. intros H. now contradiction H.
  - rewrite Z.max_r by lia. rewrite iter_pos_nat.
    destruct (shr_iter_spec m (Pos.to_nat p) Hm) as [H1 H2].
    rewrite positive_nat_Z in H1, H2.
    repeat split; trivial.
    intros H. apply H2.
    destruct (Nat.iter (Pos.to_nat p) shr_1 _) as [m' [|] [|]]; simpl in *;
      trivial. now contradiction H.
  - rewrite Z.max_l by lia. simpl. rewrite Z.div_1_r.
    repeat split; try lia. intros H. now contradiction H.
Qed.

Lemma round_nearest_even_spec (m : Z) (l : location) :
  m <= round_nearest_even m l <= m + 1 /\
  (l = loc_Exact -> round_nearest_even m l = m).
Proof.
  destruct l as [| []]; simpl; try destruct (Z.even m); split; try lia;
    try reflexivity; discriminate.
Qed.

(** The two stages of [binary_round_aux] on an exact input. *)
Lemma binary_round_aux_stages (prec emax : Z) (sx : bool) (M E : Z) :
  0 <= M ->
  exists k1 m1 k2,
    k1 = Z.max 0 (fexp prec emax (Zdigits2 M + E) - E) /\
    M / 2 ^ k1 <= m1 <= M / 2 ^ k1 + 1 /\
    (m1 = M / 2 ^ k1 \/ M mod 2 ^ k1 <> 0) /\
    0 <= k2 /\
    binary_round_aux prec emax sx M E loc_Exact =
    match m1 / 2 ^ k2 with
    | Z0 => S754_zero sx
    | Zpos m => if E + k1 + k2 <=? emax - prec then S754_finite sx m (E + k1 + k2)
                else S754_infinity sx
    | Zneg _ => S754_nan
    end.
Proof.
  intros HM. unfold binary_round_aux, shr_fexp. simpl shr_record_of_loc.
  set (n1 := fexp prec emax (Zdigits2 M + E) - E).
  destruct (shr_spec M E n1 HM) as (He1 & Hm1 & Hl1).
  destruct (shr (Build_shr_record M false false) E n1) as [mrs1 e1].
  cbn [fst snd] in *.
  destruct (round_nearest_even_spec (shr_m mrs1) (loc_of_shr_record mrs1))
    as [Hr1 Hr2].
  set (m1 := round_nearest_even (shr_m mrs1) (loc_of_shr_record mrs1)) in *.
  assert (H2 : 0 < 2 ^ Z.max 0 n1) by (apply Z.pow_pos_nonneg; lia).
  assert (Hm1' : 0 <= m1).
  { assert (0 <= M / 2 ^ Z.max 0 n1) by (apply Z.div_pos; lia). lia. }
  set (n2 := fexp prec emax (Zdigits2 m1 + e1) - e1).
  destruct (shr_spec m1 e1 n2 Hm1') as (He2 & Hm2 & _).
  destruct (shr (Build_shr_record m1 false false) e1 n2) as [mrs2 e2].
  cbn [fst snd] in *.
  exists (Z.max 0 n1), m1, (Z.max 0 n2).
  split; [reflexivity |]. split; [lia |]. split.
  - destruct (loc_of_shr_record mrs1) eqn:Hloc.
    + left. rewrite <- Hm1. now apply Hr2.
    + right. apply Hl1. discriminate.
  - split; [lia |]. rewrite Hm2, He2, He1. reflexivity.
Qed.

End Rounding.

Lemma pow2_pos (e : Z) : 0 < powerRZ 2 e.
Proof. apply powerRZ_lt. lra. Qed.

Lemma pow2_add (a b : Z) : powerRZ 2 (a + b) = powerRZ 2 a * powerRZ 2 b.
Proof. apply powerRZ_add. lra. Qed.

Lemma pow2_le_inv (a b : Z) : powerRZ 2 a <= powerRZ 2 b -> (a <= b)%Z.
Proof.
  intros H. destruct (Z.le_gt_cases a b) as [Hab | Hab]; [exact Hab |].
  exfalso. replace a with (b + (a - b))%Z in H by lia.
  rewrite pow2_add in H.
  rewrite (powerRZ_2_nonneg (a - b)) in H by lia.
  assert (H2 : (2 ^ 1 <= 2 ^ (a - b))%Z) by (apply Z.pow_le_mono_r; lia).
  change (2 ^ 1)%Z with 2%Z in H2. apply IZR_le in H2.
  pose proof (pow2_pos b). nra.
Qed.

Lemma F2R_shift (m e k : Z) : (0 <= k)%Z -> F2R (m * 2 ^ k) e = F2R m (e + k).
Proof.
  intros Hk. unfold F2R. rewrite mult_IZR, pow2_add.
  rewrite <- (powerRZ_2_nonneg k) by exact Hk. ring.
Qed.

Lemma F2R_le (m m' e : Z) : (m <= m')%Z -> F2R m e <= F2R m' e.
Proof.
  intros H. unfold F2R. apply Rmult_le_compat_r.
  - left. apply pow2_pos.
  - now apply IZR_le.
Qed.

(** Rounding to binary64 a positive number that is at most an integer
    [N <= 2^53] gives a number that is at most [N]. *)
Lemma binary_round_aux_at_most (M E N : Z) :
  (0 < M)%Z -> (0 < N <= 2 ^ 53)%Z -> F2R M E <= IZR N ->
  at_most (binary_round_aux 53 1024 false M E loc_Exact) N.
Proof.
  intros HM HN Hle.
  destruct (binary_round_aux_stages 53 1024 false M E) as
    (k1 & m1 & k2 & Hk1 & Hm1 & Hex & Hk2 & ->); [lia |].
  assert (Hk1' : (0 <= k1)%Z) by lia.
  assert (P1 : (0 < 2 ^ k1)%Z) by (apply Z.pow_pos_nonneg; lia).
  assert (P2 : (0 < 2 ^ k2)%Z) by (apply Z.pow_pos_nonneg; lia).
  assert (Hq : (M / 2 ^ k1 * 2 ^ k1 <= M)%Z).
  { rewrite Z.mul_comm. apply Z.mul_div_le. exact P1. }
  assert (Hq0 : (0 <= M / 2 ^ k1)%Z) by (apply Z.div_pos; lia).
  (* the first stage stays below [N] *)
  assert (A : F2R m1 (E + k1) <= IZR N).
  { destruct Hex as [-> | Hmod].
    - rewrite <- F2R_shift by exact Hk1'.
      apply Rle_trans with (2 := Hle). now apply F2R_le.
    - assert (Hk1pos : (0 < k1)%Z).
      { destruct (Z.eq_dec k1 0) as [E0 | E0]; [| lia].
        rewrite E0 in Hmod. simpl in Hmod. rewrite Z.mod_1_r in Hmod.
        now contradiction Hmod. }
      assert (He1 : (E + k1 = fexp 53 1024 (Zdigits2 M + E))%Z) by lia.
      assert (Hlt : (M / 2 ^ k1 * 2 ^ k1 < M)%Z).
      { pose proof (Z.div_mod M (2 ^ k1)).
        pose proof (Z.mod_pos_bound M (2 ^ k1) P1). lia. }
      destruct (Z.le_gt_cases (E + k1) 0) as [Hneg | Hpos].
      + (* the grid is finer than the integers *)
        assert (Hlt' : F2R (M / 2 ^ k1) (E + k1) < IZR N).
        { rewrite <- F2R_shift by exact Hk1'.
          apply Rlt_le_trans with (2 := Hle). unfold F2R.
          apply Rmult_lt_compat_r; [apply pow2_pos | now apply IZR_lt]. }
        unfold F2R in *.
        assert (Hinv : powerRZ 2 (E + k1) * powerRZ 2 (- (E + k1)) = 1).
        { rewrite <- pow2_add. now replace (E + k1 + - (E + k1))%Z with 0%Z by lia. }
        pose proof (pow2_pos (E + k1)) as Hp.
        pose proof (pow2_pos (- (E + k1))) as Hp'.
        rewrite (powerRZ_2_nonneg (- (E + k1))) in Hinv, Hp' by lia.
        assert (HB : (M / 2 ^ k1 < N * 2 ^ (- (E + k1)))%Z).
        { apply lt_IZR. rewrite mult_IZR.
          apply Rmult_lt_reg_r with (1 := Hp).
          rewrite Rmult_assoc, (Rmult_comm (IZR (2 ^ _))), Hinv. lra. }
        assert (HB' : (m1 <= N * 2 ^ (- (E + k1)))%Z) by lia.
        apply IZR_le in HB'. rewrite mult_IZR in HB'.
        apply Rmult_le_compat_r with (r := powerRZ 2 (E + k1)) in HB';
          [| lra].
        rewrite Rmult_assoc, (Rmult_comm (IZR (2 ^ _))), Hinv in HB'. lra.
      + (* a coarser grid: the number is [2^53] itself *)
        exfalso. apply Hmod.
        destruct M as [| p |]; try lia.
        pose proof (digits2_pos_bounds p) as Hd. simpl Zdigits2 in He1.
        set (d := Zpos (digits2_pos p)) in *.
        unfold fexp, emin in He1.
        assert (He1' : (E + k1 = d + E - 53)%Z) by lia.
        assert (Hd1 : powerRZ 2 (d - 1) <= IZR (Zpos p)).
        { rewrite powerRZ_2_nonneg by lia. apply IZR_le. lia. }
        assert (H53 : IZR N <= powerRZ 2 53).
        { rewrite powerRZ_2_nonneg by lia. apply IZR_le. lia. }
        assert (Hsum : (d - 1 + E <= 53)%Z).
        { apply pow2_le_inv. rewrite pow2_add. unfold F2R in Hle.
          pose proof (pow2_pos E). nra. }
        assert (HE : (E = 54 - d)%Z) by lia.
        assert (Hp : (Zpos p <= 2 ^ (d - 1))%Z).
        { apply le_IZR. rewrite <- powerRZ_2_nonneg by lia.
          unfold F2R in Hle.
          assert (H := pow2_add (d - 1) E).
          replace (d - 1 + E)%Z with 53%Z in H by lia.
          pose proof (pow2_pos E). nra. }
        assert (Hp' : Zpos p = (2 ^ (d - 1))%Z) by lia.
        rewrite Hp'. replace (d - 1)%Z with (52 + k1)%Z by lia.
        rewrite Z.pow_add_r by lia. apply Z.mod_mul. lia. }
  (* the second stage only truncates *)
  assert (Hm1' : (0 <= m1)%Z) by lia.
  assert (Hq2 : (m1 / 2 ^ k2 * 2 ^ k2 <= m1)%Z).
  { rewrite Z.mul_comm. apply Z.mul_div_le. exact P2. }
  assert (B : F2R (m1 / 2 ^ k2) (E + k1 + k2) <= IZR N).
  { rewrite <- F2R_shift by exact Hk2.
    apply Rle_trans with (2 := A). now apply F2R_le. }
  assert (Hm2 : (0 <= m1 / 2 ^ k2)%Z) by (apply Z.div_pos; lia).
  destruct (m1 / 2 ^ k2)%Z as [| m | m]; simpl; trivial; [| lia].
  assert (He : (E + k1 + k2 <= 53)%Z).
  { apply pow2_le_inv. unfold F2R in B.
    assert (1 <= IZR (Zpos m)) by (apply IZR_le; lia).
    assert (IZR N <= powerRZ 2 53).
    { rewrite powerRZ_2_nonneg by lia. apply IZR_le. lia. }
    pose proof (pow2_pos (E + k1 + k2)). nra. }
  destruct (Z.leb_spec (E + k1 + k2) 971) as [_ | Hbig]; [| lia].
  exact B.
Qed.

Lemma iter_xO_pow (m d : positive) :
  Zpos (Pos.iter xO m d) = (Zpos m * 2 ^ Zpos d)%Z.
Proof.
  induction d as [| d IH] using Pos.peano_ind.
  - simpl. lia.
  - rewrite Pos.iter_succ, Pos2Z.inj_xO, IH, Pos2Z.inj_succ.
    rewrite Z.pow_succ_r by lia. lia.
Qed.

(** Aligning a mantissa on a smaller exponent keeps the number. *)
Lemma shl_align_spec (mx : positive) (ex ex' : Z) :
  F2R (Zpos (fst (shl_align mx ex ex'))) (snd (shl_align mx ex ex')) =
    F2R (Zpos mx) ex /\
  snd (shl_align mx ex ex') = Z.min ex ex'.
Proof.
  unfold shl_align. destruct (ex' - ex)%Z as [| d | d] eqn:Hd; cbn [fst snd].
  - split; [reflexivity | lia].
  - split; [reflexivity | lia].
  - split; [| lia].
    rewrite iter_xO_pow, F2R_shift by lia. f_equal. lia.
Qed.

Lemma binary_round_at_most (mx : positive) (ex N : Z) :
  (0 < N <= 2 ^ 53)%Z -> F2R (Zpos mx) ex <= IZR N ->
  at_most (binary_round 53 1024 false mx ex) N.
Proof.
  intros HN Hle. unfold binary_round.
  destruct (shl_align_spec mx ex (fexp 53 1024 (Zpos (digits2_pos mx) + ex)))
    as [Hv _].
  destruct (shl_align mx ex _) as [mz ez]. cbn [fst snd] in Hv.
  apply binary_round_aux_at_most; [lia | exact HN | now rewrite Hv].
Qed.

Lemma below_one_F2R (m : positive) (e : Z) :
  below_one (S754_finite false m e) = true -> F2R (Zpos m) e < 1.
Proof.
  simpl. intros H. apply andb_prop in H. destruct H as [He Hm].
  apply Z.ltb_lt in He. apply Z.ltb_lt in Hm.
  unfold F2R. apply IZR_lt in Hm.
  rewrite <- powerRZ_2_nonneg in Hm by lia.
  assert (Hinv : powerRZ 2 (- e) * powerRZ 2 e = 1).
  { rewrite <- pow2_add. now replace (- e + e)%Z with 0%Z by lia. }
  pose proof (pow2_pos e). nra.
Qed.

(** [1 - sparsity] is at most [1]. *)
Lemma kept_share_at_most (sparsity : spec_float) :
  below_one sparsity = true ->
  at_most (SFsub 53 1024 (Binary32.float64_of_Z 1) sparsity) 1.
Proof.
  intros Hs.
  change (Binary32.float64_of_Z 1) with (S754_finite false 4503599627370496 (-52)).
  destruct sparsity as [s | s | | [|] m e]; try discriminate.
  - simpl. unfold F2R. simpl. lra.
  - apply below_one_F2R in Hs.
    unfold SFsub. cbn [cond_Zopp].
    destruct (shl_align_spec 4503599627370496 (-52) (Z.min (-52) e)) as [Ha Ha'].
    destruct (shl_align_spec m e (Z.min (-52) e)) as [Hb Hb'].
    replace (Z.min (-52) (Z.min (-52) e)) with (Z.min (-52) e) in Ha' by lia.
    replace (Z.min e (Z.min (-52) e)) with (Z.min (-52) e) in Hb' by lia.
    rewrite Ha' in Ha. rewrite Hb' in Hb.
    set (a := fst (shl_align 4503599627370496 (-52) (Z.min (-52) e))) in *.
    set (b := fst (shl_align m e (Z.min (-52) e))) in *.
    assert (H1 : F2R (Zpos a) (Z.min (-52) e) = 1).
    { rewrite Ha. unfold F2R. simpl. lra. }
    assert (Hd : F2R (Zpos a - Zpos b) (Z.min (-52) e) = 1 - F2R (Zpos m) e).
    { rewrite <- Hb, <- H1. unfold F2R. rewrite minus_IZR. ring. }
    assert (Hpos : (0 < Zpos a - Zpos b)%Z).
    { apply lt_IZR. unfold F2R in Hd, Hs.
      pose proof (pow2_pos (Z.min (-52) e)).
      assert (0 < IZR (Zpos a - Zpos b) * powerRZ 2 (Z.min (-52) e)) by lra.
      nra. }
    destruct (Zpos a - Zpos b)%Z as [| d | d] eqn:E; try lia.
    unfold binary_normalize. apply binary_round_at_most; [lia |].
    rewrite Hd.
    assert (0 <= F2R (Zpos m) e).
    { unfold F2R. apply Rmult_le_pos; [apply IZR_le; lia |]. left. apply pow2_pos. }
    lra.
Qed.

(** An element count up to [2^53] is converted to a float that is at most
    that count. *)
Lemma float_of_int_at_most (n : Z) :
  (0 < n <= 2 ^ 53)%Z ->
  exists f, Binary32.float_of_int n = Ok f /\ at_most f n.
Proof.
  intros Hn. unfold Binary32.float_of_int, Binary32.float64_of_Z.
  destruct n as [| p |]; try lia. unfold binary_normalize.
  assert (H : at_most (binary_round 53 1024 false p 0) (Zpos p)).
  { apply binary_round_at_most; [exact Hn |]. unfold F2R. simpl. lra. }
  destruct (binary_round 53 1024 false p 0) as [[|] | | | [|] m e];
    try contradiction; eexists; split; try reflexivity; exact H.
Qed.

(** The product of two such numbers is at most the product of the
    bounds. *)
Lemma SFmul_at_most (x y : spec_float) (N : Z) :
  (0 < N <= 2 ^ 53)%Z -> at_most x N -> at_most y 1 ->
  at_most (SFmul 53 1024 x y) N.
Proof.
  intros HN Hx Hy.
  destruct x as [[|] | | | [|] mx ex]; try contradiction;
    destruct y as [[|] | | | [|] my ey]; try contradiction; simpl; trivial.
  apply binary_round_aux_at_most; [lia | exact HN |].
  simpl in Hx, Hy. unfold F2R in *.
  rewrite Pos2Z.inj_mul, mult_IZR, pow2_add.
  pose proof (pow2_pos ex). pose proof (pow2_pos ey).
  assert (0 < IZR (Zpos mx)) by (apply IZR_lt; lia).
  assert (0 < IZR (Zpos my)) by (apply IZR_lt; lia).
  assert (0 < IZR N) by (apply IZR_lt; lia).
  replace (IZR (Zpos mx) * IZR (Zpos my) * (powerRZ 2 ex * powerRZ 2 ey))
    with ((IZR (Zpos mx) * powerRZ 2 ex) * (IZR (Zpos my) * powerRZ 2 ey))
    by ring.
  replace (IZR N) with (IZR N * 1) by ring.
  apply Rmult_le_compat; trivial; apply Rmult_le_pos; lra.
Qed.

(** [int] of such a number lies between [0] and the bound. *)
Lemma py_int_at_most (x : spec_float) (N : Z) :
  (0 < N)%Z -> at_most x N ->
  exists z, Binary64.py_int x = Ok z /\ (0 <= z <= N)%Z.
Proof.
  intros HN Hx.
  destruct x as [[|] | | | [|] m e]; try contradiction;
    cbn [Binary64.py_int cond_Zopp at_most] in *.
  - exists 0%Z. split; [reflexivity | lia].
  - eexists. split; [reflexivity |]. unfold F2R in Hx.
    destruct (Z.leb_spec 0 e) as [He | He].
    + rewrite powerRZ_2_nonneg in Hx by exact He. rewrite <- mult_IZR in Hx.
      apply le_IZR in Hx.
      assert (0 < 2 ^ e)%Z by (apply Z.pow_pos_nonneg; lia).
      split; [apply Z.mul_nonneg_nonneg; lia | exact Hx].
    + assert (P : (0 < 2 ^ (- e))%Z) by (apply Z.pow_pos_nonneg; lia).
      split; [apply Z.div_pos; lia |].
      apply Z.div_le_upper_bound; [exact P |].
      apply le_IZR. rewrite mult_IZR, <- powerRZ_2_nonneg by lia.
      assert (Hinv : powerRZ 2 (- e) * powerRZ 2 e = 1).
      { rewrite <- pow2_add. now replace (- e + e)%Z with 0%Z by lia. }
      pose proof (pow2_pos e). pose proof (pow2_pos (- e)).
      assert (IZR (Zpos m) = IZR (Zpos m) * powerRZ 2 e * powerRZ 2 (- e)).
      { rewrite Rmult_assoc, (Rmult_comm (powerRZ 2 e)), Hinv. ring. }
      rewrite H1. rewrite (Rmult_comm (powerRZ 2 (- e))).
      apply Rmult_le_compat_r; lra.
Qed.

(** For a tensor that is not empty and a sparsity in [[0, 1)], the count
    of the machine exists and lies between [1] and the number of
    elements. *)
Lemma sparsify_k_below_one (n : nat) (sparsity : spec_float) :
  (0 < Z.of_nat n <= 2 ^ 53)%Z -> below_one sparsity = true ->
  exists k, Binary64.sparsify_k n sparsity = Ok k /\ (1 <= k <= Z.of_nat n)%Z.
Proof.
  intros Hn Hs. unfold Binary64.sparsify_k.
  destruct (float_of_int_at_most _ Hn) as (f & -> & Hf). cbn [bind].
  destruct (py_int_at_most (SFmul 53 1024 f
              (SFsub 53 1024 (Binary32.float64_of_Z 1) sparsity)) (Z.of_nat n))
    as (z & -> & Hz); [lia | |].
  - apply SFmul_at_most; [exact Hn | exact Hf |].
    now apply kept_share_at_most.
  - cbn [bind]. eexists. split; [reflexivity |].
    destruct (Z.eqb_spec z 0); lia.
Qed.

(** C2, as the code has it.  For a set with distinct names whose tensors
    have between [1] and [2^53] elements, and every binary64 sparsity in
    [[0, 1)]: [sparsify_gradients] succeeds and keeps, for each tensor of
    [n] elements, exactly [k] values and [k] offsets, where [k] is what
    Python computes for [int(n * (1 - sparsity))] in binary64 (the
    difference and the product rounded to nearest, the fraction dropped),
    and [1] when that is [0]; and [1 <= k <= n].  [k] is neither the
    rounded product of the specification nor the floor of the exact
    product. *)
Theorem sparsify_keeps_machine_count (g : GradientSet)
  (sparsity : spec_float) :
  NoDup (dict_keys g) ->
  below_one sparsity = true ->
  (forall name t, In (name, t) g ->
     (1 <= Z.of_nat (numel t) <= 2 ^ 53)%Z) ->
  exists sp,
    Binary64.sparsify_gradients g sparsity = Ok (PyDict sp) /\
    forall name t, In (name, t) g ->
      exists k vals idxs,
        Binary64.sparsify_k (numel t) sparsity = Ok k /\
        (1 <= k <= Z.of_nat (numel t))%Z /\
        dict_get sp name =
          Some (PyDict [("values", PyTensor (mkTensor [length vals] vals));
                        ("indices", PyIndexTensor idxs);
                        ("shape", PySize (shape t))]) /\
        length vals = Z.to_nat k /\ length idxs = Z.to_nat k.
Proof.
  intros Hnd Hs Hn.
  assert (Hfit : counts_fit g sparsity = true).
  { unfold counts_fit. apply forallb_forall. intros [name t] Hin.
    unfold count_fits. simpl snd.
    destruct (sparsify_k_below_one (numel t) sparsity) as (k & -> & Hk);
      [specialize (Hn name t Hin); lia | exact Hs |].
    apply andb_true_intro. split; apply Z.leb_le; lia. }
  pose proof (machine_sparsify_cases g sparsity Hnd) as H.
  rewrite Hfit in H. exact H.
Qed.

(** The count of the machine at a few inputs: [int(10 * (1 - 0.1))] is
    [9] where the exact product has the floor [8]; [int(10 * (1 - 0.2))]
    is [8], not [7]; [int(100 * (1 - 0.9))] is [9], not [10];
    [int(3 * (1 - 0.5))] is [1] where the specification rounds to [2]. *)
Example machine_counts :
  Binary64.sparsify_k 10 (Binary64.literal 1 10) = Ok 9%Z /\
  Binary64.sparsify_k 10 (Binary64.literal 2 10) = Ok 8%Z /\
  Binary64.sparsify_k 100 (Binary64.literal 9 10) = Ok 9%Z /\
  Binary64.sparsify_k 3 (Binary64.literal 5 10) = Ok 1%Z /\
  Binary64.sparsify_k 2 (Binary64.literal 9 10) = Ok 1%Z.
Proof. vm_compute. repeat split; reflexivity. Qed.

Lemma sparsify_machine_count_cases_witness :
  NoDup (dict_keys [("w", ten_values)]) /\
  counts_fit [("w", ten_values)] (Binary64.literal 1 10) = true /\
  exists sp,
    Binary64.sparsify_gradients [("w", ten_values)] (Binary64.literal 1 10)
      = Ok (PyDict sp) /\
    forall name t, In (name, t) [("w", ten_values)] ->
      exists k vals idxs,
        Binary64.sparsify_k (numel t) (Binary64.literal 1 10) = Ok k /\
        (1 <= k <= Z.of_nat (numel t))%Z /\
        dict_get sp name =
          Some (PyDict [("values", PyTensor (mkTensor [length vals] vals));
                        ("indices", PyIndexTensor idxs);
                        ("shape", PySize (shape t))]) /\
        length vals = Z.to_nat k /\ length idxs = Z.to_nat k.
Proof.
  assert (Hnd : NoDup (dict_keys [("w", ten_values)]))
    by (apply nodupb_sound; reflexivity).
  assert (Hfit : counts_fit [("w", ten_values)] (Binary64.literal 1 10) = true)
    by (vm_compute; reflexivity).
  split; [exact Hnd |]. split; [exact Hfit |].
  pose proof (sparsify_machine_count_cases [("w", ten_values)]
                (Binary64.literal 1 10) Hnd) as H.
  rewrite Hfit in H. exact H.
Defined.

Lemma sparsify_keeps_machine_count_witness :
  NoDup (dict_keys [("w", ten_values)]) /\
  below_one (Binary64.literal 1 10) = true /\
  (forall name t, In (name, t) [("w", ten_values)] ->
     (1 <= Z.of_nat (numel t) <= 2 ^ 53)%Z) /\
  exists sp,
    Binary64.sparsify_gradients [("w", ten_values)] (Binary64.literal 1 10)
      = Ok (PyDict sp) /\
    forall name t, In (name, t) [("w", ten_values)] ->
      exists k vals idxs,
        Binary64.sparsify_k (numel t) (Binary64.literal 1 10) = Ok k /\
        (1 <= k <= Z.of_nat (numel t))%Z /\
        dict_get sp name =
          Some (PyDict [("values", PyTensor (mkTensor [length vals] vals));
                        ("indices", PyIndexTensor idxs);
                        ("shape", PySize (shape t))]) /\
        length vals = Z.to_nat k /\ length idxs = Z.to_nat k.
Proof.
  assert (Hnd : NoDup (dict_keys [("w", ten_values)]))
    by (apply nodupb_sound; reflexivity).
  assert (Hs : below_one (Binary64.literal 1 10) = true)
    by (vm_compute; reflexivity).
  assert (Hn : forall name t, In (name, t) [("w", ten_values)] ->
                 (1 <= Z.of_nat (numel t) <= 2 ^ 53)%Z).
  { intros name t [H | []]. inversion H. vm_compute.
    split; discriminate. }
  split; [exact Hnd |]. split; [exact Hs |]. split; [exact Hn |].
  exact (sparsify_keeps_machine_count [("w", ten_values)]
           (Binary64.literal 1 10) Hnd Hs Hn).
Defined.

(* ================================================================== *)
(** * Tensors without dimensions *)
(* ================================================================== *)

(** C9, on a tensor without dimensions.  For the set whose only tensor is
    the scalar [x], sparsifying at sparsity [0] succeeds and keeps the
    element, under the empty shape; densifying that payload raises
    TypeError instead of giving the set back: the element count is computed
    as [torch.prod(torch.tensor(shape)).item()], which for the empty shape
    is the float [1.0], and [torch.zeros] refuses a float. *)
Theorem densify_rejects_scalar_tensor (name : string) (x : R) :
  sparsify_gradients [(name, scalar_tensor x)] 0 =
    Ok (PyDict [(name, PyDict [("values", PyTensor (mkTensor [1%nat] [x]));
                               ("indices", PyIndexTensor [0%nat]);
                               ("shape", PySize [])])]) /\
  densify_gradients
    (PyDict [(name, PyDict [("values", PyTensor (mkTensor [1%nat] [x]));
                            ("indices", PyIndexTensor [0%nat]);
                            ("shape", PySize [])])]) = Raise TypeError /\
  ~ (exists sparse,
       sparsify_gradients [(name, scalar_tensor x)] 0 = Ok sparse /\
       densify_gradients sparse = Ok [(name, scalar_tensor x)]).
Proof.
  assert (Hs : sparsify_gradients [(name, scalar_tensor x)] 0 =
               Ok (PyDict [(name, PyDict [("values", PyTensor (mkTensor [1%nat] [x]));
                                          ("indices", PyIndexTensor [0%nat]);
                                          ("shape", PySize [])])])).
  { unfold sparsify_gradients. cbn [for_each].
    rewrite sparsify_step_eq.
    - cbn [bind dict_set]. do 4 f_equal.
      unfold sparse_record, kept.
      rewrite sparsify_k_zero by (unfold numel; simpl; lia).
      reflexivity.
    - rewrite sparsify_k_zero by (unfold numel; simpl; lia).
      unfold numel. simpl. lia. }
  assert (Hd : densify_gradients
                 (PyDict [(name, PyDict [("values", PyTensor (mkTensor [1%nat] [x]));
                                         ("indices", PyIndexTensor [0%nat]);
                                         ("shape", PySize [])])]) = Raise TypeError)
    by reflexivity.
  split; [exact Hs |]. split; [exact Hd |].
  intros (sparse & Hsp & Hdn). rewrite Hs in Hsp. inversion Hsp; subst sparse.
  rewrite Hd in Hdn. discriminate.
Qed.
